(** * TRAILS model selection: request boundary, MLP search space and
      micro-benchmark drivers

    A shallow embedding of the Python sources

      - [internal/ml/model_selection/pg_interface.py]
      - [internal/ml/model_selection/src/search_space/mlp_api/space.py]
      - [internal/ml/model_selection/exps/micro/benchmark_filtering_latency_sql.py]
      - [internal/ml/model_selection/exps/micro/benchmark_budget_aware_alg.py]

    Python values are modelled as the interpreter has them: [int] as [Z],
    [float] as IEEE binary64 ([spec_float] at precision 53), [str] as [string]
    (the UTF-8 bytes of the text), [list] objects as entries of an explicit store when
    they are shared and mutated in place, [dict] as a finite map, raised
    exceptions as the [Raise] summand of a result type. *)

From Stdlib Require Import ZArith String Ascii SpecFloat.
From Stdlib Require Import DecimalString DecimalZ DecimalN DecimalFacts.
From stdpp Require Import gmap strings list.

Open Scope string_scope.
Open Scope list_scope.

(** ** Python prelude *)

Module Py.

(** Exceptions derived from [Exception] that the modelled code and the
    library calls it makes can raise.  [Other] stands for any further
    subclass of [Exception] raised by code behind an interface. *)
Inductive exn : Type :=
  | JSONDecodeError
  | JSONEncodeError
  | KeyError (key : string)
  | AttributeError
  | TypeError
  | ValueError
  | IndexError
  | OverflowError
  | ZeroDivisionError
  | NoSectionError
  | NoOptionError
  | InterpolationSyntaxError
  | InterpolationMissingOptionError
  | InterpolationDepthError
  | Other (msg : string).

Inductive outcome (A : Type) : Type :=
  | Ok (a : A)
  | Raise (e : exn).
Arguments Ok {A} a.
Arguments Raise {A} e.

(** Sequencing: an exception raised by the first computation skips the
    rest.  The instances give [x ← c; k] its meaning on [outcome]. *)
#[global] Instance outcome_ret : MRet outcome := fun _ a => Ok a.
#[global] Instance outcome_bind : MBind outcome := fun _ _ k c =>
  match c with
  | Ok a => k a
  | Raise e => Raise e
  end.
#[global] Instance outcome_fmap : FMap outcome := fun _ _ f c =>
  match c with
  | Ok a => Ok (f a)
  | Raise e => Raise e
  end.

(** *** Characters and [str] methods *)

Definition is_digit (c : ascii) : bool :=
  let n := nat_of_ascii c in Nat.leb 48 n && Nat.leb n 57.

(** The white space of the ASCII range that [int] skips around a
    numeral: TAB..CR and SPACE. *)
Definition is_space (c : ascii) : bool :=
  let n := nat_of_ascii c in
  (Nat.leb 9 n && Nat.leb n 13) || Nat.eqb n 32.

Definition lower_char (c : ascii) : ascii :=
  let n := nat_of_ascii c in
  if Nat.leb 65 n && Nat.leb n 90 then ascii_of_nat (n + 32) else c.

(** [s.lower()] *)
Fixpoint lower (s : string) : string :=
  match s with
  | EmptyString => EmptyString
  | String c s' => String (lower_char c) (lower s')
  end.

(** [s.split(sep)] for a one-character separator: always at least one
    piece, empty pieces are kept. *)
Fixpoint split (sep : ascii) (s : string) : list string :=
  match s with
  | EmptyString => [EmptyString]
  | String c s' =>
      if Ascii.eqb c sep then EmptyString :: split sep s'
      else match split sep s' with
           | p :: ps => String c p :: ps
           | [] => [String c EmptyString]
           end
  end.

(** [sep.join(l)] *)
Definition join (sep : string) (l : list string) : string :=
  String.concat sep l.

Fixpoint lstrip (s : string) : string :=
  match s with
  | EmptyString => EmptyString
  | String c s' => if is_space c then lstrip s' else s
  end.

Fixpoint rstrip (s : string) : string :=
  match s with
  | EmptyString => EmptyString
  | String c s' =>
      match rstrip s' with
      | EmptyString => if is_space c then EmptyString else String c EmptyString
      | t => String c t
      end
  end.

(** The text without the white space at its two ends. *)
Definition strip (s : string) : string := rstrip (lstrip s).

(** *** Text outside ASCII

    The code points of a text, from its UTF-8 bytes. *)
Definition continuation (c : ascii) : N := N.land (N_of_ascii c) 63.

Fixpoint utf8_code_points (s : string) : list N :=
  match s with
  | EmptyString => []
  | String b0 s1 =>
      let n0 := N_of_ascii b0 in
      if (n0 <? 192)%N then n0 :: utf8_code_points s1
      else
        match s1 with
        | EmptyString => [n0]
        | String b1 s2 =>
            if (n0 <? 224)%N then
              ((n0 - 192) * 64 + continuation b1)%N :: utf8_code_points s2
            else
              match s2 with
              | EmptyString => [n0]
              | String b2 s3 =>
                  if (n0 <? 240)%N then
                    ((n0 - 224) * 4096 + continuation b1 * 64
                     + continuation b2)%N :: utf8_code_points s3
                  else
                    match s3 with
                    | EmptyString => [n0]
                    | String b3 s4 =>
                        ((n0 - 240) * 262144 + continuation b1 * 4096
                         + continuation b2 * 64 + continuation b3)%N
                        :: utf8_code_points s4
                    end
              end
        end
  end.

Fixpoint is_ascii (s : string) : bool :=
  match s with
  | EmptyString => true
  | String c s' => (N_of_ascii c <? 128)%N && is_ascii s'
  end.

(** The characters outside ASCII for which [str.isspace] holds. *)
Definition unicode_space (cp : N) : bool :=
  bool_decide (cp ∈ [133; 160; 5760; 8232; 8233; 8239; 8287; 12288]%N)
  || ((8192 <=? cp) && (cp <=? 8202))%N.

(** The decimal digits outside ASCII (category Nd of the Unicode
    database of CPython 3.11): every entry is the digit zero of a
    script, and the nine code points after it are its digits 1 to 9. *)
Definition decimal_zeros : list N :=
  [1632; 1776; 1984; 2406; 2534; 2662; 2790; 2918; 3046; 3174; 3302; 3430;
   3558; 3664; 3792; 3872; 4160; 4240; 6112; 6160; 6470; 6608; 6784; 6800;
   6992; 7088; 7232; 7248; 42528; 43216; 43264; 43472; 43504; 43600; 44016;
   65296; 66720; 68912; 69734; 69872; 69942; 70096; 70384; 70736; 70864;
   71248; 71360; 71472; 71904; 72016; 72784; 73040; 73120; 92768; 92864;
   93008; 120782; 120792; 120802; 120812; 120822; 123200; 123632; 125264;
   130032]%N.

Definition unicode_decimal (cp : N) : option N :=
  (fun zero => cp - zero)%N
    <$> List.find (fun zero => (zero <=? cp) && (cp <? zero + 10))%N
          decimal_zeros.

(** What [int] makes of a text before it reads the numeral: a text
    that is all ASCII is taken as it is; in any other text a space
    outside ASCII becomes a space and a decimal digit of another script
    its ASCII digit, and a character that is neither makes the text
    unreadable. *)
Fixpoint digits_and_spaces (cps : list N) : option string :=
  match cps with
  | [] => Some EmptyString
  | cp :: cps' =>
      match
        (if (cp <? 128)%N then Some (ascii_of_N cp)
         else if unicode_space cp then Some " "%char
         else (fun d => ascii_of_N (48 + d)) <$> unicode_decimal cp)
      with
      | None => None
      | Some c => String c <$> digits_and_spaces cps'
      end
  end.

Definition decimal_and_space_to_ascii (s : string) : option string :=
  if is_ascii s then Some s else digits_and_spaces (utf8_code_points s).

(** *** [str(int)] and [int(str)] *)

(** The interpreter's limit on conversions between [int] and [str]
    ([sys.get_int_max_str_digits()], 4300 unless it is changed): a
    numeral of more digits is refused with [ValueError]. *)
Definition max_str_digits : nat := 4300.

(** [str(z)] for an [int]: minus sign for negatives, no leading zeros.
    This is the numeral of [z] whatever its size; the interpreter
    writes it for an integer of at most [max_str_digits] digits, and
    the statements that depend on the limit carry it as a bound on the
    length of the numeral. *)
Definition str_of_int (z : Z) : string :=
  NilZero.string_of_int (Z.to_int z).

(** [str(z)] as the interpreter runs it: the numeral of [z], or
    [ValueError] when the numeral has more than [max_str_digits]
    digits; the sign is not counted. *)
Definition str (z : Z) : outcome string :=
  if Nat.ltb max_str_digits (String.length (str_of_int (Z.abs z))) then
    Raise ValueError
  else Ok (str_of_int z).

(** The digits of an integer literal accepted by [int]: a non-empty run
    of decimal digits in which single underscores may separate digits.
    Returns the digits with the underscores removed. *)
Fixpoint literal_digits (after_digit : bool) (s : string) : option string :=
  match s with
  | EmptyString => if after_digit then Some EmptyString else None
  | String c s' =>
      if is_digit c then String c <$> literal_digits true s'
      else if Ascii.eqb c "_"%char then
        if after_digit then literal_digits false s' else None
      else None
  end.

(** [int(s)] in base 10: surrounding white space is dropped, one sign is
    allowed, leading zeros are accepted, and the digits, leading zeros
    included and underscores not, may be at most [max_str_digits];
    anything else is a [ValueError]. *)
Definition int_of_str (s : string) : outcome Z :=
  match decimal_and_space_to_ascii s with
  | None => Raise ValueError
  | Some a =>
      let t := strip a in
      let '(negative, body) :=
        match t with
        | String "-"%char b => (true, b)
        | String "+"%char b => (false, b)
        | _ => (false, t)
        end in
      match literal_digits false body with
      | None => Raise ValueError
      | Some ds =>
          if Nat.ltb max_str_digits (String.length ds) then Raise ValueError
          else
            match NilEmpty.uint_of_string ds with
            | None => Raise ValueError
            | Some d =>
                let n := Z.of_N (N.of_uint d) in
                Ok (if negative then (- n)%Z else n)
            end
      end
  end.

Fixpoint all_digits (s : string) : bool :=
  match s with
  | EmptyString => true
  | String c s' => is_digit c && all_digits s'
  end.

(** [[f(x) for x in l]] where [f] may raise: the first exception wins. *)
Fixpoint map_result {A B} (f : A -> outcome B) (l : list A)
  : outcome (list B) :=
  match l with
  | [] => Ok []
  | x :: l' =>
      match f x with
      | Raise e => Raise e
      | Ok y =>
          match map_result f l' with
          | Raise e => Raise e
          | Ok ys => Ok (y :: ys)
          end
      end
  end.

(** *** [float] *)

(** A Python [float] is an IEEE 754 binary64 value. *)
Definition float : Type := spec_float.
Definition prec : Z := 53.
Definition emax : Z := 1024.

(** The integer [z] as an unrounded binary value. *)
Definition exact_of_int (z : Z) : float :=
  match z with
  | Z0 => S754_zero false
  | Zpos p => S754_finite false p 0
  | Zneg p => S754_finite true p 0
  end.

(** [float(z)] for an [int]: round to nearest even, [OverflowError]
    when the rounded value is not finite. *)
Definition float_of_int (z : Z) : outcome float :=
  match binary_normalize prec emax z 0 false with
  | S754_infinity _ => Raise OverflowError
  | f => Ok f
  end.

(** [x * y] on floats *)
Definition float_mul (x y : float) : float := SFmul prec emax x y.

(** [a / b] on two [int]s: the correctly rounded quotient. *)
Definition int_truediv (a b : Z) : outcome float :=
  if decide (b = 0%Z) then Raise ZeroDivisionError
  else match SFdiv prec emax (exact_of_int a) (exact_of_int b) with
       | S754_infinity _ => Raise OverflowError
       | f => Ok f
       end.

(** [x / y] on floats *)
Definition float_truediv (x y : float) : outcome float :=
  match y with
  | S754_zero _ => Raise ZeroDivisionError
  | _ => Ok (SFdiv prec emax x y)
  end.

(** Rounding a float to an [int] with [round] applied to the exact
    quotient [m / 2^k]; shared by [math.ceil], [math.floor] and [int]. *)
Definition int_of_float_with (round : Z -> Z -> Z) (f : float) : outcome Z :=
  match f with
  | S754_nan => Raise ValueError
  | S754_infinity _ => Raise OverflowError
  | S754_zero _ => Ok 0%Z
  | S754_finite s m e =>
      let v := if s then Zneg m else Zpos m in
      Ok (if (0 <=? e)%Z then v * 2 ^ e else round v (2 ^ (- e)))%Z
  end.

Definition math_ceil : float -> outcome Z :=
  int_of_float_with (fun v d => - ((- v) / d))%Z.
Definition math_floor : float -> outcome Z :=
  int_of_float_with Z.div.
(** [int(f)] truncates toward zero. *)
Definition int_of_float : float -> outcome Z :=
  int_of_float_with Z.quot.

(** *** [range] *)

(** [list(range(start, stop, step))]; a zero step is a [ValueError]. *)
Definition range3 (start stop step : Z) : outcome (list Z) :=
  if decide (step = 0%Z) then Raise ValueError
  else
    let n : Z :=
      (if 0 <? step then (stop - start + step - 1) / step
       else (start - stop - step - 1) / (- step))%Z in
    Ok ((fun i : nat => start + Z.of_nat i * step)%Z <$> seq 0 (Z.to_nat n)).

(** [list(range(start, stop))] *)
Definition range2 (start stop : Z) : list Z :=
  (fun i : nat => start + Z.of_nat i)%Z <$> seq 0 (Z.to_nat (stop - start)).

(** [list(range(n))] *)
Definition range (n : nat) : list nat := seq 0 n.

(** *** The [random] module

    The generator is a source of raw draws, consumed from the front.  A
    computation that needs a draw when none is left has no outcome
    ([None]): the supply, not the program, ended. *)
Abbreviation rng := (list nat).

(** [random.choice(l)]: [IndexError] on an empty sequence, otherwise
    the element at a position drawn below [len(l)]. *)
Definition random_choice {A} (l : list A) (g : rng)
  : option (outcome A * rng) :=
  match l with
  | [] => Some (Raise IndexError, g)
  | x0 :: _ =>
      match g with
      | [] => None
      | r :: g' => Some (Ok (nth (r mod length l) l x0), g')
      end
  end.

(** Selection of [k] positions without replacement. *)
Fixpoint sample_from {A} (k : nat) (pool : list A) (g : rng)
  : option (list A * rng) :=
  match k with
  | O => Some ([], g)
  | S k' =>
      match g with
      | [] => None
      | r :: g' =>
          let j := r mod length pool in
          match pool !! j with
          | None => None
          | Some x =>
              match sample_from k' (delete j pool) g' with
              | None => None
              | Some (xs, g'') => Some (x :: xs, g'')
              end
          end
      end
  end.

(** [random.sample(population, k)]: [ValueError] when the sample is
    larger than the population, otherwise [k] elements taken at
    pairwise distinct positions. *)
Definition random_sample {A} (population : list A) (k : nat) (g : rng)
  : option (outcome (list A) * rng) :=
  if decide (length population < k) then Some (Raise ValueError, g)
  else match sample_from k population g with
       | None => None
       | Some (xs, g') => Some (Ok xs, g')
       end.

End Py.

Import Py.

(** ** [search_space/mlp_api/space.py] *)

Module MlpSpace.

(** *** Store of list objects

    A Python list is an object with identity: two names can refer to one
    list, and an assignment through either is seen through both.  The
    store maps references to the current contents of each list;
    allocation appends, so existing references stay valid. *)
Abbreviation ref := nat.
Abbreviation store := (list (list Z)).

Definition alloc (v : list Z) (h : store) : ref * store :=
  (length h, h ++ [v]).

(** [l[i] = x] through a reference. *)
Definition store_set (r : ref) (i : nat) (x : Z) (h : store) : store :=
  alter (fun l => <[i := x]> l) r h.

(** [class MlpMicroCfg]: the constructor keeps the reference it is
    given, it does not copy the list. *)
Record MlpMicroCfg : Type := { hidden_layer_list : ref }.

(** The fields of the macro configuration ([self.model_cfg]) that the
    modelled methods read. *)
Record MlpMacroCfg : Type := {
  layer_choices : list Z;
  num_layers : nat
}.

(** [MlpMicroCfg.__str__]; [None] only for a reference outside the
    store. *)
Definition cfg_str (h : store) (m : MlpMicroCfg) : option string :=
  l ← h !! hidden_layer_list m;
  Some (join "-" (str_of_int <$> l)).

(** [[int(ele) for ele in encoding.split("-")]] *)
Definition decode_layers (encoding : string) : outcome (list Z) :=
  map_result int_of_str (split "-" encoding).

(** [MlpMicroCfg.builder]: the comprehension builds a new list. *)
Definition builder (encoding : string) (h : store)
  : outcome (MlpMicroCfg * store) :=
  l ← decode_layers encoding;
  let '(r, h') := alloc l h in
  Ok ({| hidden_layer_list := r |}, h').

(** [MlpSpace.serialize_model_encoding] *)
Definition serialize_model_encoding (h : store) (arch_micro : MlpMicroCfg)
  : option string :=
  cfg_str h arch_micro.

(** [MlpSpace.deserialize_model_encoding] *)
Definition deserialize_model_encoding (model_encoding : string) (h : store)
  : outcome (MlpMicroCfg * store) :=
  builder model_encoding h.

(** The two directions of the encoding round trip.  From a
    configuration: the list [l] of a stored configuration survives
    [serialize_model_encoding] followed by [deserialize_model_encoding].
    From a text: decoding [s] and encoding the result gives [s] back. *)
Definition roundtrip_from_cfg (l : list Z) : Prop :=
  ∀ (h : store) (m : MlpMicroCfg),
    h !! hidden_layer_list m = Some l →
    ∃ s m' h',
      serialize_model_encoding h m = Some s ∧
      deserialize_model_encoding s h = Ok (m', h') ∧
      h' !! hidden_layer_list m' = Some l.

Definition roundtrip_from_text (s : string) : Prop :=
  ∀ h : store,
    ∃ m h',
      deserialize_model_encoding s h = Ok (m, h') ∧
      serialize_model_encoding h' m = Some s.

(** A text made of decimal numerals joined by dashes: every piece is a
    non-empty run of digits. *)
Definition decimal_numeral (p : string) : bool :=
  all_digits p && negb (String.eqb p "").
Definition dash_joined_decimals (s : string) : bool :=
  forallb decimal_numeral (split "-" s).

(** The numerals that [str] produces for a size: no leading zero, except
    for zero itself. *)
Definition canonical_numeral (p : string) : bool :=
  decimal_numeral p &&
  (String.eqb p "0" ||
   match p with String c _ => negb (Ascii.eqb c "0") | EmptyString => false end).
Definition canonical_encoding (s : string) : bool :=
  forallb canonical_numeral (split "-" s).

(** *** Mutation

    The methods below draw from [random] and update a list in place, so
    they run on a state made of the store and the generator.  A run has
    no outcome ([None]) when the supply of draws or the [fuel] bounding
    a [while True] loop ends first, or on a reference outside the
    store. *)
Definition run (A : Type) : Type := option (outcome A * store * rng).

(** The [while True] loop shared by both mutation methods: redraw until
    the drawn size differs from the current one, then assign it. *)
Fixpoint choose_layer_size (fuel : nat) (cfg : MlpMacroCfg)
    (child_layer_list : ref) (chosen_hidden_layer_index : nat)
    (h : store) (g : rng) : run unit :=
  match fuel with
  | O => None
  | S fuel' =>
      match h !! child_layer_list with
      | None => None
      | Some l =>
          match l !! chosen_hidden_layer_index with
          | None => Some (Raise IndexError, h, g)
          | Some cur_layer_size =>
              match random_choice (layer_choices cfg) g with
              | None => None
              | Some (Raise e, g') => Some (Raise e, h, g')
              | Some (Ok mutated_layer_size, g') =>
                  if decide (mutated_layer_size ≠ cur_layer_size) then
                    Some (Ok tt,
                          store_set child_layer_list
                            chosen_hidden_layer_index mutated_layer_size h,
                          g')
                  else
                    choose_layer_size fuel' cfg child_layer_list
                      chosen_hidden_layer_index h g'
              end
          end
      end
  end.

(** [MlpSpace.mutate_architecture] *)
Definition mutate_architecture (fuel : nat) (cfg : MlpMacroCfg)
    (parent_arch : MlpMicroCfg) (h : store) (g : rng)
  : run (string * MlpMicroCfg) :=
  match h !! hidden_layer_list parent_arch with
  | None => None
  | Some parent_list =>
      (* deepcopy *)
      let '(child_layer_list, h1) := alloc parent_list h in
      match random_choice (range (length parent_list)) g with
      | None => None
      | Some (Raise e, g1) => Some (Raise e, h1, g1)
      | Some (Ok chosen_hidden_layer_index, g1) =>
          match choose_layer_size fuel cfg child_layer_list
                  chosen_hidden_layer_index h1 g1 with
          | None => None
          | Some (Raise e, h2, g2) => Some (Raise e, h2, g2)
          | Some (Ok _, h2, g2) =>
              let new_model := {| hidden_layer_list := child_layer_list |} in
              match cfg_str h2 new_model with
              | None => None
              | Some s => Some (Ok (s, new_model), h2, g2)
              end
          end
      end
  end.

(** The [for] loop of [mutate_architecture_move_proposal].  Every
    iteration wraps the same list [child_layer_list] in a new
    [MlpMicroCfg]; the string of the pair is taken at that moment. *)
Fixpoint move_proposal_loop (fuel : nat) (cfg : MlpMacroCfg)
    (child_layer_list : ref) (indices : list nat)
    (all_combs : list (string * MlpMicroCfg)) (h : store) (g : rng)
  : run (list (string * MlpMicroCfg)) :=
  match indices with
  | [] => Some (Ok all_combs, h, g)
  | chosen_hidden_layer_index :: rest =>
      match choose_layer_size fuel cfg child_layer_list
              chosen_hidden_layer_index h g with
      | None => None
      | Some (Raise e, h', g') => Some (Raise e, h', g')
      | Some (Ok _, h', g') =>
          let new_model := {| hidden_layer_list := child_layer_list |} in
          match cfg_str h' new_model with
          | None => None
          | Some s =>
              move_proposal_loop fuel cfg child_layer_list rest
                (all_combs ++ [(s, new_model)]) h' g'
          end
      end
  end.

(** [MlpSpace.mutate_architecture_move_proposal].  The source collects
    the pairs in a [set] and returns [list(all_combs)], whose order is
    unspecified; the pairs are listed here in the order they are
    added. *)
Definition mutate_architecture_move_proposal (fuel : nat) (cfg : MlpMacroCfg)
    (parent_arch : MlpMicroCfg) (h : store) (g : rng)
  : run (list (string * MlpMicroCfg)) :=
  match h !! hidden_layer_list parent_arch with
  | None => None
  | Some parent_list =>
      let '(child_layer_list, h1) := alloc parent_list h in
      move_proposal_loop fuel cfg child_layer_list
        (range (length parent_list)) [] h1 g
  end.

End MlpSpace.

(** ** [pg_interface.py] *)

Module PgInterface.

(** Python values that cross the request boundary: what [json.loads]
    returns and what [orjson.dumps] is given.  A [dict] keeps its
    insertion order. *)
#[warnings="-register-all"] Inductive json : Type :=
  | JNull
  | JBool (b : bool)
  | JInt (z : Z)
  | JFloat (f : float)
  | JStr (s : string)
  | JList (l : list json)
  | JDict (d : list (string * json)).

(** [argparse.Namespace]: attributes set by name. *)
Abbreviation Namespace := (gmap string json).
(** [os.environ] *)
Abbreviation environ := (gmap string string).
(** The sections of a loaded [ConfigParser]: section name, then option
    name (lower case), then the raw text. *)
Abbreviation ini := (gmap string (gmap string string)).

(** First binding of a key. *)
Fixpoint assoc (k : string) (d : list (string * json)) : option json :=
  match d with
  | [] => None
  | (k', v) :: d' => if String.eqb k k' then Some v else assoc k d'
  end.

(** [params[key]] *)
Definition getitem (params : json) (key : string) : outcome json :=
  match params with
  | JDict d =>
      match assoc key d with
      | Some v => Ok v
      | None => Raise (KeyError key)
      end
  | _ => Raise TypeError
  end.

(** [params.get(key)]: [None] for an absent key; only a [dict] has the
    method. *)
Definition dict_get (params : json) (key : string) : outcome json :=
  match params with
  | JDict d => Ok (default JNull (assoc key d))
  | _ => Raise AttributeError
  end.

(** [args.name] *)
Definition getattr (args : Namespace) (name : string) : outcome json :=
  match args !! name with
  | Some v => Ok v
  | None => Raise AttributeError
  end.

(** A value used where a [str] is required. *)
Definition as_str (v : json) : outcome string :=
  match v with
  | JStr s => Ok s
  | _ => Raise TypeError
  end.

(** [v.lower()]: only [str] has the method. *)
Definition str_lower (v : json) : outcome string :=
  match v with
  | JStr s => Ok (lower s)
  | _ => Raise AttributeError
  end.

(** [int(v)] *)
Definition py_int (v : json) : outcome Z :=
  match v with
  | JInt z => Ok z
  | JBool b => Ok (if b then 1 else 0)%Z
  | JFloat f => int_of_float f
  | JStr s => int_of_str s
  | _ => Raise TypeError
  end.

(** [os.environ.setdefault(k, v)] *)
Definition setdefault (k v : string) (env : environ) : environ :=
  match env !! k with
  | Some _ => env
  | None => <[k := v]> env
  end.

(** *** [orjson.dumps]

    The text that [orjson.dumps(v).decode('utf-8')] returns is
    identified with the document it encodes.  Integers outside 64 bits
    are refused; a float that is not finite is written as [null]. *)
Fixpoint encodable (v : json) : bool :=
  match v with
  | JInt z => ((- 2 ^ 63 <=? z) && (z <? 2 ^ 64))%Z
  | JList l => forallb encodable l
  | JDict d => forallb (fun kv => encodable (snd kv)) d
  | _ => true
  end.

Fixpoint document (v : json) : json :=
  match v with
  | JFloat (S754_nan) | JFloat (S754_infinity _) => JNull
  | JList l => JList (map document l)
  | JDict d => JDict (map (fun kv => (fst kv, document (snd kv))) d)
  | _ => v
  end.

Definition orjson_dumps (v : json) : outcome json :=
  if encodable v then Ok (document v) else Raise JSONEncodeError.

(** *** [configparser] *)

Definition DEFAULT : string := "DEFAULT".

(** The options a section sees: its own, then those of [DEFAULT].  A
    section that does not exist is an error, unless it is [DEFAULT]
    itself. *)
Definition unify_values (parser : ini) (section : string)
  : outcome (string -> option string) :=
  match parser !! section with
  | None =>
      if String.eqb section DEFAULT then Ok (fun _ => None)
      else Raise NoSectionError
  | Some sectiondict =>
      Ok (fun option =>
            match sectiondict !! option with
            | Some v => Some v
            | None => parser !! DEFAULT ≫= (.!! option)
            end)
  end.

Fixpoint contains_percent (s : string) : bool :=
  match s with
  | EmptyString => false
  | String c s' => Ascii.eqb c "%" || contains_percent s'
  end.

Definition MAX_INTERPOLATION_DEPTH : nat := 10.

(** [BasicInterpolation._interpolate_some], with [depth] counting the
    levels that are left: [%%] stands for a percent sign, [%(name)s]
    for the value of the option [name] (in lower case), which is
    expanded in turn when it holds a percent sign; any other use of
    [%] is an error.  [scan] is the [while] loop, [reference] the match
    of the pattern [%\(([^)]+)\)s] after the opening parenthesis. *)
Fixpoint interpolate_some (depth : nat) (map : string -> option string)
    (value : string) {struct depth} : outcome string :=
  match depth with
  | O => Raise InterpolationDepthError
  | S depth' =>
      (fix scan (rest : string) {struct rest} : outcome string :=
         match rest with
         | EmptyString => Ok EmptyString
         | String c rest1 =>
             if Ascii.eqb c "%" then
               match rest1 with
               | String c1 rest2 =>
                   if Ascii.eqb c1 "%" then String "%" <$> scan rest2
                   else if Ascii.eqb c1 "(" then reference rest2 EmptyString
                   else Raise InterpolationSyntaxError
               | EmptyString => Raise InterpolationSyntaxError
               end
             else String c <$> scan rest1
         end
       with reference (rest : string) (name : string) {struct rest}
         : outcome string :=
         match rest with
         | EmptyString => Raise InterpolationSyntaxError
         | String c rest1 =>
             if Ascii.eqb c ")" then
               match name, rest1 with
               | EmptyString, _ => Raise InterpolationSyntaxError
               | _, String c1 rest2 =>
                   if Ascii.eqb c1 "s" then
                     match map (lower name) with
                     | None => Raise InterpolationMissingOptionError
                     | Some v =>
                         expanded ←
                           (if contains_percent v then
                              interpolate_some depth' map v
                            else Ok v);
                         (fun tail => expanded +:+ tail) <$> scan rest2
                     end
                   else Raise InterpolationSyntaxError
               | _, EmptyString => Raise InterpolationSyntaxError
               end
             else reference rest1 (name +:+ String c EmptyString)
         end
       for scan) value
  end.

(** [parser.get(section, option)]: the text of the option, with the
    references in it expanded. *)
Definition parser_get (parser : ini) (section option : string)
  : outcome string :=
  d ← unify_values parser section;
  match d (lower option) with
  | None => Raise NoOptionError
  | Some value => interpolate_some MAX_INTERPOLATION_DEPTH d value
  end.

(** [parser.getboolean]: the accepted words, any letter case. *)
Definition boolean_state (s : string) : outcome bool :=
  let w := lower s in
  if bool_decide (w ∈ ["1"; "yes"; "true"; "on"]) then Ok true
  else if bool_decide (w ∈ ["0"; "no"; "false"; "off"]) then Ok false
  else Raise ValueError.

Inductive option_kind : Type := KStr | KInt | KFloat | KBool.

(** The assignments of [parse_config_arguments], in source order:
    attribute, section, kind of getter.  The option name is the
    attribute name. *)
Definition config_fields : list (string * string * option_kind) :=
  [ ("log_name", "DEFAULT", KStr); ("budget", "DEFAULT", KInt);
    ("device", "DEFAULT", KStr); ("log_folder", "DEFAULT", KStr);
    ("result_dir", "DEFAULT", KStr); ("num_points", "DEFAULT", KInt);
    ("max_load", "DEFAULT", KInt);
    ("search_space", "SAMPLER", KStr); ("population_size", "SAMPLER", KInt);
    ("sample_size", "SAMPLER", KInt); ("simple_score_sum", "SAMPLER", KBool);
    ("api_loc", "NB101", KStr); ("init_channels", "NB101", KInt);
    ("bn", "NB101", KInt); ("num_stacks", "NB101", KInt);
    ("num_modules_per_stack", "NB101", KInt);
    ("init_w_type", "NB201", KStr); ("init_b_type", "NB201", KStr);
    ("arch_size", "NB201", KInt);
    ("num_layers", "MLP", KInt); ("hidden_choice_len", "MLP", KInt);
    ("epoch", "MLP_TRAINER", KInt); ("batch_size", "MLP_TRAINER", KInt);
    ("lr", "MLP_TRAINER", KFloat); ("patience", "MLP_TRAINER", KInt);
    ("iter_per_epoch", "MLP_TRAINER", KInt); ("nfeat", "MLP_TRAINER", KInt);
    ("nfield", "MLP_TRAINER", KInt); ("nemb", "MLP_TRAINER", KInt);
    ("report_freq", "MLP_TRAINER", KInt); ("workers", "MLP_TRAINER", KInt);
    ("base_dir", "DATASET", KStr); ("dataset", "DATASET", KStr);
    ("num_labels", "DATASET", KInt);
    ("worker_id", "SEQ_TRAIN", KInt); ("total_workers", "SEQ_TRAIN", KInt);
    ("total_models_per_worker", "SEQ_TRAIN", KInt);
    ("pre_partitioned_file", "SEQ_TRAIN", KStr);
    ("worker_each_gpu", "DIS_TRAIN", KInt); ("gpu_num", "DIS_TRAIN", KInt);
    ("kn_rate", "TUNE_INTERVAL", KInt);
    ("only_phase1", "ANYTIME", KBool); ("is_simulate", "ANYTIME", KBool);
    ("refinement_url", "SERVER", KStr); ("cache_svc_url", "SERVER", KStr) ].

(** *** The environment of the module

    Library calls whose results depend on files, on the clock or on
    text formats, and the classes of this repository that
    [pg_interface.py] imports but that are not part of the modelled
    sources ([src.logger], [src.eva_engine.run_ms.RunModelSelection],
    the torch data loader). *)
Record World : Type := {
  json_loads : string -> outcome json;
  (** [parser.read(config_path)]: the sections found; a missing file is
      skipped silently, an argument that is no path is an error. *)
  parser_read : json -> outcome ini;
  (** [float(s)] for a [str] *)
  float_of_str : string -> outcome float;
  (** [traceback.format_exc()] while the exception is handled *)
  format_exc : exn -> string;
  (** [from src.logger import logger; logger.info(...)]: the logger is
      set up from the environment variables. *)
  logger_info : environ -> outcome unit;
  DataLoader : Type;
  (** [DataLoader(LibsvmDataset(mini_batch_data), batch_size, shuffle)] *)
  new_dataloader : json -> json -> outcome DataLoader;
  RunModelSelection : Type;
  rms_init : json -> Namespace -> json -> outcome RunModelSelection;
  select_model_online_clean :
    RunModelSelection -> float -> list DataLoader -> bool -> Z ->
    outcome (json * json * json);
  profile_filtering : RunModelSelection -> list DataLoader -> outcome json;
  profile_refinement : RunModelSelection -> list DataLoader -> outcome json;
  coordination :
    RunModelSelection -> float -> float -> float -> bool ->
    outcome (Z * Z * Z);
  rms_filtering_phase :
    RunModelSelection -> Z -> Z -> DataLoader -> outcome json;
  rms_refinement_phase :
    RunModelSelection -> Z -> json -> DataLoader -> DataLoader ->
    outcome (json * json)
}.

Section Interface.

Context (W : World).

(** [float(v)] *)
Definition py_float (v : json) : outcome float :=
  match v with
  | JFloat f => Ok f
  | JInt z => float_of_int z
  | JBool b => float_of_int (if b then 1 else 0)
  | JStr s => float_of_str W s
  | _ => Raise TypeError
  end.

(** [json.loads(v)]: the argument must be text. *)
Definition loads (v : json) : outcome json :=
  match v with
  | JStr s => json_loads W s
  | _ => Raise TypeError
  end.

(** One getter of the parser, by kind. *)
Definition parser_value (parser : ini) (section option : string)
    (k : option_kind) : outcome json :=
  raw ← parser_get parser section option;
  match k with
  | KStr => Ok (JStr raw)
  | KInt => JInt <$> int_of_str raw
  | KFloat => JFloat <$> float_of_str W raw
  | KBool => JBool <$> boolean_state raw
  end.

Fixpoint assign_fields (parser : ini)
    (fields : list (string * string * option_kind)) (args : Namespace)
  : outcome Namespace :=
  match fields with
  | [] => Ok args
  | (name, section, k) :: rest =>
      v ← parser_value parser section name k;
      assign_fields parser rest (<[name := v]> args)
  end.

(** [parse_config_arguments] *)
Definition parse_config_arguments (config_path : json) : outcome Namespace :=
  parser ← parser_read W config_path;
  assign_fields parser config_fields ∅.

(** A decorated function: the parsed request, the parsed configuration
    and the environment variables it runs under. *)
Definition endpoint : Type := json -> Namespace -> environ -> outcome json.

(** The first statements of the [try] block: the request is decoded
    and the configuration file it names is parsed. *)
Definition parse_request (encoded_str : string) : outcome (json * Namespace) :=
  params ← json_loads W encoded_str;
  config_file ← dict_get params "config_file";
  args ← parse_config_arguments config_file;
  Ok (params, args).

(** The three [os.environ.setdefault] statements, at clock reading
    [ts]: how they end and the environment variables they leave. *)
Definition set_environment (args : Namespace) (ts : Z) (env : environ)
  : outcome unit * environ :=
  match getattr args "base_dir" ≫= as_str with
  | Raise e => (Raise e, env)
  | Ok base_dir =>
      let env1 := setdefault "base_dir" base_dir env in
      match getattr args "log_folder" ≫= as_str with
      | Raise e => (Raise e, env1)
      | Ok log_folder =>
          let env2 := setdefault "log_logger_folder_name" log_folder env1 in
          match getattr args "log_name" ≫= as_str with
          | Raise e => (Raise e, env2)
          | Ok log_name =>
              (Ok tt,
               setdefault "log_file_name"
                 (log_name +:+ "_" +:+ str_of_int ts +:+ ".log") env2)
          end
      end
  end.

(** The [try] block of [exception_catcher.wrapper]: its result, and the
    environment variables as it leaves them. *)
Definition wrapper_try (func : endpoint) (encoded_str : string) (ts : Z)
    (env : environ) : outcome json * environ :=
  match parse_request encoded_str with
  | Raise e => (Raise e, env)
  | Ok (params, args) =>
      match set_environment args ts env with
      | (Raise e, env') => (Raise e, env')
      | (Ok _, env') => (func params args env', env')
      end
  end.

(** The record returned by the [except Exception] branch. *)
Definition error_record (e : exn) : json :=
  JDict [("Errored", JStr (format_exc W e))].

(** [exception_catcher(func)], applied to a request text at clock
    reading [ts] under the environment variables [env]. *)
Definition exception_catcher (func : endpoint) (encoded_str : string)
    (ts : Z) (env : environ) : json * environ :=
  match wrapper_try func encoded_str ts env with
  | (Ok response, env') => (response, env')
  | (Raise e, env') => (error_record e, env')
  end.

(** [generate_dataloader] *)
Definition generate_dataloader (mini_batch_data : json) (args : Namespace)
    (env : environ) : outcome (DataLoader W) :=
  _ ← logger_info W env;
  batch_size ← getattr args "batch_size";
  dataloader ← new_dataloader W mini_batch_data batch_size;
  _ ← logger_info W env;
  Ok dataloader.

(** [RunModelSelection(args.search_space, args, is_simulate=args.is_simulate)] *)
Definition new_rms (args : Namespace) : outcome (RunModelSelection W) :=
  search_space ← getattr args "search_space";
  is_simulate ← getattr args "is_simulate";
  rms_init W search_space args is_simulate.

(** [model_selection] *)
Definition model_selection_body : endpoint := fun params args env =>
  _ ← logger_info W env;
  mini_batch_data ← getitem params "mini_batch" ≫= loads;
  budget ← getitem params "budget" ≫= py_float;
  dataloader ← generate_dataloader mini_batch_data args env;
  let data_loader := [dataloader; dataloader; dataloader] in
  rms ← new_rms args;
  '(best_arch, best_arch_performance, time_usage) ←
    select_model_online_clean W rms budget data_loader false 1;
  orjson_dumps (JDict [("best_arch", best_arch);
                       ("best_arch_performance", best_arch_performance);
                       ("time_usage", time_usage)]).

(** [profiling_filtering_phase] *)
Definition profiling_filtering_phase_body : endpoint := fun params args env =>
  _ ← logger_info W env;
  mini_batch_m ← getitem params "mini_batch";
  _ ← logger_info W env;
  mini_batch_data ← loads mini_batch_m;
  dataloader ← generate_dataloader mini_batch_data args env;
  let data_loader := [dataloader; dataloader; dataloader] in
  rms ← new_rms args;
  score_time_per_model ← profile_filtering W rms data_loader;
  orjson_dumps (JDict [("time", score_time_per_model)]).

(** [profiling_refinement_phase] *)
Definition profiling_refinement_phase_body : endpoint := fun params args env =>
  _ ← logger_info W env;
  mini_batch_m ← getitem params "mini_batch";
  mini_batch_data ← loads mini_batch_m;
  dataloader ← generate_dataloader mini_batch_data args env;
  let data_loader := [dataloader; dataloader; dataloader] in
  rms ← new_rms args;
  train_time_per_epoch ← profile_refinement W rms data_loader;
  orjson_dumps (JDict [("time", train_time_per_epoch)]).

(** The first statements of [coordinator]: the four request fields as
    the call to [rms.coordination] receives them. *)
Definition coordinator_params (params : json)
  : outcome (float * float * float * bool) :=
  budget ← getitem params "budget" ≫= py_float;
  score_time_per_model ← getitem params "score_time_per_model" ≫= py_float;
  train_time_per_epoch ← getitem params "train_time_per_epoch" ≫= py_float;
  only_phase1 ←
    (s ← getitem params "only_phase1" ≫= str_lower;
     Ok (if String.eqb s "true" then true else false));
  Ok (budget, score_time_per_model, train_time_per_epoch, only_phase1).

(** [coordinator] *)
Definition coordinator_body : endpoint := fun params args env =>
  _ ← logger_info W env;
  '(budget, score_time_per_model, train_time_per_epoch, only_phase1) ←
    coordinator_params params;
  _ ← logger_info W env;
  rms ← new_rms args;
  '(K, U, N) ←
    coordination W rms budget score_time_per_model train_time_per_epoch
      only_phase1;
  orjson_dumps (JDict [("k", JInt K); ("u", JInt U); ("n", JInt N)]).

(** [filtering_phase] *)
Definition filtering_phase_body : endpoint := fun params args env =>
  _ ← logger_info W env;
  mini_batch_m ← getitem params "mini_batch";
  n ← getitem params "n" ≫= py_int;
  k ← getitem params "k" ≫= py_int;
  mini_batch_data ← loads mini_batch_m;
  dataloader ← generate_dataloader mini_batch_data args env;
  rms ← new_rms args;
  k_models ← rms_filtering_phase W rms n k dataloader;
  orjson_dumps (JDict [("k_models", k_models)]).

(** [refinement_phase] *)
Definition refinement_phase_body : endpoint := fun params args env =>
  mini_batch_m ← getitem params "mini_batch";
  orjson_dumps (JDict [("k_models", JStr "k_models")]).

(** [model_selection_workloads] *)
Definition model_selection_workloads_body : endpoint := fun params args env =>
  mini_batch_m ← getitem params "mini_batch";
  n ← getitem params "n" ≫= py_int;
  k ← getitem params "k" ≫= py_int;
  _ ← logger_info W env;
  mini_batch_data ← loads mini_batch_m;
  dataloader ← generate_dataloader mini_batch_data args env;
  rms ← new_rms args;
  k_models ← rms_filtering_phase W rms n k dataloader;
  '(best_arch, best_arch_performance) ←
    rms_refinement_phase W rms 1 k_models dataloader dataloader;
  orjson_dumps (JDict [("best_arch", best_arch);
                       ("best_arch_performance", best_arch_performance)]).

(** The decorated functions, as the module exports them. *)
Definition model_selection := exception_catcher model_selection_body.
Definition profiling_filtering_phase :=
  exception_catcher profiling_filtering_phase_body.
Definition profiling_refinement_phase :=
  exception_catcher profiling_refinement_phase_body.
Definition coordinator := exception_catcher coordinator_body.
Definition filtering_phase := exception_catcher filtering_phase_body.
Definition refinement_phase := exception_catcher refinement_phase_body.
Definition model_selection_workloads :=
  exception_catcher model_selection_workloads_body.

(** The functions a remote caller reaches. *)
Definition entry_points
  : list (string -> Z -> environ -> json * environ) :=
  [ coordinator; filtering_phase; refinement_phase; model_selection;
    profiling_filtering_phase; profiling_refinement_phase;
    model_selection_workloads ].

End Interface.

(** A response that is a record, and one that is the error record. *)
Definition is_record (v : json) : Prop := ∃ d, v = JDict d.
Definition is_error_record (v : json) : Prop :=
  ∃ msg, v = JDict [("Errored", JStr msg)].

(** The keys of a record, in order. *)
Definition keys (v : json) : list string :=
  match v with
  | JDict d => fst <$> d
  | _ => []
  end.

(** The variables the wrapper may set. *)
Definition wrapper_variables : list string :=
  ["base_dir"; "log_logger_folder_name"; "log_file_name"].

(** Integers that [orjson] writes. *)
Definition int64_range (z : Z) : Prop := (- 2 ^ 63 ≤ z < 2 ^ 64)%Z.

End PgInterface.

(** ** [exps/micro/benchmark_filtering_latency_sql.py] *)

Module FilteringLatency.

(** [ModelAcquireData(model_id, model_encoding, is_last)]; its
    serialised form [data_str] is what the evaluator receives. *)
Record ModelAcquireData : Type := {
  model_id : string;
  model_encoding : string;
  is_last : bool
}.

Section ScoringLoop.

(** The collaborators of the loop: the sampler, the search space that
    encodes a sampled architecture, and the phase-1 evaluator.  Sampler
    and evaluator are objects with state of their own. *)
Context {Sampler Evaluator Micro Score : Type}.
Context (sample_next_arch : Sampler -> option (string * Micro) * Sampler).
Context (serialize_model_encoding : Micro -> string).
Context (p1_evaluate : Evaluator -> ModelAcquireData ->
                       outcome Score * Evaluator).
(** [args.models_explore] *)
Context (models_explore : Z).

(** The variables of the loop.  [scored] is not a variable of the
    source: it records, in order, every call made to [p1_evaluate] that
    returned, with the identifier it was made for and the score it
    gave. *)
Record loop_state : Type := {
  sampler : Sampler;
  _evaluator : Evaluator;
  explored_n : Z;
  result : gmap string Score;
  scored : list (string * Score)
}.

Inductive control : Type :=
  | Continue (st : loop_state)
  | Break (st : loop_state)
  | Raised (e : exn) (st : loop_state).

(** One pass through the body of [while True]. *)
Definition loop_body (st : loop_state) : control :=
  let '(drawn, sampler') := sample_next_arch (sampler st) in
  let st1 := {| sampler := sampler'; _evaluator := _evaluator st;
                explored_n := explored_n st; result := result st;
                scored := scored st |} in
  match drawn with
  | None => Break st1
  | Some (arch_id, arch_micro) =>
      if decide (is_Some (result st !! arch_id)) then Continue st1
      else if (models_explore <? explored_n st)%Z then Break st1
      else
        let model_encoding := serialize_model_encoding arch_micro in
        let model_acquire_data :=
          {| model_id := arch_id; model_encoding := model_encoding;
             is_last := false |} in
        match p1_evaluate (_evaluator st) model_acquire_data with
        | (Raise e, ev') =>
            Raised e {| sampler := sampler'; _evaluator := ev';
                        explored_n := explored_n st; result := result st;
                        scored := scored st |}
        | (Ok model_score, ev') =>
            Continue {| sampler := sampler'; _evaluator := ev';
                        explored_n := explored_n st + 1;
                        result := <[arch_id := model_score]> (result st);
                        scored := scored st ++ [(arch_id, model_score)] |}
        end
  end.

(** The loop, for at most [fuel] passes: [None] when it is still running
    after that many, otherwise how it was left and in which state. *)
Fixpoint scoring_loop (fuel : nat) (st : loop_state)
  : option (outcome unit * loop_state) :=
  match fuel with
  | O => None
  | S fuel' =>
      match loop_body st with
      | Continue st' => scoring_loop fuel' st'
      | Break st' => Some (Ok tt, st')
      | Raised e st' => Some (Raise e, st')
      end
  end.

(** The state the loop starts in: [explored_n = 0] and the scores read
    from the output file of an earlier run. *)
Definition initial (s : Sampler) (ev : Evaluator) (saved : gmap string Score)
  : loop_state :=
  {| sampler := s; _evaluator := ev; explored_n := 0; result := saved;
     scored := [] |}.

(** What holds of the variables of the loop, relative to the scores
    [saved] it started with: no identifier was scored twice, a scored
    identifier was not among the saved ones and is cached with the score
    its evaluation gave, the saved scores are still there, and
    [explored_n] counts the evaluations, which never exceed
    [models_explore + 1]. *)
Definition loop_inv (saved : gmap string Score) (st : loop_state) : Prop :=
  NoDup (scored st).*1 ∧
  (∀ id sc, (id, sc) ∈ scored st →
            saved !! id = None ∧ result st !! id = Some sc) ∧
  (∀ id sc, saved !! id = Some sc → result st !! id = Some sc) ∧
  explored_n st = Z.of_nat (length (scored st)) ∧
  (explored_n st ≤ Z.max 0 (models_explore + 1))%Z.

(** The state a pass of the body ends in. *)
Definition next_state (c : control) : loop_state :=
  match c with
  | Continue st | Break st | Raised _ st => st
  end.

End ScoringLoop.

End FilteringLatency.

(** ** [exps/micro/benchmark_budget_aware_alg.py] *)

Module BudgetAware.

Definition total_run : nat := 3.
Definition total_models : nat := 500.

(** [list(range(1, 15624))] *)
Definition search_space_ids : list Z := range2 1 15624.

(** The loop that fills [all_models]: one call to [random.sample] per
    run index. *)
Fixpoint sample_pools (runs : nat) (k : nat) (population : list Z) (g : rng)
  : option (outcome (list (list Z)) * rng) :=
  match runs with
  | O => Some (Ok [], g)
  | S runs' =>
      match random_sample population k g with
      | None => None
      | Some (Raise e, g') => Some (Raise e, g')
      | Some (Ok _models, g') =>
          match sample_pools runs' k population g' with
          | None => None
          | Some (Raise e, g'') => Some (Raise e, g'')
          | Some (Ok rest, g'') => Some (Ok (_models :: rest), g'')
          end
      end
  end.

Abbreviation sample_all_models :=
  (sample_pools total_run total_models search_space_ids).

(** The controller object [sh] handed to [run_one_fixed_budget_alg]:
    one of the three phase-2 policies, seen through the methods the
    harness calls. *)
Record controller : Type := {
  name : string;
  pre_calculate_epoch_required : Z -> Z -> outcome Z;
  schedule_budget_per_model_based_on_T : string -> Z -> Z -> outcome Z;
  (** returns [best_arch] and [B2_actual_epoch_use] *)
  run_phase2 : Z -> list Z -> outcome (Z * Z)
}.

Section Harness.

(** Module-level names the function reads: [args.search_space],
    [args.dataset], [fgt.get_ground_truth] and [all_models]. *)
Context (search_space dataset : string).
Context (get_ground_truth : Z -> string -> outcome float).
Context (all_models : list (list Z)).

(** The statements before the loops: the smallest budget, the budget of
    full training and the step between two budgets. *)
Definition budget_grid (sh : controller) (time_per_epoch : float)
  : outcome (Z * Z * Z) :=
  min_epoch_for_fixed_k ←
    pre_calculate_epoch_required sh (Z.of_nat total_models) 1;
  min_time_for_fixed_k ←
    (e ← float_of_int min_epoch_for_fixed_k;
     math_ceil (float_mul time_per_epoch e));
  fully_train_each_model ←
    (if String.eqb (name sh) "SUCCREJCT" then
       q ← int_truediv 244336900 500;
       m ← float_of_int (Z.of_nat total_models);
       int_of_float (float_mul q m)
     else
       c ← float_of_int (Z.of_nat total_models * 200);
       math_floor (float_mul c time_per_epoch));
  step ←
    (q ← int_truediv (fully_train_each_model - min_time_for_fixed_k) 30;
     int_of_float q);
  Ok (min_time_for_fixed_k, fully_train_each_model, step).

(** The body of the inner loop for one budget: the accuracy reached and
    the time used. *)
Definition one_budget (sh : controller) (run_id : nat)
    (time_budget_used : Z) : outcome (float * float) :=
  U ← schedule_budget_per_model_based_on_T sh search_space time_budget_used
        (Z.of_nat total_models);
  pool ← match all_models !! run_id with
         | Some pool => Ok pool
         | None => Raise IndexError
         end;
  '(best_arch, B2_actual_epoch_use) ← run_phase2 sh U pool;
  acc_sh_v ← get_ground_truth best_arch dataset;
  t ← int_truediv B2_actual_epoch_use 60;
  Ok (acc_sh_v, t).

(** The inner loop: one pass over the budgets of the grid. *)
Definition one_run (sh : controller) (grid : Z * Z * Z) (run_id : nat)
  : outcome (list (float * float)) :=
  let '(min_time_for_fixed_k, fully_train_each_model, step) := grid in
  budgets ← range3 min_time_for_fixed_k fully_train_each_model step;
  map_result (one_budget sh run_id) budgets.

(** [run_one_fixed_budget_alg]: [(acc_reached, time_used)] *)
Definition run_one_fixed_budget_alg (sh : controller) (time_per_epoch : float)
  : outcome (list (list float) * list (list float)) :=
  grid ← budget_grid sh time_per_epoch;
  runs ← map_result (one_run sh grid) (range total_run);
  Ok (map (map fst) runs, map (map snd) runs).

End Harness.

End BudgetAware.

(** ** Concrete inputs used by the examples below *)

Module Samples.

Import MlpSpace.

Definition cfg3 : MlpMacroCfg :=
  {| layer_choices := [8; 16; 32]%Z; num_layers := 3 |}.
(** A store holding the single list [[8, 16, 32]], and the configuration
    that refers to it. *)
Definition store0 : store := [[8; 16; 32]%Z].
Definition arch0 : MlpMicroCfg := {| hidden_layer_list := 0 |}.

Import PgInterface.

(** A configuration file with every option of [config_fields] set; the
    three that the wrapper reads depend on [tag]. *)
Definition option_text (tag name : string) : string :=
  if String.eqb name "base_dir" then "/data/" +:+ tag
  else if String.eqb name "log_folder" then "logs_" +:+ tag
  else if String.eqb name "log_name" then "run_" +:+ tag
  else "1".

Definition config_ini (tag : string) : ini :=
  foldr (λ '(name, section, _) acc,
           <[section := <[name := option_text tag name]>
                          (default ∅ (acc !! section))]> acc)
        ∅ config_fields.

(** JSON texts.  [dq] is the double quote. *)
Definition dq : string := String (ascii_of_nat 34) EmptyString.
Definition quoted (s : string) : string := dq +:+ s +:+ dq.
Definition member (k v : string) : string := quoted k +:+ ": " +:+ v.

Definition coordinate_request : string :=
  "{" +:+ member "budget" "10" +:+ ", "
      +:+ member "score_time_per_model" "1" +:+ ", "
      +:+ member "train_time_per_epoch" "5" +:+ ", "
      +:+ member "only_phase1" (quoted "True") +:+ ", "
      +:+ member "config_file" (quoted "a.ini") +:+ "}".

Definition refine_request (file : string) : string :=
  "{" +:+ member "u" "1" +:+ ", "
      +:+ member "k_models" ("[" +:+ quoted "8-16" +:+ "]") +:+ ", "
      +:+ member "config_file" (quoted file) +:+ "}".

Definition refine_request_with_batch : string :=
  "{" +:+ member "u" "1" +:+ ", "
      +:+ member "k_models" ("[" +:+ quoted "8-16" +:+ "]") +:+ ", "
      +:+ member "mini_batch" (quoted "[]") +:+ ", "
      +:+ member "config_file" (quoted "a.ini") +:+ "}".

(** A world in which the texts above decode as written, the files
    [a.ini] and [b.ini] exist, and the selection engine answers with
    fixed plans. *)
Definition world0 : World := {|
  json_loads s :=
    if String.eqb s coordinate_request then
      Ok (JDict [("budget", JInt 10); ("score_time_per_model", JInt 1);
                 ("train_time_per_epoch", JInt 5);
                 ("only_phase1", JStr "True");
                 ("config_file", JStr "a.ini")])
    else if String.eqb s (refine_request "a.ini") then
      Ok (JDict [("u", JInt 1); ("k_models", JList [JStr "8-16"]);
                 ("config_file", JStr "a.ini")])
    else if String.eqb s (refine_request "b.ini") then
      Ok (JDict [("u", JInt 1); ("k_models", JList [JStr "8-16"]);
                 ("config_file", JStr "b.ini")])
    else if String.eqb s (refine_request "missing.ini") then
      Ok (JDict [("u", JInt 1); ("k_models", JList [JStr "8-16"]);
                 ("config_file", JStr "missing.ini")])
    else if String.eqb s refine_request_with_batch then
      Ok (JDict [("u", JInt 1); ("k_models", JList [JStr "8-16"]);
                 ("mini_batch", JStr "[]");
                 ("config_file", JStr "a.ini")])
    else if String.eqb s "[]" then Ok (JList [])
    else Raise JSONDecodeError;
  parser_read v :=
    match v with
    | JStr f =>
        if String.eqb f "a.ini" then Ok (config_ini "a")
        else if String.eqb f "b.ini" then Ok (config_ini "b")
        else Ok ∅
    | _ => Raise TypeError
    end;
  float_of_str s := int_of_str s ≫= float_of_int;
  format_exc e :=
    match e with
    | KeyError k => "KeyError: " +:+ k
    | JSONDecodeError => "JSONDecodeError"
    | NoOptionError => "NoOptionError"
    | _ => "Traceback (most recent call last)"
    end;
  logger_info _ := Ok tt;
  DataLoader := unit;
  new_dataloader _ _ := Ok tt;
  RunModelSelection := unit;
  rms_init _ _ _ := Ok tt;
  select_model_online_clean _ _ _ _ _ :=
    Ok (JStr "8-16", JInt 1, JInt 1);
  profile_filtering _ _ := Ok (JInt 1);
  profile_refinement _ _ := Ok (JInt 1);
  coordination _ _ _ _ only_phase1 :=
    Ok (if only_phase1 then (1, 1, 10) else (2, 4, 20))%Z;
  rms_filtering_phase _ _ _ _ := Ok (JList [JStr "8-16"]);
  rms_refinement_phase _ _ _ _ _ := Ok (JStr "8-16", JInt 1)
|}.

(** The request [coordinate_request] as the wrapper decodes it in
    [world0], and the environment it leaves at clock reading 7 when
    none was set. *)
Definition coordinate_params : json :=
  JDict [("budget", JInt 10); ("score_time_per_model", JInt 1);
         ("train_time_per_epoch", JInt 5); ("only_phase1", JStr "True");
         ("config_file", JStr "a.ini")].
Definition args_a : Namespace :=
  match parse_config_arguments world0 (JStr "a.ini") with
  | Ok args => args
  | Raise _ => ∅
  end.
Definition env_a : environ := (set_environment args_a 7 ∅).2.

(** A sampler that hands out a given sequence of candidates and then
    reports exhaustion, and an evaluator that counts its calls and
    scores every candidate 1. *)
Definition list_sampler (l : list (string * unit))
  : option (string * unit) * list (string * unit) :=
  match l with
  | [] => (None, [])
  | x :: l' => (Some x, l')
  end.
Definition counting_evaluator (calls : nat)
    (d : FilteringLatency.ModelAcquireData) : outcome Z * nat :=
  (Ok 1%Z, S calls).
Definition scoring_sample (models_explore : Z) (fuel : nat)
    (candidates : list (string * unit)) (saved : gmap string Z) :=
  FilteringLatency.scoring_loop list_sampler (λ _, "8") counting_evaluator
    models_explore fuel
    (FilteringLatency.initial candidates 0 saved).

(** A controller that needs 100 epochs for the smallest budget, a time
    of one second per epoch, and a generator whose draws are all 0. *)
Definition controller0 : BudgetAware.controller := {|
  BudgetAware.name := "SH";
  BudgetAware.pre_calculate_epoch_required _ _ := Ok 100%Z;
  BudgetAware.schedule_budget_per_model_based_on_T _ _ _ := Ok 1%Z;
  BudgetAware.run_phase2 _ pool := Ok (hd 0%Z pool, 60%Z)
|}.
Definition one_second : float := S754_finite false 4503599627370496 (-52).
Definition draws0 : rng := repeat 0 1500.
Definition pools_of (r : option (outcome (list (list Z)) * rng))
  : list (list Z) :=
  match r with
  | Some (Ok pools, _) => pools
  | _ => []
  end.
Definition pools0 : list (list Z) :=
  pools_of (BudgetAware.sample_all_models draws0).
Definition draws_left (r : option (outcome (list (list Z)) * rng)) : rng :=
  match r with
  | Some (_, g) => g
  | None => []
  end.
Definition draws0_left : rng :=
  draws_left (BudgetAware.sample_all_models draws0).

End Samples.

(** ** [search_space/mlp_api/space.py], further methods *)

Module MlpSpaceMore.

Import Py MlpSpace.

(** [MlpMicroCfg(hidden_layer_list)], for a list object of the store. *)
Definition MlpMicroCfg_of (hidden_layer_list : ref) : MlpMicroCfg :=
  {| hidden_layer_list := hidden_layer_list |}.

(** The text [MlpMicroCfg.__str__] gives for a list of sizes. *)
Definition encode_layers (l : list Z) : string :=
  join "-" (str_of_int <$> l).

(** The list a pair of [mutate_architecture_move_proposal] is named
    after: the final list up to position [k], the parent's list after
    it. *)
Definition proposal_at (k : nat) (final parent_list : list Z) : list Z :=
  take (S k) final ++ drop (S k) parent_list.

(** The assignments [arch_encod.append(random.choice(layer_choices))]
    of [random_architecture_id], [n] times. *)
Fixpoint draw_layers (n : nat) (choices : list Z) (g : rng)
  : option (outcome (list Z) * rng) :=
  match n with
  | O => Some (Ok [], g)
  | S n' =>
      match random_choice choices g with
      | None => None
      | Some (Raise e, g') => Some (Raise e, g')
      | Some (Ok layer_size, g') =>
          match draw_layers n' choices g' with
          | None => None
          | Some (Raise e, g'') => Some (Raise e, g'')
          | Some (Ok rest, g'') => Some (Ok (layer_size :: rest), g'')
          end
      end
  end.

(** [MlpSpace.random_architecture_id] *)
Definition random_architecture_id (cfg : MlpMacroCfg) (h : store) (g : rng)
  : run (string * MlpMicroCfg) :=
  match draw_layers (num_layers cfg) (layer_choices cfg) g with
  | None => None
  | Some (Raise e, g') => Some (Raise e, h, g')
  | Some (Ok arch_encod, g') =>
      let '(r, h') := alloc arch_encod h in
      let model_micro := {| hidden_layer_list := r |} in
      match cfg_str h' model_micro with
      | None => None
      | Some model_encoding => Some (Ok (model_encoding, model_micro), h', g')
      end
  end.

(** [MlpSpace.__len__] *)
Definition space_len (cfg : MlpMacroCfg) : nat :=
  length (layer_choices cfg) ^ num_layers cfg.

(** [itertools.product] of the pools: the tuples in lexicographic
    order, the last position changing fastest. *)
Fixpoint product {A} (pools : list (list A)) : list (list A) :=
  match pools with
  | [] => [[]]
  | pool :: pools' =>
      x ← pool; (λ t, x :: t) <$> product pools'
  end.

(** The generator [MlpSpace.sample_all_models], between two [yield]s:
    the combinations it has not produced yet. *)
Definition all_models_start (cfg : MlpMacroCfg) : list (list Z) :=
  product (replicate (num_layers cfg) (layer_choices cfg)).

(** One [next()] on the generator.  When the combinations are used up
    [combinations.__next__()] raises [StopIteration] inside the
    generator, which the interpreter turns into a [RuntimeError].
    Otherwise [list(ele)] is a new list, and [str(model_micro)] its
    encoding. *)
Definition all_models_next (combinations : list (list Z)) (h : store)
  : outcome ((string * MlpMicroCfg) * list (list Z) * store) :=
  match combinations with
  | [] => Raise (Other "RuntimeError: generator raised StopIteration")
  | ele :: rest =>
      let '(r, h') := alloc ele h in
      Ok ((encode_layers ele, {| hidden_layer_list := r |}), rest, h')
  end.

(** [n] calls of [next()], as a [for] loop over the generator makes
    them: the models produced, in order. *)
Fixpoint all_models_take (n : nat) (combinations : list (list Z)) (h : store)
  : outcome (list (string * MlpMicroCfg) * list (list Z) * store) :=
  match n with
  | O => Ok ([], combinations, h)
  | S n' =>
      '(item, rest, h1) ← all_models_next combinations h;
      '(items, rest', h2) ← all_models_take n' rest h1;
      Ok (item :: items, rest', h2)
  end.

(** *** [class MLP]

    The modules that [MLP.__init__] puts into [nn.Sequential], by kind
    and dimensions. *)
Inductive layer : Type :=
  | Linear (in_features out_features : Z)
  | BatchNorm1d (num_features : Z)
  | ReLU
  | Dropout (p : float).

(** The [for] loop over [hidden_layer_list]; [ninput] is reassigned in
    every pass. *)
Fixpoint hidden_layers (ninput : Z) (hidden_layer_list : list Z)
    (dropout_rate : float) (use_bn : bool) : list layer :=
  match hidden_layer_list with
  | [] => []
  | layer_size :: rest =>
      [Linear ninput layer_size]
      ++ (if use_bn then [BatchNorm1d layer_size] else [])
      ++ [ReLU; Dropout dropout_rate]
      ++ hidden_layers layer_size rest dropout_rate use_bn
  end.

(** [MLP.__init__]: the list [layers]. *)
Definition mlp_layers (ninput : Z) (hidden_layer_list : list Z)
    (dropout_rate : float) (noutput : Z) (use_bn : bool) : list layer :=
  let last_hidden_layer_num :=
    match last hidden_layer_list with
    | None => ninput
    | Some n => n
    end in
  hidden_layers ninput hidden_layer_list dropout_rate use_bn
  ++ [Linear last_hidden_layer_num noutput].

(** *** [DNNModel.forward_w_mask]

    The loop runs over [enumerate(self.mlp.mlp[:-1])]. *)
Fixpoint enumerate_from {A} (start : nat) (l : list A) : list (nat * A) :=
  match l with
  | [] => []
  | x :: l' => (start, x) :: enumerate_from (S start) l'
  end.

(** The index of the mask taken for the layer at position [idx]:
    [self.subnet_mask[idx // 4]]. *)
Definition mask_index (idx : nat) : nat := idx `div` 4.

(** The table of the products [layer.weight * self.subnet_mask[idx //
    4].unsqueeze(1)] that the loop of [forward_w_mask] asks for: for
    the layers for which [isinstance(layer, nn.Linear)] holds, in
    order, the number of rows of the weight matrix ([out_features]) and
    the index of the mask.  The table says which mask goes with which
    layer; whether the pass gets through them is [forward_w_mask]
    below. *)
Definition masked_layer (item : nat * layer) : option (Z * nat) :=
  match item with
  | (idx, Linear _ out_features) => Some (out_features, mask_index idx)
  | _ => None
  end.

Definition forward_w_mask_masks (layers : list layer) : list (Z * nat) :=
  omap masked_layer (enumerate_from 0 (removelast layers)).

(** The pass itself, on the shapes of the tensors.  [x_emb] has
    [batch] rows and [features] columns; a mask is a vector.

    [layer.weight * mask.unsqueeze(1)] is a product of an
    [out_features] x [in_features] matrix and a [length mask] x 1
    matrix: the numbers of rows have to be equal unless one of them is
    1, and the product has the larger number of rows. *)
Definition size_mismatch : exn :=
  Other "RuntimeError: The size of tensor a must match the size of tensor b".

Definition shape_mismatch : exn :=
  Other "RuntimeError: mat1 and mat2 shapes cannot be multiplied".

Definition channel_mismatch : exn :=
  Other "RuntimeError: running_mean should contain one element per feature".

Definition masked_rows (out_features : Z) (mask : list bool) : outcome Z :=
  let m := Z.of_nat (length mask) in
  if decide (out_features = m) then Ok out_features
  else if decide (out_features = 1%Z) then Ok m
  else if decide (m = 1%Z) then Ok out_features
  else Raise size_mismatch.

(** [torch.nn.functional.linear(x_emb, weight, bias)] for a weight of
    [rows] rows and [in_features] columns: the columns of [x_emb] have
    to be as many as those of the weight.  The bias has [out_features]
    entries, which is [rows] or 1 after [masked_rows], so that adding
    it never fails. *)
Definition linear (features in_features rows : Z) : outcome Z :=
  if decide (features = in_features) then Ok rows
  else Raise shape_mismatch.

(** [layer(x_emb)] for a module of the network: the number of columns
    of the result.  In training mode batch normalisation refuses a
    batch of one row, and then, in every mode, an input whose columns
    are not as many as its channels. *)
Definition call_layer (training : bool) (batch : nat) (features : Z)
    (l : layer) : outcome Z :=
  match l with
  | Linear in_features out_features => linear features in_features out_features
  | BatchNorm1d num_features =>
      if training && Nat.eqb batch 1 then Raise ValueError
      else if decide (features = num_features) then Ok features
      else Raise channel_mismatch
  | ReLU => Ok features
  | Dropout _ => Ok features
  end.

(** The loop over [enumerate(self.mlp.mlp[:-1])]: the products made, as
    in [forward_w_mask_masks], and the number of columns of [x_emb]
    after the last layer. *)
Fixpoint forward_w_mask_loop (training : bool) (batch : nat)
    (subnet_mask : list (list bool)) (items : list (nat * layer))
    (features : Z) : outcome (list (Z * nat) * Z) :=
  match items with
  | [] => Ok ([], features)
  | (idx, Linear in_features out_features) :: rest =>
      mask ← match subnet_mask !! mask_index idx with
             | Some mask => Ok mask
             | None => Raise IndexError
             end;
      rows ← masked_rows out_features mask;
      features' ← linear features in_features rows;
      '(products, y) ←
        forward_w_mask_loop training batch subnet_mask rest features';
      Ok ((out_features, mask_index idx) :: products, y)
  | (idx, l) :: rest =>
      features' ← call_layer training batch features l;
      forward_w_mask_loop training batch subnet_mask rest features'
  end.

(** [DNNModel.forward_w_mask], from the embedded input
    [x_emb.view(-1, self.mlp_ninput)] of [batch] rows on: the products
    made and the shape of the result, [y.squeeze(1)]. *)
Definition forward_w_mask (training : bool) (batch : nat)
    (subnet_mask : list (list bool)) (mlp_ninput : Z) (layers : list layer)
  : outcome (list (Z * nat) * list Z) :=
  '(products, features) ←
    forward_w_mask_loop training batch subnet_mask
      (enumerate_from 0 (removelast layers)) mlp_ninput;
  output_layer ← match last layers with
                 | Some l => Ok l
                 | None => Raise IndexError
                 end;
  y ← call_layer training batch features output_layer;
  Ok (products,
      if decide (y = 1%Z) then [Z.of_nat batch] else [Z.of_nat batch; y]).

(** *** [DNNModel.sample_subnet]

    The fields of the model that the method reads and writes.  A mask
    holds 1 ([true]) for an active neuron and 0 for a masked one. *)
Record subnet_state : Type := {
  model_hidden_layer_list : list Z;
  is_masked_subnet : bool;
  subnet_mask : list (list bool)
}.

(** [torch.randperm(n)]: the positions below [n] in a drawn order. *)
Definition randperm (n : nat) (g : rng) : option (list nat * rng) :=
  sample_from n (seq 0 n) g.

(** [torch.ones(n)] and [torch.zeros(n)]: a negative length is an error
    of the library. *)
Definition torch_full (value : bool) (n : Z) : outcome (list bool) :=
  if decide (n < 0)%Z then
    Raise (Other "RuntimeError: negative dimension")
  else Ok (replicate (Z.to_nat n) value).

(** The masks that [DNNModel.__init__] makes:
    [[torch.ones(size) for size in hidden_layer_list]]. *)
Definition initial_masks (hidden_layer_list : list Z)
  : outcome (list (list bool)) :=
  map_result (torch_full true) hidden_layer_list.

(** [mask[perm]] *)
Definition index_select (mask : list bool) (perm : list nat) : list bool :=
  (λ j, default false (mask !! j)) <$> perm.

Definition with_mask (st : subnet_state) (idx : nat) (mask : list bool)
  : subnet_state :=
  {| model_hidden_layer_list := model_hidden_layer_list st;
     is_masked_subnet := is_masked_subnet st;
     subnet_mask := <[idx := mask]> (subnet_mask st) |}.

(** The [for] loop of [sample_subnet] from position [idx] on.  The
    arguments of [torch.cat] are evaluated from left to right; the
    assignment to [self.subnet_mask[idx]] needs the position to
    exist.  The device is taken to be a valid one. *)
Fixpoint sample_subnet_loop (idx : nat) (sizes : list Z) (st : subnet_state)
    (g : rng) : option (outcome unit * subnet_state * rng) :=
  match sizes with
  | [] => Some (Ok tt, st, g)
  | size :: rest =>
      match torch_full true size with
      | Raise e => Some (Raise e, st, g)
      | Ok ones =>
          match model_hidden_layer_list st !! idx with
          | None => Some (Raise IndexError, st, g)
          | Some width =>
              match torch_full false (width - size) with
              | Raise e => Some (Raise e, st, g)
              | Ok zeros =>
                  let mask := ones ++ zeros in
                  match randperm (length mask) g with
                  | None => None
                  | Some (perm, g') =>
                      let mask := index_select mask perm in
                      if decide (idx < length (subnet_mask st)) then
                        sample_subnet_loop (S idx) rest
                          (with_mask st idx mask) g'
                      else Some (Raise IndexError, st, g')
                  end
              end
          end
      end
  end.

(** [DNNModel.sample_subnet(arch_id, device)] *)
Definition sample_subnet (arch_id : string) (st : subnet_state) (g : rng)
  : option (outcome unit * subnet_state * rng) :=
  match decode_layers arch_id with
  | Raise e => Some (Raise e, st, g)
  | Ok sizes =>
      sample_subnet_loop 0 sizes
        {| model_hidden_layer_list := model_hidden_layer_list st;
           is_masked_subnet := true;
           subnet_mask := subnet_mask st |}
        g
  end.

(** A mask of the given width with [size] ones. *)
Definition mask_of (size width : Z) (mask : list bool) : Prop :=
  mask ≡ₚ replicate (Z.to_nat size) true
          ++ replicate (Z.to_nat (width - size)) false.

End MlpSpaceMore.

(** ** [pg_interface.py], further functions *)

Module PgInterfaceMore.

Import Py PgInterface.

(** The attributes that [parse_config_arguments] assigns. *)
Definition config_names : list string := config_fields.*1.*1.

(** The value an option text gives for a getter of kind [k]. *)
Definition option_value (W : World) (k : option_kind) (raw : string)
    (v : json) : Prop :=
  match k with
  | KStr => v = JStr raw
  | KInt => ∃ z, int_of_str raw = Ok z ∧ v = JInt z
  | KFloat => ∃ f, float_of_str W raw = Ok f ∧ v = JFloat f
  | KBool => ∃ b, boolean_state raw = Ok b ∧ v = JBool b
  end.

(** What the endpoints below use besides the [World] of the module:
    [json.dumps], [requests.post(url, json=data)] and [.json()] of its
    response, [rms.coordination] called with the times as the profiling
    methods returned them, and the difference of two clock readings. *)
Record Services (W : World) : Type := {
  json_dumps : json -> string;
  Response : Type;
  requests_post : json -> json -> outcome Response;
  response_json : Response -> outcome json;
  coordination_profiled :
    RunModelSelection W -> float -> json -> json -> bool ->
    outcome (Z * Z * Z);
  real_time_usage : float
}.

Arguments json_dumps {W}.
Arguments Response {W}.
Arguments requests_post {W}.
Arguments response_json {W}.
Arguments coordination_profiled {W}.
Arguments real_time_usage {W}.

Section Endpoints.

Context (W : World) (svc : Services W).

(** [test_io] *)
Definition test_io_body : endpoint := fun params args env =>
  orjson_dumps (JDict [("inputs are", JStr (json_dumps svc params))]).

(** A [str] is held as its UTF-8 bytes; a character starts at every
    byte that is not a continuation byte. *)
Definition is_continuation (c : ascii) : bool :=
  let n := nat_of_ascii c in (128 <=? n)%nat && (n <? 192)%nat.

Fixpoint continuation_bytes (s : string) : string :=
  match s with
  | EmptyString => EmptyString
  | String c s' =>
      if is_continuation c then String c (continuation_bytes s')
      else EmptyString
  end.

Fixpoint code_points (s : string) : nat :=
  match s with
  | EmptyString => O
  | String c s' =>
      if is_continuation c then code_points s' else S (code_points s')
  end.

(** [v[0]] *)
Definition first_item (v : json) : outcome json :=
  match v with
  | JList [] => Raise IndexError
  | JList (x :: _) => Ok x
  | JStr EmptyString => Raise IndexError
  | JStr (String c s) => Ok (JStr (String c (continuation_bytes s)))
  | JDict _ => Raise (KeyError "0")
  | _ => Raise TypeError
  end.

(** [list(v.keys())] *)
Definition dict_keys (v : json) : outcome json :=
  match v with
  | JDict d => Ok (JList (JStr <$> d.*1))
  | _ => Raise AttributeError
  end.

(** [len(v)] *)
Definition py_len (v : json) : outcome Z :=
  match v with
  | JList l => Ok (Z.of_nat (length l))
  | JDict d => Ok (Z.of_nat (length d))
  | JStr s => Ok (Z.of_nat (code_points s))
  | _ => Raise TypeError
  end.

(** One of the two [requests.post(args.cache_svc_url, json={...})]. *)
Definition launch_cache_service (mini_batch_data columns : json)
    (args : Namespace) (name_space : string) : outcome unit :=
  cache_svc_url ← getattr args "cache_svc_url";
  batch_size ← py_len mini_batch_data;
  _ ← requests_post svc cache_svc_url
        (JDict [("columns", columns); ("name_space", JStr name_space);
                ("table_name", JStr "dummy");
                ("batch_size", JInt batch_size)]);
  Ok tt.

(** The refinement step shared by the two endpoints: the request to
    [args.refinement_url] and the two fields of its answer. *)
Definition remote_refinement (k_models : json) (args : Namespace)
  : outcome (json * json) :=
  config_file ← getattr args "config_file";
  let data := JDict [("u", JInt 1); ("k_models", k_models);
                     ("table_name", JStr "dummy");
                     ("config_file", config_file)] in
  refinement_url ← getattr args "refinement_url";
  response ← requests_post svc refinement_url data ≫= response_json svc;
  best_arch ← getitem response "best_arch";
  best_arch_performance ← getitem response "best_arch_performance";
  Ok (best_arch, best_arch_performance).

(** [model_selection_trails] *)
Definition model_selection_trails_body : endpoint := fun params args env =>
  _ ← logger_info W env;
  mini_batch_data ← getitem params "mini_batch" ≫= loads W;
  budget ← getitem params "budget" ≫= py_float W;
  columns ← first_item mini_batch_data ≫= dict_keys;
  _ ← launch_cache_service mini_batch_data columns args "train";
  _ ← launch_cache_service mini_batch_data columns args "valid";
  dataloader ← generate_dataloader W mini_batch_data args env;
  let data_loader := [dataloader; dataloader; dataloader] in
  rms ← new_rms W args;
  score_time_per_model ← profile_filtering W rms data_loader;
  train_time_per_epoch ← profile_refinement W rms data_loader;
  '(K, U, N) ←
    coordination_profiled svc rms budget score_time_per_model
      train_time_per_epoch false;
  k_models ← rms_filtering_phase W rms N K dataloader;
  '(best_arch, best_arch_performance) ← remote_refinement k_models args;
  orjson_dumps (JDict [("best_arch", best_arch);
                       ("best_arch_performance", best_arch_performance);
                       ("time_usage", JFloat (real_time_usage svc))]).

(** [model_selection_trails_workloads] *)
Definition model_selection_trails_workloads_body : endpoint :=
  fun params args env =>
  mini_batch_data ← getitem params "mini_batch" ≫= loads W;
  n ← getitem params "n" ≫= py_int;
  k ← getitem params "k" ≫= py_int;
  columns ← first_item mini_batch_data ≫= dict_keys;
  _ ← launch_cache_service mini_batch_data columns args "train";
  _ ← launch_cache_service mini_batch_data columns args "valid";
  _ ← logger_info W env;
  dataloader ← generate_dataloader W mini_batch_data args env;
  rms ← new_rms W args;
  k_models ← rms_filtering_phase W rms n k dataloader;
  '(best_arch, best_arch_performance) ← remote_refinement k_models args;
  orjson_dumps (JDict [("best_arch", best_arch);
                       ("best_arch_performance", best_arch_performance);
                       ("time_usage", JFloat (real_time_usage svc))]).

Definition test_io := exception_catcher W test_io_body.
Definition model_selection_trails :=
  exception_catcher W model_selection_trails_body.
Definition model_selection_trails_workloads :=
  exception_catcher W model_selection_trails_workloads_body.

End Endpoints.

(** The keys of the record each endpoint answers with when it does not
    answer with the error record. *)
Definition response_keys (W : World)
  : list ((string -> Z -> environ -> json * environ) * list string) :=
  [ (coordinator W, ["k"; "u"; "n"]);
    (filtering_phase W, ["k_models"]);
    (refinement_phase W, ["k_models"]);
    (model_selection W,
     ["best_arch"; "best_arch_performance"; "time_usage"]);
    (profiling_filtering_phase W, ["time"]);
    (profiling_refinement_phase W, ["time"]);
    (model_selection_workloads W, ["best_arch"; "best_arch_performance"]) ].

End PgInterfaceMore.

(** ** [exps/micro/benchmark_filtering_latency_sql.py], after the loop *)

Module FilteringLatencyMore.

Import Py.

(** A number: [int] or [float]. *)
Inductive num : Type :=
  | NInt (z : Z)
  | NFloat (f : float).

(** The values of [_evaluator.time_usage]: the lists of measured times,
    which are floats, and the totals the script adds. *)
Inductive usage : Type :=
  | Track (l : list float)
  | Total (v : num).

Abbreviation time_usage := (gmap string usage).

(** [x + y] on floats *)
Definition float_add (x y : float) : float := SFadd prec emax x y.

(** [a + b] *)
Definition num_add (a b : num) : outcome num :=
  match a, b with
  | NInt x, NInt y => Ok (NInt (x + y))
  | NInt x, NFloat g => f ← float_of_int x; Ok (NFloat (float_add f g))
  | NFloat f, NInt y => g ← float_of_int y; Ok (NFloat (float_add f g))
  | NFloat f, NFloat g => Ok (NFloat (float_add f g))
  end.

(** A sum of measured times is the [int] 0 or a float. *)
Definition zero_or_float (v : num) : Prop :=
  v = NInt 0 ∨ ∃ f, v = NFloat f.

(** [a / n] for an [int] [n] *)
Definition num_truediv (a : num) (n : Z) : outcome num :=
  match a with
  | NInt x => NFloat <$> int_truediv x n
  | NFloat f => g ← float_of_int n; NFloat <$> float_truediv f g
  end.

(** [time_usage[key]] used as a list, and as a number. *)
Definition track (tu : time_usage) (key : string) : outcome (list float) :=
  match tu !! key with
  | None => Raise (KeyError key)
  | Some (Track l) => Ok l
  | Some (Total _) => Raise TypeError
  end.

Definition total (tu : time_usage) (key : string) : outcome num :=
  match tu !! key with
  | None => Raise (KeyError key)
  | Some (Total v) => Ok v
  | Some (Track _) => Raise TypeError
  end.

(** What [write_json] is given: the scores, or the times. *)
Inductive document (Score : Type) : Type :=
  | Scores (result : gmap string Score)
  | Times (tu : time_usage).

Arguments Scores {Score}.
Arguments Times {Score}.

Section Summary.

(** [sum] of a non-empty list of floats.  How the built-in rounds the
    additions depends on the version of the interpreter; the sum of
    the empty list is the [int] 0. *)
Context (float_sum : list float -> float).

Definition py_sum (l : list float) : num :=
  match l with
  | [] => NInt 0
  | _ => NFloat (float_sum l)
  end.

(** The four assignments to [_evaluator.time_usage]. *)
Definition latency_summary (tu : time_usage) : outcome time_usage :=
  s1 ← py_sum ∘ drop 2 <$> track tu "track_io_model_load";
  s2 ← py_sum <$> track tu "track_io_model_release_each_50";
  a ← num_add s1 s2;
  s3 ← py_sum ∘ drop 2 <$> track tu "track_io_model_init";
  a ← num_add a s3;
  s4 ← py_sum ∘ drop 2 <$> track tu "track_io_res_load";
  a ← num_add a s4;
  s5 ← py_sum ∘ drop 2 <$> track tu "track_io_data_retrievel";
  a ← num_add a s5;
  s6 ← py_sum ∘ drop 2 <$> track tu "track_io_data_preprocess";
  io_latency ← num_add a s6;
  let tu := <["io_latency" := Total io_latency]> tu in
  compute_latency ← py_sum ∘ drop 2 <$> track tu "track_compute";
  let tu := <["compute_latency" := Total compute_latency]> tu in
  x ← total tu "io_latency";
  y ← total tu "compute_latency";
  latency ← num_add x y;
  let tu := <["latency" := Total latency]> tu in
  x ← total tu "compute_latency";
  measured ← track tu "track_compute";
  avg_compute_latency ←
    num_truediv x (Z.of_nat (length (drop 2 measured)));
  Ok (<["avg_compute_latency" := Total avg_compute_latency]> tu).

Context {Score : Type}.

(** The files written so far, by path. *)
Definition files : Type := list (string * document Score).

(** [_evaluator.if_cuda_avaiable()], [torch.cuda.synchronize()] and
    [write_json] of [src.tools.io_tools]. *)
Context (if_cuda_avaiable : bool) (cuda_synchronize : outcome unit).
Context (write_json : string -> document Score -> files ->
                      outcome unit * files).

(** The statements after the loop, up to the second [write_json]. *)
Definition write_results (output_file time_output_file : string)
    (result : gmap string Score) (tu : time_usage) (fs : files)
  : outcome unit * files :=
  match (if if_cuda_avaiable then cuda_synchronize else Ok tt) with
  | Raise e => (Raise e, fs)
  | Ok _ =>
      match latency_summary tu with
      | Raise e => (Raise e, fs)
      | Ok tu' =>
          match write_json output_file (Scores result) fs with
          | (Raise e, fs') => (Raise e, fs')
          | (Ok _, fs') => write_json time_output_file (Times tu') fs'
          end
      end
  end.

End Summary.

End FilteringLatencyMore.

(** ** Further concrete inputs *)

Module SamplesMore.

Import Py PgInterface PgInterfaceMore Samples.

(** Services that answer every request with [null]. *)
Definition services0 : Services world0 := {|
  json_dumps _ := "{}";
  Response := json;
  requests_post _ _ := Ok JNull;
  response_json r := Ok r;
  coordination_profiled _ _ _ _ _ := Ok (1, 1, 10)%Z;
  real_time_usage := one_second
|}.

(** A request to [coordinator] whose [only_phase1] is the JSON value
    [true], and a world in which it decodes as written. *)
Definition flag_request : string :=
  "{" +:+ member "budget" "10" +:+ ", "
      +:+ member "score_time_per_model" "1" +:+ ", "
      +:+ member "train_time_per_epoch" "5" +:+ ", "
      +:+ member "only_phase1" "true" +:+ ", "
      +:+ member "config_file" (quoted "a.ini") +:+ "}".

Definition flag_params : json :=
  JDict [("budget", JInt 10); ("score_time_per_model", JInt 1);
         ("train_time_per_epoch", JInt 5); ("only_phase1", JBool true);
         ("config_file", JStr "a.ini")].

Definition world1 : World := {|
  json_loads s :=
    if String.eqb s flag_request then Ok flag_params
    else json_loads world0 s;
  parser_read := parser_read world0;
  float_of_str := float_of_str world0;
  format_exc := format_exc world0;
  logger_info := logger_info world0;
  DataLoader := DataLoader world0;
  new_dataloader := new_dataloader world0;
  RunModelSelection := RunModelSelection world0;
  rms_init := rms_init world0;
  select_model_online_clean := select_model_online_clean world0;
  profile_filtering := profile_filtering world0;
  profile_refinement := profile_refinement world0;
  coordination := coordination world0;
  rms_filtering_phase := rms_filtering_phase world0;
  rms_refinement_phase := rms_refinement_phase world0
|}.

Definition namespace_of (r : outcome Namespace) : Namespace :=
  match r with
  | Ok args => args
  | Raise _ => ∅
  end.

Definition args_1 : Namespace :=
  namespace_of (parse_config_arguments world1 (JStr "a.ini")).

(** The parameters that the request [refine_request "missing.ini"]
    decodes to. *)
Definition missing_params : json :=
  JDict [("u", JInt 1); ("k_models", JList [JStr "8-16"]);
         ("config_file", JStr "missing.ini")].

(** A controller whose smallest budget is the budget of full training,
    a ground truth that is the same for every architecture, and three
    pools of one candidate. *)
Definition controller1 : BudgetAware.controller := {|
  BudgetAware.name := "SH";
  BudgetAware.pre_calculate_epoch_required _ _ := Ok 100000%Z;
  BudgetAware.schedule_budget_per_model_based_on_T _ _ _ := Ok 1%Z;
  BudgetAware.run_phase2 _ pool := Ok (hd 0%Z pool, 60%Z)
|}.
(** A controller whose smallest budget is far above the budget of full
    training. *)
Definition controller2 : BudgetAware.controller := {|
  BudgetAware.name := "SH";
  BudgetAware.pre_calculate_epoch_required _ _ := Ok 100300%Z;
  BudgetAware.schedule_budget_per_model_based_on_T _ _ _ := Ok 1%Z;
  BudgetAware.run_phase2 _ pool := Ok (hd 0%Z pool, 60%Z)
|}.
Definition ground_truth0 (arch_id : Z) (dataset : string) : outcome float :=
  Ok one_second.
Definition small_pools : list (list Z) := [[1]; [2]; [3]]%Z.

(** The result of the harness for [controller0] on these inputs. *)
Definition rows_of (r : outcome (list (list float) * list (list float)))
  : list (list float) * list (list float) :=
  match r with
  | Ok rows => rows
  | Raise _ => ([], [])
  end.
Definition rows0 : list (list float) * list (list float) :=
  rows_of (BudgetAware.run_one_fixed_budget_alg "mlp_sp" "frappe"
             ground_truth0 small_pools controller0 one_second).

End SamplesMore.

(** * Properties *)

Import Py MlpSpace.

(** ** Strings and numerals *)

Section StringFacts.

Lemma split_nonempty sep s : split sep s ≠ [].
Proof. destruct s as [|c s]; simpl; [done|]. by repeat case_match. Qed.

(** Joining the pieces of a split restores the text. *)
Lemma join_split sep s : join (String sep "") (split sep s) = s.
Proof.
  induction s as [|c s IH]; [done|].
  simpl. destruct (Ascii.eqb_spec c sep) as [->|Hne].
  - unfold join in *. simpl.
    destruct (split sep s) as [|p ps] eqn:E; [by apply split_nonempty in E|].
    by rewrite IH.
  - unfold join in *.
    destruct (split sep s) as [|p ps] eqn:E; [by apply split_nonempty in E|].
    simpl in *. destruct ps; simpl in *; by rewrite <- IH.
Qed.

(** A piece that contains no separator is its own split. *)
Lemma split_app_sep sep p rest :
  split sep p = [p] →
  split sep (p +:+ String sep rest) = p :: split sep rest.
Proof.
  induction p as [|c p IH]; simpl.
  - intros _. by rewrite Ascii.eqb_refl.
  - destruct (Ascii.eqb c sep).
    + intros [=].
    + destruct (split sep p) as [|q qs] eqn:E; [by apply split_nonempty in E|].
      intros [= -> ->]. by rewrite IH.
Qed.

Lemma split_join sep l :
  l ≠ [] →
  Forall (λ p, split sep p = [p]) l →
  split sep (join (String sep "") l) = l.
Proof.
  intros Hne Hall. induction Hall as [|p l Hp Hl IH]; [done|].
  destruct l as [|q l]; [done|].
  unfold join in *. cbn [String.concat].
  change (String sep "" +:+ ?t) with (String sep t).
  rewrite split_app_sep by done. f_equal. by apply IH.
Qed.

Lemma digit_not_dash c : is_digit c = true → Ascii.eqb c "-" = false.
Proof. destruct (Ascii.eqb_spec c "-") as [->|]; [discriminate|done]. Qed.

Lemma all_digits_split p : all_digits p = true → split "-" p = [p].
Proof.
  induction p as [|c p IH]; [done|]. simpl.
  intros [Hc Hp]%andb_true_iff. rewrite (digit_not_dash _ Hc), IH; done.
Qed.

Lemma digit_not_space c : is_digit c = true → is_space c = false.
Proof.
  destruct c as [[] [] [] [] [] [] [] []]; vm_compute; congruence.
Qed.

Lemma all_digits_lstrip p : all_digits p = true → lstrip p = p.
Proof.
  destruct p as [|c p]; [done|]. simpl. intros [Hc _]%andb_true_iff.
  by rewrite (digit_not_space _ Hc).
Qed.

Lemma all_digits_rstrip p : all_digits p = true → rstrip p = p.
Proof.
  induction p as [|c p IH]; [done|]. simpl.
  intros [Hc Hp]%andb_true_iff. rewrite (IH Hp).
  destruct p; [by rewrite (digit_not_space _ Hc)|done].
Qed.

Lemma all_digits_strip p : all_digits p = true → strip p = p.
Proof.
  intros H. unfold strip. by rewrite all_digits_lstrip, all_digits_rstrip.
Qed.

Lemma string_of_uint_digits d :
  all_digits (NilEmpty.string_of_uint d) = true.
Proof. induction d; simpl; done. Qed.

Lemma literal_digits_all b s :
  all_digits s = true → s ≠ "" ∨ b = true →
  literal_digits b s = Some s.
Proof.
  revert b. induction s as [|c s IH]; intros b Hd Hb.
  - destruct Hb as [?| ->]; done.
  - simpl in *. apply andb_true_iff in Hd as [Hc Hs]. rewrite Hc.
    rewrite (IH true); [done..|by right].
Qed.

Lemma all_digits_ascii p : all_digits p = true → is_ascii p = true.
Proof.
  induction p as [|c p IH]; [done|]. simpl.
  intros [Hc Hp]%andb_true_iff. rewrite (IH Hp), andb_true_r.
  destruct c as [[] [] [] [] [] [] [] []]; try discriminate Hc; reflexivity.
Qed.

(** On a non-empty run of at most [max_str_digits] digits [int] reads
    the number the digits denote. *)
Lemma int_of_str_digits p d :
  all_digits p = true → p ≠ "" →
  (String.length p ≤ max_str_digits)%nat →
  NilEmpty.uint_of_string p = Some d →
  int_of_str p = Ok (Z.of_N (N.of_uint d)).
Proof.
  intros Hd Hne Hlen Hu. unfold int_of_str, decimal_and_space_to_ascii.
  rewrite (all_digits_ascii _ Hd), (all_digits_strip _ Hd).
  destruct p as [|c p]; [done|].
  assert (Hc : is_digit c = true) by (simpl in Hd; by destruct (is_digit c)).
  assert (c ≠ "-"%char ∧ c ≠ "+"%char) as [H1 H2]
    by (split; intros ->; discriminate).
  assert (match String c p with
          | String "-"%char b => (true, b)
          | String "+"%char b => (false, b)
          | _ => (false, String c p)
          end = (false, String c p)) as ->.
  { destruct c as [[] [] [] [] [] [] [] []]; congruence. }
  rewrite (literal_digits_all false _ Hd) by (by left).
  assert (Nat.ltb max_str_digits (String.length (String c p)) = false) as ->
    by (apply Nat.ltb_ge; exact Hlen).
  by rewrite Hu.
Qed.

Lemma all_digits_uint p :
  all_digits p = true → is_Some (NilEmpty.uint_of_string p).
Proof.
  induction p as [|c p IH]; [by eexists|]. simpl.
  intros [Hc Hp]%andb_true_iff. destruct (IH Hp) as [d ->].
  destruct c as [[] [] [] [] [] [] [] []]; try discriminate Hc; by eexists.
Qed.

(** [str] of a size that is not negative: the digits of the number. *)
Lemma str_of_int_nonneg z :
  (0 ≤ z)%Z →
  str_of_int z = NilEmpty.string_of_uint (N.to_uint (Z.to_N z)) ∧
  N.to_uint (Z.to_N z) ≠ Decimal.Nil.
Proof.
  intros Hz. destruct z as [|q|q]; [done| |lia].
  unfold str_of_int. simpl.
  assert (Pos.to_uint q ≠ Decimal.Nil) as Hq.
  { pose proof (DecimalPos.Unsigned.to_uint_nonnil q). done. }
  split; [|done]. by destruct (Pos.to_uint q).
Qed.

Lemma int_of_str_of_int z :
  (0 ≤ z)%Z → (String.length (str_of_int z) ≤ max_str_digits)%nat →
  int_of_str (str_of_int z) = Ok z.
Proof.
  intros Hz. destruct (str_of_int_nonneg z Hz) as [-> Hnil]. intros Hlen.
  rewrite (int_of_str_digits _ (N.to_uint (Z.to_N z))).
  - rewrite DecimalN.Unsigned.of_to. f_equal. lia.
  - apply string_of_uint_digits.
  - destruct (N.to_uint (Z.to_N z)); done.
  - exact Hlen.
  - apply NilEmpty.usu.
Qed.

Lemma str_of_int_split z : (0 ≤ z)%Z → split "-" (str_of_int z) = [str_of_int z].
Proof.
  intros Hz. destruct (str_of_int_nonneg z Hz) as [-> _].
  apply all_digits_split, string_of_uint_digits.
Qed.

(** A canonical numeral denotes a size whose [str] is the numeral. *)
Lemma canonical_numeral_value p :
  canonical_numeral p = true →
  (String.length p ≤ max_str_digits)%nat →
  ∃ z, int_of_str p = Ok z ∧ (0 ≤ z)%Z ∧ str_of_int z = p.
Proof.
  unfold canonical_numeral, decimal_numeral.
  intros [[Hd Hne]%andb_true_iff Hcan]%andb_true_iff Hlen.
  assert (p ≠ "") as Hne' by (intros ->; done).
  destruct (all_digits_uint p Hd) as [d Hu].
  exists (Z.of_N (N.of_uint d)). split; [by apply int_of_str_digits|].
  split; [lia|].
  destruct (str_of_int_nonneg (Z.of_N (N.of_uint d))) as [-> _]; [lia|].
  rewrite N2Z.id, DecimalN.Unsigned.to_of.
  assert (Decimal.unorm d = d) as ->; [|by apply NilEmpty.sus].
  apply orb_true_iff in Hcan as [Hz|Hc].
  - apply String.eqb_eq in Hz as ->. by injection Hu as <-.
  - destruct p as [|c p]; [done|]. simpl in Hu, Hd.
    apply andb_true_iff in Hd as [Hc' _].
    destruct (NilEmpty.uint_of_string p) as [d'|].
    + destruct c as [[] [] [] [] [] [] [] []];
        try discriminate Hc'; try discriminate Hc;
        by injection Hu as <-.
    + destruct c as [[] [] [] [] [] [] [] []]; discriminate Hu.
Qed.

Lemma map_result_canonical ps :
  forallb canonical_numeral ps = true →
  Forall (λ p, (String.length p ≤ max_str_digits)%nat) ps →
  ∃ zs, map_result int_of_str ps = Ok zs ∧ str_of_int <$> zs = ps.
Proof.
  induction ps as [|p ps IH]; [by exists []|]. simpl.
  intros [Hp Hps]%andb_true_iff [Hlen Hlens]%Forall_cons_1.
  destruct (canonical_numeral_value p Hp Hlen) as (z & -> & _ & Hz).
  destruct (IH Hps Hlens) as (zs & -> & Hzs).
  exists (z :: zs). by rewrite fmap_cons, Hz, Hzs.
Qed.

Lemma map_result_str_of_int l :
  Forall (λ z, 0 ≤ z)%Z l →
  Forall (λ z, (String.length (str_of_int z) ≤ max_str_digits)%nat) l →
  map_result int_of_str (str_of_int <$> l) = Ok l.
Proof.
  induction 1 as [|z l Hz _ IH]; [done|].
  intros [Hlen Hlens]%Forall_cons_1.
  rewrite fmap_cons. simpl. by rewrite int_of_str_of_int, IH.
Qed.

End StringFacts.

(** ** The MLP search space *)

Section SpaceFacts.

Implicit Types (h : store) (g : rng) (cfg : MlpMacroCfg).

Lemma nth_elem {A} n (l : list A) d : n < length l → nth n l d ∈ l.
Proof. intros Hn. by apply list_elem_of_In, nth_In. Qed.

Lemma random_choice_elem {A} (l : list A) g x g' :
  random_choice l g = Some (Ok x, g') → x ∈ l.
Proof.
  unfold random_choice. destruct l as [|x0 l]; [done|].
  destruct g as [|r g0]; [done|]. intros Heq.
  assert (x = nth (r mod length (x0 :: l)) (x0 :: l) x0) as ->
    by congruence.
  apply nth_elem, Nat.mod_upper_bound. done.
Qed.

Lemma alloc_lookup_old v h r :
  r < length h → (alloc v h).2 !! r = h !! r.
Proof. intros Hr. unfold alloc. cbn [snd]. by apply lookup_app_l. Qed.

Lemma alloc_lookup_new v h : (alloc v h).2 !! (alloc v h).1 = Some v.
Proof. unfold alloc. cbn [fst snd]. by apply list_lookup_middle. Qed.

Lemma store_set_other r i x h r' :
  r' ≠ r → store_set r i x h !! r' = h !! r'.
Proof. intros Hne. unfold store_set. by apply list_lookup_alter_ne. Qed.

Lemma store_set_same r i x h l :
  h !! r = Some l → store_set r i x h !! r = Some (<[i := x]> l).
Proof. intros Hl. unfold store_set. by rewrite list_lookup_alter_eq, Hl. Qed.

(** What the redraw loop does when it ends: nothing on an exception,
    one assignment of a different size from the choices otherwise. *)
Lemma choose_layer_size_spec fuel cfg child idx h g o h' g' l :
  h !! child = Some l →
  choose_layer_size fuel cfg child idx h g = Some (o, h', g') →
  match o with
  | Raise _ => h' = h
  | Ok _ =>
      ∃ m c, l !! idx = Some c ∧ m ∈ layer_choices cfg ∧ m ≠ c ∧
             h' = store_set child idx m h
  end.
Proof.
  intros Hl. revert g. induction fuel as [|fuel IH]; intros g; [done|].
  simpl. rewrite Hl.
  destruct (l !! idx) as [c|] eqn:Hc; [|by intros [= <- <- _]].
  destruct (random_choice (layer_choices cfg) g) as [[[m|e] g1]|] eqn:Hr;
    [|by intros [= <- <- _]|done].
  case_decide as Hne.
  - intros [= <- <- _]. exists m, c. repeat split; try done.
    by eapply random_choice_elem.
  - apply IH.
Qed.

(** The redraw loop touches no list but the one it is given. *)
Lemma choose_layer_size_frame fuel cfg child idx h g o h' g' r :
  r ≠ child →
  choose_layer_size fuel cfg child idx h g = Some (o, h', g') →
  h' !! r = h !! r.
Proof.
  intros Hne Hrun.
  destruct (h !! child) as [l|] eqn:Hl.
  - pose proof (choose_layer_size_spec _ _ _ _ _ _ _ _ _ _ Hl Hrun) as Hs.
    destruct o as [[]|e]; [|by subst].
    destruct Hs as (m & c & _ & _ & _ & ->). by apply store_set_other.
  - destruct fuel; simpl in Hrun; [done|]. by rewrite Hl in Hrun.
Qed.

Lemma move_proposal_loop_frame fuel cfg child idxs acc h g o h' g' r :
  r ≠ child →
  move_proposal_loop fuel cfg child idxs acc h g = Some (o, h', g') →
  h' !! r = h !! r.
Proof.
  intros Hne. revert acc h g.
  induction idxs as [|idx idxs IH]; intros acc h g; simpl.
  - by intros [= _ <- _].
  - destruct (choose_layer_size fuel cfg child idx h g)
      as [[[[[]|e] h1] g1]|] eqn:Hc; [| |done].
    + destruct (cfg_str h1 _); [|done]. intros Hrun.
      rewrite (IH _ _ _ Hrun). by eapply choose_layer_size_frame.
    + intros [= _ <- _]. by eapply choose_layer_size_frame.
Qed.

Lemma mutate_architecture_frame fuel cfg parent h g o h' g' r :
  r < length h →
  mutate_architecture fuel cfg parent h g = Some (o, h', g') →
  h' !! r = h !! r.
Proof.
  intros Hr. unfold mutate_architecture.
  destruct (h !! hidden_layer_list parent) as [pl|]; [|done].
  destruct (alloc pl h) as [child h1] eqn:Ha.
  assert (child = length h ∧ h1 = h ++ [pl]) as [-> ->]
    by (by injection Ha as <- <-).
  assert (Hold : (h ++ [pl]) !! r = h !! r) by by rewrite lookup_app_l.
  destruct (random_choice _ g) as [[[idx|e] g1]|]; [| |done].
  - destruct (choose_layer_size _ _ _ _ _ _) as [[[[[]|e] h2] g2]|] eqn:Hc;
      [| |done].
    + destruct (cfg_str h2 _); [|done]. intros [= _ <- _].
      rewrite <- Hold. eapply choose_layer_size_frame; [|done]. lia.
    + intros [= _ <- _].
      rewrite <- Hold. eapply choose_layer_size_frame; [|done]. lia.
  - by intros [= _ <- _].
Qed.

Lemma mutate_architecture_move_proposal_frame fuel cfg parent h g o h' g' r :
  r < length h →
  mutate_architecture_move_proposal fuel cfg parent h g = Some (o, h', g') →
  h' !! r = h !! r.
Proof.
  intros Hr. unfold mutate_architecture_move_proposal.
  destruct (h !! hidden_layer_list parent) as [pl|]; [|done].
  unfold alloc. intros Hrun.
  etrans; [eapply move_proposal_loop_frame; [|exact Hrun]; lia|].
  by apply lookup_app_l.
Qed.

End SpaceFacts.

Section SpaceClaims.

Implicit Types (h : store) (g : rng) (cfg : MlpMacroCfg).

(** C7.  Deriving a new architecture never changes an architecture that
    exists already: when [mutate_architecture] or
    [mutate_architecture_move_proposal] ends, with a result or with an
    exception, the hidden-layer list of the parent holds what it held
    before the call, and so does every other list that was in the store
    before the call. *)
Theorem mutation_keeps_parent_list fuel cfg parent h g parent_list :
  h !! hidden_layer_list parent = Some parent_list →
  (∀ o h' g',
     mutate_architecture fuel cfg parent h g = Some (o, h', g') →
     h' !! hidden_layer_list parent = Some parent_list ∧
     ∀ r l, h !! r = Some l → h' !! r = Some l) ∧
  (∀ o h' g',
     mutate_architecture_move_proposal fuel cfg parent h g
       = Some (o, h', g') →
     h' !! hidden_layer_list parent = Some parent_list ∧
     ∀ r l, h !! r = Some l → h' !! r = Some l).
Proof.
  intros Hp. split; intros o h' g' Hrun.
  - assert (∀ r l, h !! r = Some l → h' !! r = Some l) as Hall; [|eauto].
    intros r l Hr. rewrite <- Hr.
    eapply mutate_architecture_frame; [|done]. by eapply lookup_lt_Some.
  - assert (∀ r l, h !! r = Some l → h' !! r = Some l) as Hall; [|eauto].
    intros r l Hr. rewrite <- Hr.
    eapply mutate_architecture_move_proposal_frame; [|done].
    by eapply lookup_lt_Some.
Qed.

(** C10.  When [mutate_architecture] returns, the child has the length
    of the parent and differs from it at exactly one position: there it
    holds a size taken from the layer choices that is not the parent's
    size, everywhere else it holds the parent's size.  The returned
    identifier is the encoding of the child, and the parent is as it
    was. *)
Theorem mutate_architecture_one_position
    fuel cfg parent h g s child h' g' parent_list :
  h !! hidden_layer_list parent = Some parent_list →
  mutate_architecture fuel cfg parent h g = Some (Ok (s, child), h', g') →
  ∃ child_list i mutated cur,
    h' !! hidden_layer_list child = Some child_list ∧
    h' !! hidden_layer_list parent = Some parent_list ∧
    length child_list = length parent_list ∧
    parent_list !! i = Some cur ∧
    child_list !! i = Some mutated ∧
    mutated ∈ layer_choices cfg ∧
    mutated ≠ cur ∧
    (∀ j, j ≠ i → child_list !! j = parent_list !! j) ∧
    s = join "-" (str_of_int <$> child_list).
Proof.
  intros Hp Hrun.
  assert (Hp' : h' !! hidden_layer_list parent = Some parent_list).
  { rewrite <- Hp. eapply mutate_architecture_frame; [|done].
    by eapply lookup_lt_Some. }
  revert Hrun. unfold mutate_architecture, alloc. rewrite Hp.
  destruct (random_choice _ g) as [[[idx|e] g1]|]; [|done..].
  destruct (choose_layer_size _ _ _ _ _ _) as [[[[[]|e] h2] g2]|] eqn:Hc;
    [|done..].
  assert (Hchild : (h ++ [parent_list]) !! length h = Some parent_list)
    by apply list_lookup_middle, eq_refl.
  pose proof (choose_layer_size_spec _ _ _ _ _ _ _ _ _ _ Hchild Hc)
    as (m & c & Hcur & Hin & Hne & ->).
  unfold cfg_str. cbn [hidden_layer_list].
  rewrite (store_set_same _ _ _ _ _ Hchild). cbn.
  intros [= <- <- <- _].
  exists (<[idx := m]> parent_list), idx, m, c. cbn [hidden_layer_list].
  split; [by apply store_set_same|].
  split; [done|]. split; [by rewrite length_insert|].
  split; [done|].
  split; [apply list_lookup_insert_eq; by eapply lookup_lt_Some|].
  split; [done|]. split; [done|]. split; [|done].
  intros j Hj. by apply list_lookup_insert_ne.
Qed.


Lemma mutation_keeps_parent_list_witness :
  ∃ o1 h1 g1 o2 h2 g2,
    mutate_architecture 5 Samples.cfg3 Samples.arch0 Samples.store0
      [1; 0; 2; 1; 0] = Some (o1, h1, g1) ∧
    mutate_architecture_move_proposal 5 Samples.cfg3 Samples.arch0
      Samples.store0 [1; 0; 2; 1; 0] = Some (o2, h2, g2) ∧
    h1 !! 0 = Some [8; 16; 32]%Z ∧ h2 !! 0 = Some [8; 16; 32]%Z.
Proof.
  destruct (mutation_keeps_parent_list 5 Samples.cfg3 Samples.arch0
              Samples.store0 [1; 0; 2; 1; 0] [8; 16; 32]%Z eq_refl)
    as [H1 H2].
  eexists _, _, _, _, _, _.
  split; [reflexivity|]. split; [reflexivity|].
  split; [exact (proj1 (H1 _ _ _ eq_refl))|exact (proj1 (H2 _ _ _ eq_refl))].
Defined.

Lemma mutate_architecture_one_position_witness :
  ∃ child_list i mutated cur,
    [[8; 16; 32]; [8; 8; 32]]%Z !! 1 = Some child_list ∧
    [[8; 16; 32]; [8; 8; 32]]%Z !! 0 = Some [8; 16; 32]%Z ∧
    length child_list = 3 ∧
    [8; 16; 32]%Z !! i = Some cur ∧
    child_list !! i = Some mutated ∧
    mutated ∈ [8; 16; 32]%Z ∧
    mutated ≠ cur ∧
    (∀ j, j ≠ i → child_list !! j = [8; 16; 32]%Z !! j) ∧
    "8-8-32" = join "-" (str_of_int <$> child_list).
Proof.
  apply (mutate_architecture_one_position 5 Samples.cfg3 Samples.arch0
           Samples.store0 [1; 0; 2; 1] "8-8-32"
           {| hidden_layer_list := 1 |} [[8; 16; 32]; [8; 8; 32]]%Z [2; 1]
           [8; 16; 32]%Z); reflexivity.
Defined.



(** The bound on the digits is needed: a numeral of one digit more is
    canonical, and [int] refuses it. *)
Example encoding_roundtrip_digit_limit :
  let s := String.concat "" (repeat "1" (S max_str_digits)) in
  canonical_encoding s = true ∧
  ∀ h, deserialize_model_encoding s h = Raise ValueError.
Proof.
  intros s. split; [vm_compute; reflexivity|].
  intros h. unfold deserialize_model_encoding, builder.
  assert (decode_layers s = Raise ValueError) as ->
    by (vm_compute; reflexivity).
  reflexivity.
Qed.

(** The children returned by [mutate_architecture_move_proposal] all
    refer to one list: each identifier was taken when its pair was made,
    and the list has changed since for all but the last. *)
Example move_proposal_children_share_list :
  mutate_architecture_move_proposal 5 Samples.cfg3 Samples.arch0
    Samples.store0 [1; 0; 2; 1; 0]
  = Some (Ok [("16-16-32", {| hidden_layer_list := 1 |});
              ("16-8-32", {| hidden_layer_list := 1 |});
              ("16-8-16", {| hidden_layer_list := 1 |})],
          [[8; 16; 32]; [16; 8; 16]]%Z, [0]).
Proof. reflexivity. Qed.

End SpaceClaims.

(** ** The request boundary *)

Section BoundaryFacts.

Import PgInterface.

Context (W : World).

Implicit Types (env : environ) (args : Namespace) (func : endpoint).

Lemma bind_ok {A B} (c : outcome A) (k : A → outcome B) r :
  c ≫= k = Ok r → ∃ a, c = Ok a ∧ k a = Ok r.
Proof. destruct c as [a|e]; [by exists a|done]. Qed.

Lemma orjson_dumps_record d r :
  orjson_dumps (JDict d) = Ok r → is_record r.
Proof.
  unfold orjson_dumps. destruct (encodable _); [|done].
  intros [= <-]. by eexists.
Qed.

Lemma error_record_is_error e : is_error_record (error_record W e).
Proof. by eexists. Qed.

Lemma error_record_is_record e : is_record (error_record W e).
Proof. by eexists. Qed.

(** The wrapper answers with what the body returned, or with the error
    record of the exception that ended the [try] block. *)
Lemma exception_catcher_cases func s ts env :
  (∃ r env', wrapper_try W func s ts env = (Ok r, env') ∧
             exception_catcher W func s ts env = (r, env')) ∨
  (∃ e env', wrapper_try W func s ts env = (Raise e, env') ∧
             exception_catcher W func s ts env = (error_record W e, env')).
Proof.
  unfold exception_catcher.
  destruct (wrapper_try W func s ts env) as [[r|e] env']; eauto 6.
Qed.

(** A body whose normal results are records gives an endpoint whose
    every response is a record. *)
Lemma exception_catcher_record func s ts env :
  (∀ params args env' r, func params args env' = Ok r → is_record r) →
  is_record (exception_catcher W func s ts env).1.
Proof.
  intros Hbody.
  destruct (exception_catcher_cases func s ts env)
    as [(r & env' & Htry & ->)|(e & env' & _ & ->)];
    [|apply error_record_is_record].
  cbn [fst]. revert Htry. unfold wrapper_try.
  destruct (parse_request W s) as [[params args]|]; [|done].
  destruct (set_environment args ts env) as [[[]|] env1]; [|done].
  intros [= Hr _]. eauto.
Qed.

Ltac body_record :=
  intros params args env r; cbv beta delta
    [model_selection_body profiling_filtering_phase_body
     profiling_refinement_phase_body coordinator_body filtering_phase_body
     refinement_phase_body model_selection_workloads_body];
  intros H;
  repeat (apply bind_ok in H as (? & _ & H);
          repeat match type of H with
                 | (let '(_, _) := ?x in _) = _ => destruct x
                 end);
  by eapply orjson_dumps_record.

Lemma model_selection_body_record :
  ∀ params args env r,
    model_selection_body W params args env = Ok r → is_record r.
Proof. body_record. Qed.

Lemma profiling_filtering_phase_body_record :
  ∀ params args env r,
    profiling_filtering_phase_body W params args env = Ok r → is_record r.
Proof. body_record. Qed.

Lemma profiling_refinement_phase_body_record :
  ∀ params args env r,
    profiling_refinement_phase_body W params args env = Ok r → is_record r.
Proof. body_record. Qed.

Lemma coordinator_body_record :
  ∀ params args env r,
    coordinator_body W params args env = Ok r → is_record r.
Proof. body_record. Qed.

Lemma filtering_phase_body_record :
  ∀ params args env r,
    filtering_phase_body W params args env = Ok r → is_record r.
Proof. body_record. Qed.

Lemma refinement_phase_body_record :
  ∀ params args env r,
    refinement_phase_body params args env = Ok r → is_record r.
Proof. body_record. Qed.

Lemma model_selection_workloads_body_record :
  ∀ params args env r,
    model_selection_workloads_body W params args env = Ok r → is_record r.
Proof. body_record. Qed.

(** *** Environment variables *)

Lemma setdefault_lookup_set k v env k' v' :
  env !! k' = Some v' → setdefault k v env !! k' = Some v'.
Proof.
  intros Hk. unfold setdefault.
  destruct (env !! k) eqn:E; [done|].
  rewrite lookup_insert_ne; [done|]. intros ->. congruence.
Qed.

Lemma setdefault_lookup_other k v env k' :
  k' ≠ k → setdefault k v env !! k' = env !! k'.
Proof.
  intros Hne. unfold setdefault.
  destruct (env !! k); [done|]. by rewrite lookup_insert_ne.
Qed.

Lemma setdefault_set k v env : is_Some (env !! k) → setdefault k v env = env.
Proof. intros [v' Hv]. unfold setdefault. by rewrite Hv. Qed.

Lemma setdefault_is_set k v env : is_Some (setdefault k v env !! k).
Proof.
  unfold setdefault. destruct (env !! k) eqn:E; [by rewrite E|].
  rewrite lookup_insert_eq. by eexists.
Qed.

Lemma setdefault_keeps_set k v env k' :
  is_Some (env !! k') → is_Some (setdefault k v env !! k').
Proof. intros [v' Hv]. exists v'. by apply setdefault_lookup_set. Qed.

Lemma set_environment_keeps args ts env k v :
  env !! k = Some v → (set_environment args ts env).2 !! k = Some v.
Proof.
  intros Hk. unfold set_environment.
  repeat (case_match; cbn [snd]); auto using setdefault_lookup_set.
Qed.

Lemma set_environment_other args ts env k :
  k ∉ wrapper_variables → (set_environment args ts env).2 !! k = env !! k.
Proof.
  intros Hk. unfold set_environment.
  assert (k ≠ "base_dir" ∧ k ≠ "log_logger_folder_name" ∧
          k ≠ "log_file_name") as (H1 & H2 & H3).
  { unfold wrapper_variables in Hk. set_solver. }
  repeat (case_match; cbn [snd]);
    by rewrite ?setdefault_lookup_other by done.
Qed.

Lemma set_environment_all_set args ts env :
  (∀ k, k ∈ wrapper_variables → is_Some (env !! k)) →
  (set_environment args ts env).2 = env.
Proof.
  intros Hall. unfold set_environment.
  assert (is_Some (env !! "base_dir") ∧
          is_Some (env !! "log_logger_folder_name") ∧
          is_Some (env !! "log_file_name")) as (H1 & H2 & H3).
  { unfold wrapper_variables in Hall. repeat split; apply Hall; set_solver. }
  repeat (case_match; cbn [snd]);
    by repeat rewrite (setdefault_set _ _ env) by done.
Qed.

Lemma set_environment_sets args ts env env' k :
  set_environment args ts env = (Ok tt, env') →
  k ∈ wrapper_variables → is_Some (env' !! k).
Proof.
  unfold set_environment, wrapper_variables.
  repeat case_match; try done. intros [= <-] Hk.
  apply elem_of_cons in Hk as [Hk|Hk]; [|apply elem_of_cons in Hk as [Hk|Hk]];
    [| |apply list_elem_of_singleton in Hk]; subst k;
    eauto using setdefault_is_set, setdefault_keeps_set.
Qed.

(** The environment after a call: untouched when the request or its
    configuration cannot be read, otherwise as the three [setdefault]
    statements leave it.  The body has no part in it. *)
Lemma exception_catcher_environment func s ts env :
  (exception_catcher W func s ts env).2 =
  match parse_request W s with
  | Ok (_, args) => (set_environment args ts env).2
  | Raise _ => env
  end.
Proof.
  unfold exception_catcher, wrapper_try.
  destruct (parse_request W s) as [[params args]|e]; [|done].
  destruct (set_environment args ts env) as [[[]|e] env1]; [|done].
  cbn [snd]. by destruct (func params args env1).
Qed.

(** *** The parsed configuration *)

(** A text option that is assigned once ends up in the namespace with
    the text the parser holds for it. *)
Lemma assign_fields_text parser fields args0 args name section :
  assign_fields W parser fields args0 = Ok args →
  NoDup (fields.*1.*1) →
  (name, section, KStr) ∈ fields →
  ∃ raw, parser_get parser section name = Ok raw ∧
         args !! name = Some (JStr raw).
Proof.
  revert args0. induction fields as [|[[n sec] k] fields IH];
    intros args0 Hrun Hnd Hin; [by apply elem_of_nil in Hin|].
  cbn [assign_fields] in Hrun.
  apply bind_ok in Hrun as (v & Hv & Hrun).
  rewrite !fmap_cons in Hnd. cbn [fst] in Hnd.
  apply NoDup_cons in Hnd as [Hfresh Hnd].
  apply elem_of_cons in Hin as [[= <- <- <-]|Hin]; [|by eapply IH].
  unfold parser_value in Hv. apply bind_ok in Hv as (raw & Hraw & [= <-]).
  exists raw. split; [done|].
  clear IH Hraw Hnd. revert args0 Hrun Hfresh.
  generalize (JStr raw). intros v.
  induction fields as [|[[n' sec'] k'] fields IH]; intros args0 Hrun Hfresh.
  - injection Hrun as <-. by rewrite lookup_insert_eq.
  - cbn [assign_fields] in Hrun.
    apply bind_ok in Hrun as (v' & _ & Hrun).
    rewrite !fmap_cons in Hfresh. cbn [fst] in Hfresh.
    apply not_elem_of_cons in Hfresh as [Hne Hfresh].
    rewrite insert_insert_ne in Hrun by done. by eapply IH.
Qed.

Lemma parse_config_arguments_texts config_path args :
  parse_config_arguments W config_path = Ok args →
  ∃ base_dir log_folder log_name,
    args !! "base_dir" = Some (JStr base_dir) ∧
    args !! "log_folder" = Some (JStr log_folder) ∧
    args !! "log_name" = Some (JStr log_name).
Proof.
  unfold parse_config_arguments. intros (parser & _ & Hrun)%bind_ok.
  assert (Hnd : NoDup (config_fields.*1.*1)).
  { compute_done. }
  destruct (assign_fields_text _ _ _ _ "base_dir" "DATASET" Hrun Hnd)
    as (b & _ & Hb); [unfold config_fields; by repeat constructor|].
  destruct (assign_fields_text _ _ _ _ "log_folder" "DEFAULT" Hrun Hnd)
    as (f & _ & Hf); [unfold config_fields; by repeat constructor|].
  destruct (assign_fields_text _ _ _ _ "log_name" "DEFAULT" Hrun Hnd)
    as (n & _ & Hn); [unfold config_fields; by repeat constructor|].
  by exists b, f, n.
Qed.

(** After a configuration was parsed the three [setdefault] statements
    run to the end. *)
Lemma set_environment_after_parse s params args ts env :
  parse_request W s = Ok (params, args) →
  ∃ env', set_environment args ts env = (Ok tt, env').
Proof.
  unfold parse_request.
  intros (p & _ & (cf & _ & (a & Hparse & [= _ <-])%bind_ok)%bind_ok)%bind_ok.
  destruct (parse_config_arguments_texts _ _ Hparse)
    as (b & f & n & Hb & Hf & Hn).
  unfold set_environment, getattr. rewrite Hb, Hf, Hn. cbn. by eexists.
Qed.

(** The environment after the three [setdefault] statements of a
    parsed request: each of the three variables that was not set holds
    the text the parser gives for its option, the last one with the
    clock reading appended. *)
Lemma set_environment_of_request s params args ts env :
  parse_request W s = Ok (params, args) →
  ∃ config_file parser base_dir log_folder log_name,
    json_loads W s = Ok params ∧
    dict_get params "config_file" = Ok config_file ∧
    parser_read W config_file = Ok parser ∧
    parser_get parser "DATASET" "base_dir" = Ok base_dir ∧
    parser_get parser "DEFAULT" "log_folder" = Ok log_folder ∧
    parser_get parser "DEFAULT" "log_name" = Ok log_name ∧
    set_environment args ts env
    = (Ok tt,
       setdefault "log_file_name"
         (log_name +:+ "_" +:+ str_of_int ts +:+ ".log")
         (setdefault "log_logger_folder_name" log_folder
            (setdefault "base_dir" base_dir env))).
Proof.
  unfold parse_request.
  intros (p & Hp & (cf & Hcf & (a & Hparse & [= <- <-])%bind_ok)%bind_ok)
    %bind_ok.
  revert Hparse. unfold parse_config_arguments.
  intros (parser & Hread & Hrun)%bind_ok.
  assert (Hnd : NoDup (config_fields.*1.*1)).
  { compute_done. }
  destruct (assign_fields_text _ _ _ _ "base_dir" "DATASET" Hrun Hnd)
    as (b & Hgb & Hb); [unfold config_fields; by repeat constructor|].
  destruct (assign_fields_text _ _ _ _ "log_folder" "DEFAULT" Hrun Hnd)
    as (f & Hgf & Hf); [unfold config_fields; by repeat constructor|].
  destruct (assign_fields_text _ _ _ _ "log_name" "DEFAULT" Hrun Hnd)
    as (n & Hgn & Hn); [unfold config_fields; by repeat constructor|].
  exists cf, parser, b, f, n. repeat (split; [done|]).
  unfold set_environment, getattr. rewrite Hb, Hf, Hn. done.
Qed.

End BoundaryFacts.

Section BoundaryClaims.

Import PgInterface.

Implicit Types (W : World) (env : environ) (func : endpoint).

(** C2.  Whatever text it is given, every entry point answers with a
    record.  An exception that ends the [try] block is answered with the
    error record, a record whose one key ["Errored"] holds the
    traceback: so it is when the text is not JSON, when the
    configuration file cannot be parsed, and when the body raises. *)
Theorem request_boundary_always_answers W (s : string) (ts : Z) env :
  (∀ ep, ep ∈ entry_points W → is_record (ep s ts env).1) ∧
  (∀ func e env',
     wrapper_try W func s ts env = (Raise e, env') →
     exception_catcher W func s ts env = (error_record W e, env')) ∧
  (∀ func e,
     json_loads W s = Raise e →
     exception_catcher W func s ts env = (error_record W e, env)) ∧
  (∀ func params config_file e,
     json_loads W s = Ok params →
     dict_get params "config_file" = Ok config_file →
     parse_config_arguments W config_file = Raise e →
     exception_catcher W func s ts env = (error_record W e, env)) ∧
  (∀ func params args env' e,
     parse_request W s = Ok (params, args) →
     set_environment args ts env = (Ok tt, env') →
     func params args env' = Raise e →
     exception_catcher W func s ts env = (error_record W e, env')).
Proof.
  split; [|split; [|split; [|split]]].
  - intros ep Hep. unfold entry_points in Hep.
    repeat (apply elem_of_cons in Hep as [->|Hep]);
      [..|by apply elem_of_nil in Hep];
      apply exception_catcher_record;
      eauto using model_selection_body_record,
        profiling_filtering_phase_body_record,
        profiling_refinement_phase_body_record, coordinator_body_record,
        filtering_phase_body_record, refinement_phase_body_record,
        model_selection_workloads_body_record.
  - intros func e env' Htry. unfold exception_catcher. by rewrite Htry.
  - intros func e Hload. unfold exception_catcher, wrapper_try, parse_request.
    by rewrite Hload.
  - intros func params cf e Hload Hget Hparse.
    unfold exception_catcher, wrapper_try, parse_request.
    rewrite Hload. cbn. rewrite Hget. cbn. by rewrite Hparse.
  - intros func params args env' e Hreq Hset Hbody.
    unfold exception_catcher, wrapper_try. by rewrite Hreq, Hset, Hbody.
Qed.

Lemma request_boundary_always_answers_witness :
  is_record (coordinator Samples.world0 "{not json" 7 ∅).1 ∧
  refinement_phase Samples.world0 "{not json" 7 ∅
    = (JDict [("Errored", JStr "JSONDecodeError")], ∅) ∧
  refinement_phase Samples.world0 (Samples.refine_request "missing.ini") 7 ∅
    = (JDict [("Errored", JStr "NoOptionError")], ∅) ∧
  (refinement_phase Samples.world0 (Samples.refine_request "a.ini") 7 ∅).1
    = JDict [("Errored", JStr "KeyError: mini_batch")].
Proof.
  pose proof (request_boundary_always_answers Samples.world0 "{not json" 7 ∅)
    as (H1 & _ & H3 & _).
  pose proof (request_boundary_always_answers Samples.world0
                (Samples.refine_request "missing.ini") 7 ∅)
    as (_ & _ & _ & H4 & _).
  pose proof (request_boundary_always_answers Samples.world0
                (Samples.refine_request "a.ini") 7 ∅)
    as (_ & H2 & _).
  split; [apply H1; unfold entry_points; by left|].
  split; [exact (H3 refinement_phase_body JSONDecodeError eq_refl)|].
  split; [exact (H4 refinement_phase_body _ _ NoOptionError
                   eq_refl eq_refl eq_refl)|].
  exact (f_equal fst (H2 refinement_phase_body (KeyError "mini_batch") _
                        eq_refl)).
Defined.

(** C1, what the code does.  Whatever the request,
    [refinement_phase] answers with the error record or with the fixed
    record [{"k_models": "k_models"}]; neither has the key [best_arch]
    or the key [best_arch_performance]. *)
Theorem refinement_phase_response W (s : string) (ts : Z) env :
  let response := (refinement_phase W s ts env).1 in
  (is_error_record response ∨
   response = JDict [("k_models", JStr "k_models")]) ∧
  ("best_arch" ∉ keys response) ∧
  ("best_arch_performance" ∉ keys response).
Proof.
  intros response.
  assert (is_error_record response ∨
          response = JDict [("k_models", JStr "k_models")]) as Hcases.
  { subst response. unfold refinement_phase.
    destruct (exception_catcher_cases W refinement_phase_body s ts env)
      as [(r & env' & Htry & ->)|(e & env' & _ & ->)];
      [|left; apply error_record_is_error].
    right. cbn [fst]. revert Htry. unfold wrapper_try.
    destruct (parse_request W s) as [[params args]|]; [|done].
    destruct (set_environment args ts env) as [[[]|] env1]; [|done].
    intros [= Hr _]. unfold refinement_phase_body in Hr.
    apply bind_ok in Hr as (_ & _ & Hr). by injection Hr as <-. }
  split; [done|].
  destruct Hcases as [[msg ->]| ->]; cbn;
    split; intros Hin;
    (apply elem_of_cons in Hin as [Hin|Hin];
     [discriminate Hin|by apply elem_of_nil in Hin]).
Qed.

(** The request of the refinement endpoint as the spec gives it, with
    the keys [u] and [k_models], is answered with an error; with a
    [mini_batch] added it is answered with the fixed record. *)
Example refinement_phase_on_spec_request :
  (refinement_phase Samples.world0 (Samples.refine_request "a.ini") 7 ∅).1
    = JDict [("Errored", JStr "KeyError: mini_batch")] ∧
  (refinement_phase Samples.world0 Samples.refine_request_with_batch 7 ∅).1
    = JDict [("k_models", JStr "k_models")].
Proof. split; reflexivity. Qed.

(** C5.  On a well-formed request (the text decodes, its configuration
    file parses, the four fields are present, the three numbers convert
    with [float], [only_phase1] is a text, the engine is built and
    returns a plan that [orjson] can write), [coordinator] hands
    [rms.coordination] the three floats and the flag that is true
    exactly when the text of [only_phase1] is "true" up to letter case,
    and answers with the record of the three integers under the keys
    [k], [u], [n], in this order and with no other key. *)
Theorem coordinator_response W (s : string) (ts : Z) env params args env'
    vb vs vt (only_phase1_text : string) budget score_time train_time
    rms K U N :
  parse_request W s = Ok (params, args) →
  set_environment args ts env = (Ok tt, env') →
  logger_info W env' = Ok tt →
  getitem params "budget" = Ok vb → py_float W vb = Ok budget →
  getitem params "score_time_per_model" = Ok vs →
  py_float W vs = Ok score_time →
  getitem params "train_time_per_epoch" = Ok vt →
  py_float W vt = Ok train_time →
  getitem params "only_phase1" = Ok (JStr only_phase1_text) →
  new_rms W args = Ok rms →
  coordination W rms budget score_time train_time
    (bool_decide (lower only_phase1_text = lower "true")) = Ok (K, U, N) →
  int64_range K → int64_range U → int64_range N →
  coordinator_params W params
    = Ok (budget, score_time, train_time,
          bool_decide (lower only_phase1_text = lower "true")) ∧
  coordinator W s ts env
    = (JDict [("k", JInt K); ("u", JInt U); ("n", JInt N)], env').
Proof.
  intros Hreq Hset Hlog Hb Hb' Hs Hs' Ht Ht' Ho Hrms Hco HK HU HN.
  assert (Hflag :
    (if String.eqb (lower only_phase1_text) "true" then true else false)
    = bool_decide (lower only_phase1_text = lower "true")).
  { change (lower "true") with "true".
    destruct (String.eqb_spec (lower only_phase1_text) "true") as [->|Hne].
    - by rewrite bool_decide_eq_true_2.
    - by rewrite bool_decide_eq_false_2. }
  assert (Hparams : coordinator_params W params
    = Ok (budget, score_time, train_time,
          bool_decide (lower only_phase1_text = lower "true"))).
  { unfold coordinator_params. rewrite Hb. cbn. rewrite Hb'. cbn.
    rewrite Hs. cbn. rewrite Hs'. cbn. rewrite Ht. cbn. rewrite Ht'. cbn.
    rewrite Ho. cbn. by rewrite Hflag. }
  split; [done|]. clear Hflag.
  revert Hco Hparams.
  generalize (bool_decide (lower only_phase1_text = lower "true")).
  intros flag Hco Hparams.
  unfold coordinator, exception_catcher, wrapper_try.
  rewrite Hreq, Hset. unfold coordinator_body.
  rewrite Hlog, Hparams. cbn. rewrite Hrms. cbn.
  rewrite Hco. cbn. unfold orjson_dumps.
  assert (encodable (JDict [("k", JInt K); ("u", JInt U); ("n", JInt N)])
          = true) as ->; [|done].
  unfold int64_range in *. cbn.
  repeat (apply andb_true_intro; split); try done;
    first [apply Z.leb_le | apply Z.ltb_lt]; lia.
Qed.

Lemma sample_request_parses :
  parse_request Samples.world0 Samples.coordinate_request
    = Ok (Samples.coordinate_params, Samples.args_a) ∧
  set_environment Samples.args_a 7 ∅ = (Ok tt, Samples.env_a).
Proof.
  assert (Hok : match parse_config_arguments Samples.world0 (JStr "a.ini")
                with Ok _ => true | Raise _ => false end = true)
    by (vm_compute; reflexivity).
  assert (Hset : (set_environment Samples.args_a 7 ∅).1 = Ok tt)
    by (vm_compute; reflexivity).
  split.
  - unfold parse_request, Samples.args_a.
    change (json_loads Samples.world0 Samples.coordinate_request)
      with (Ok Samples.coordinate_params).
    change (Ok Samples.coordinate_params ≫= ?k)
      with (k Samples.coordinate_params).
    cbv beta.
    change (dict_get Samples.coordinate_params "config_file")
      with (Ok (JStr "a.ini")).
    change (Ok (JStr "a.ini") ≫= ?k) with (k (JStr "a.ini")).
    cbv beta.
    destruct (parse_config_arguments Samples.world0 (JStr "a.ini"));
      [reflexivity|discriminate Hok].
  - unfold Samples.env_a.
    destruct (set_environment Samples.args_a 7 ∅) as [[[]|] e];
      [reflexivity|discriminate Hset].
Qed.

Lemma coordinator_response_witness :
  (coordinator Samples.world0 Samples.coordinate_request 7 ∅).1
    = JDict [("k", JInt 1); ("u", JInt 1); ("n", JInt 10)].
Proof.
  destruct (coordinator_response Samples.world0
              Samples.coordinate_request 7 ∅ Samples.coordinate_params
              Samples.args_a Samples.env_a
              (JInt 10) (JInt 1) (JInt 5) "True"
              (S754_finite false 5629499534213120 (-49))
              (S754_finite false 4503599627370496 (-52))
              (S754_finite false 5629499534213120 (-50))
              tt 1%Z 1%Z 10%Z) as [_ H2].
  - exact (proj1 sample_request_parses).
  - exact (proj2 sample_request_parses).
  - vm_compute; reflexivity.
  - vm_compute; reflexivity.
  - vm_compute; reflexivity.
  - vm_compute; reflexivity.
  - vm_compute; reflexivity.
  - vm_compute; reflexivity.
  - vm_compute; reflexivity.
  - vm_compute; reflexivity.
  - vm_compute; reflexivity.
  - vm_compute; reflexivity.
  - unfold int64_range; lia.
  - unfold int64_range; lia.
  - unfold int64_range; lia.
  - rewrite H2; reflexivity.
Defined.




End BoundaryClaims.

(** ** The scoring loop of the filtering benchmark *)

Section ScoringLoopFacts.

Import FilteringLatency.

Context {Sampler Evaluator Micro Score : Type}.
Context (sample_next_arch : Sampler → option (string * Micro) * Sampler).
Context (serialize_model_encoding : Micro → string).
Context (p1_evaluate : Evaluator → ModelAcquireData →
                       outcome Score * Evaluator).
Context (models_explore : Z).

Abbreviation state := (@loop_state Sampler Evaluator Score).
Abbreviation body :=
  (loop_body sample_next_arch serialize_model_encoding p1_evaluate
     models_explore).
Abbreviation loop :=
  (scoring_loop sample_next_arch serialize_model_encoding p1_evaluate
     models_explore).
Abbreviation loop_inv := (FilteringLatency.loop_inv models_explore).

Implicit Types (s : Sampler) (ev : Evaluator) (saved : gmap string Score).
Implicit Types (st : state).

Lemma loop_inv_initial s ev saved : loop_inv saved (initial s ev saved).
Proof.
  unfold loop_inv, initial. cbn. split; [constructor|].
  split; [intros id sc Hin; by apply elem_of_nil in Hin|].
  split; [done|]. split; [done|]. lia.
Qed.

Lemma loop_body_inv saved st :
  loop_inv saved st → loop_inv saved (next_state (body st)).
Proof.
  intros (Hnd & Hsc & Hsaved & Hn & Hle). unfold loop_body.
  destruct (sample_next_arch (sampler st)) as [[[arch_id arch_micro]|] smp'];
    [|done].
  case_decide as Hhit; [done|].
  destruct (models_explore <? explored_n st)%Z eqn:Hfull; [done|].
  apply Z.ltb_ge in Hfull.
  destruct (p1_evaluate _ _) as [[model_score|e] ev']; [|done].
  assert (Hfresh : result st !! arch_id = None).
  { destruct (result st !! arch_id) eqn:E; [|done].
    exfalso. apply Hhit. by eexists. }
  cbn. unfold loop_inv. cbn.
  split; [|split; [|split; [|split]]].
  - rewrite fmap_app. apply NoDup_app. split; [done|]. split.
    + intros id Hid Hin. cbn in Hin.
      apply list_elem_of_singleton in Hin as ->.
      apply list_elem_of_fmap in Hid as ([id' sc] & Heq & Hin).
      cbn in Heq. subst id'.
      destruct (Hsc _ _ Hin) as [_ Hres]. cbn in Hres. congruence.
    + apply NoDup_singleton.
  - intros id sc [Hin|Hin]%elem_of_app.
    + destruct (Hsc _ _ Hin) as [Hs Hres]. split; [done|].
      rewrite lookup_insert_ne; [done|]. intros ->. congruence.
    + apply list_elem_of_singleton in Hin as [= -> ->].
      split; [|by rewrite lookup_insert_eq].
      destruct (saved !! arch_id) as [sc|] eqn:E; [|done].
      apply Hsaved in E. congruence.
  - intros id sc Hs. rewrite lookup_insert_ne; [by apply Hsaved|].
    intros ->. apply Hsaved in Hs. congruence.
  - rewrite length_app. cbn. lia.
  - lia.
Qed.

Lemma scoring_loop_inv saved fuel st o st' :
  loop_inv saved st → loop fuel st = Some (o, st') → loop_inv saved st'.
Proof.
  revert st. induction fuel as [|fuel IH]; intros st Hinv; [done|].
  cbn. pose proof (loop_body_inv saved st Hinv) as Hnext.
  destruct (body st) as [st1|st1|e st1]; cbn in Hnext.
  - by apply IH.
  - by intros [= _ <-].
  - by intros [= _ <-].
Qed.

(** A cache hit: the pass only advances the sampler. *)
Lemma loop_body_hit st arch_id arch_micro sampler' :
  sample_next_arch (sampler st) = (Some (arch_id, arch_micro), sampler') →
  is_Some (result st !! arch_id) →
  body st = Continue {| sampler := sampler'; _evaluator := _evaluator st;
                        explored_n := explored_n st; result := result st;
                        scored := scored st |}.
Proof.
  intros Hdraw Hhit. unfold loop_body. rewrite Hdraw.
  by rewrite decide_True.
Qed.

(** C3.  In one run of the scoring loop no identifier is evaluated
    twice.  A pass that draws an identifier found in the cache changes
    nothing but the sampler: the evaluator is not called.  When the loop
    is left, every identifier that was evaluated was not in the cache
    the run started with and is now cached with the score its one
    evaluation returned, and the scores the run started with are
    unchanged. *)
Theorem scoring_loop_scores_once s ev saved fuel o st :
  loop fuel (initial s ev saved) = Some (o, st) →
  NoDup (scored st).*1 ∧
  (∀ id sc, (id, sc) ∈ scored st →
            saved !! id = None ∧ result st !! id = Some sc) ∧
  (∀ id sc, saved !! id = Some sc → result st !! id = Some sc) ∧
  (∀ st0 arch_id arch_micro sampler',
     sample_next_arch (sampler st0)
       = (Some (arch_id, arch_micro), sampler') →
     is_Some (result st0 !! arch_id) →
     body st0 = Continue {| sampler := sampler';
                            _evaluator := _evaluator st0;
                            explored_n := explored_n st0;
                            result := result st0;
                            scored := scored st0 |}).
Proof.
  intros Hrun.
  destruct (scoring_loop_inv saved _ _ _ _ (loop_inv_initial s ev saved) Hrun)
    as (Hnd & Hsc & Hsaved & _).
  split; [done|]. split; [done|]. split; [done|].
  apply loop_body_hit.
Qed.

(** The bound the code enforces on the evaluations of a run:
    [models_explore + 1], not [models_explore]. *)
Lemma scoring_loop_call_bound s ev saved fuel o st :
  loop fuel (initial s ev saved) = Some (o, st) →
  (Z.of_nat (length (scored st)) ≤ Z.max 0 (models_explore + 1))%Z.
Proof.
  intros Hrun.
  destruct (scoring_loop_inv saved _ _ _ _ (loop_inv_initial s ev saved) Hrun)
    as (_ & _ & _ & Hn & Hle).
  by rewrite <- Hn.
Qed.

End ScoringLoopFacts.

(** ** The budget-aware benchmark *)

Section BudgetFacts.

Import BudgetAware.

(** *** Sampling without replacement *)

Lemma sample_from_spec {A} k (pool : list A) g xs g' :
  NoDup pool →
  sample_from k pool g = Some (xs, g') →
  length xs = k ∧ NoDup xs ∧ (∀ x, x ∈ xs → x ∈ pool) ∧ g' = drop k g.
Proof.
  revert pool g xs g'.
  induction k as [|k IH]; intros pool g xs g' Hnd; cbn.
  - intros [= <- <-]. rewrite drop_0. repeat split; [constructor|].
    intros x Hx. by apply elem_of_nil in Hx.
  - destruct g as [|r g0]; [done|].
    destruct (pool !! (r mod length pool)) as [x|] eqn:Hx; [|done].
    destruct (sample_from k _ g0) as [[xs0 g1]|] eqn:Hrec; [|done].
    intros [= <- <-].
    pose proof (delete_Permutation _ _ _ Hx) as Hperm.
    rewrite Hperm in Hnd. apply NoDup_cons in Hnd as [Hfresh Hnd'].
    destruct (IH _ _ _ _ Hnd' Hrec) as (Hlen & Hnd0 & Hsub & ->).
    split; [cbn; by rewrite Hlen|].
    split; [apply NoDup_cons; split; [|done]; intros Hin; by apply Hfresh, Hsub|].
    split; [|done].
    intros y [->|Hy]%elem_of_cons; rewrite Hperm.
    + by left.
    + right. by apply Hsub.
Qed.

Lemma random_sample_spec {A} (population : list A) k g xs g' :
  NoDup population →
  random_sample population k g = Some (Ok xs, g') →
  length xs = k ∧ NoDup xs ∧ (∀ x, x ∈ xs → x ∈ population) ∧
  g' = drop k g.
Proof.
  intros Hnd. unfold random_sample. case_decide; [done|].
  destruct (sample_from k population g) as [[ys g1]|] eqn:Hs; [|done].
  intros [= <- <-]. by eapply sample_from_spec.
Qed.

Lemma elem_of_range2 start stop x :
  x ∈ range2 start stop ↔ (start ≤ x < stop)%Z.
Proof.
  unfold range2. rewrite list_elem_of_fmap. split.
  - intros (i & -> & Hi). apply elem_of_seq in Hi. lia.
  - intros Hx. exists (Z.to_nat (x - start)). split; [lia|].
    apply elem_of_seq. lia.
Qed.

Lemma NoDup_range2 start stop : NoDup (range2 start stop).
Proof.
  unfold range2. apply NoDup_fmap_2; [|apply NoDup_seq].
  intros i j Hij. lia.
Qed.

Lemma NoDup_search_space_ids : NoDup search_space_ids.
Proof. exact (NoDup_range2 1 15624). Qed.

Lemma elem_of_search_space_ids x :
  x ∈ search_space_ids → (1 ≤ x < 15624)%Z.
Proof. exact (proj1 (elem_of_range2 1 15624 x)). Qed.

(** Every pool of [sample_pools] comes from its own call to
    [random.sample], on the draws left by the calls before it. *)
Lemma sample_pools_spec runs k population g pools g' :
  NoDup population →
  sample_pools runs k population g = Some (Ok pools, g') →
  length pools = runs ∧
  ∀ run_id pool,
    pools !! run_id = Some pool →
    length pool = k ∧ NoDup pool ∧ (∀ x, x ∈ pool → x ∈ population) ∧
    random_sample population k (drop (run_id * k) g)
      = Some (Ok pool, drop (S run_id * k) g).
Proof.
  intros Hnd. revert g pools g'.
  induction runs as [|runs IH]; intros g pools g'; cbn.
  - intros [= <- <-]. split; [done|]. intros i pool Hi.
    by rewrite lookup_nil in Hi.
  - destruct (random_sample population k g) as [[[pool0|e] g1]|] eqn:Hs;
      [|done..].
    destruct (sample_pools runs k population g1) as [[[rest|e] g2]|] eqn:Hr;
      [|done..].
    intros [= <- <-].
    destruct (random_sample_spec _ _ _ _ _ Hnd Hs) as (Hl & Hn & Hsub & ->).
    destruct (IH _ _ _ Hr) as [Hlen Hrest].
    split; [cbn; by rewrite Hlen|].
    intros [|i] pool Hi.
    + injection Hi as <-. cbn. rewrite drop_0, Nat.add_0_r. done.
    + cbn in Hi. destruct (Hrest _ _ Hi) as (H1 & H2 & H3 & H4).
      repeat split; try done.
      rewrite !drop_drop in H4.
      replace (S i * k) with (k + i * k) by lia.
      replace (S (S i) * k) with (k + S i * k) by lia. done.
Qed.

(** *** The budget sweep *)

(** [range] with a positive step: the values [start + i * step] below
    [stop], in increasing order. *)
Lemma range3_positive start stop step :
  (0 < step)%Z →
  ∃ budgets,
    range3 start stop step = Ok budgets ∧
    (∀ (i : nat) b, budgets !! i = Some b →
                    b = (start + Z.of_nat i * step)%Z) ∧
    (∀ (i j : nat) bi bj,
       i < j → budgets !! i = Some bi → budgets !! j = Some bj →
       (bi < bj)%Z) ∧
    (∀ b, b ∈ budgets → (start ≤ b < stop)%Z) ∧
    (∀ i : Z, (0 ≤ i)%Z → (start + i * step < stop)%Z →
              (start + i * step)%Z ∈ budgets) ∧
    ((start < stop)%Z → head budgets = Some start).
Proof.
  intros Hstep. unfold range3.
  rewrite decide_False by lia.
  assert ((0 <? step)%Z = true) as -> by by apply Z.ltb_lt.
  set (n := Z.to_nat ((stop - start + step - 1) / step)).
  eexists. split; [done|].
  assert (Hn : ∀ i : nat, i < n ↔ (start + Z.of_nat i * step < stop)%Z).
  { intros i. subst n.
    destruct (Z.le_gt_cases ((stop - start + step - 1) / step) 0) as [Hq|Hq].
    - rewrite Z2Nat.nonpos by done.
      assert (stop - start + step - 1 < step)%Z.
      { apply Z.nle_gt. intros Hge.
        pose proof (Z.div_le_mono _ _ step Hstep Hge) as Hd.
        rewrite Z.div_same in Hd by lia. lia. }
      split; [lia|]. nia.
    - rewrite Nat2Z.inj_lt, Z2Nat.id by lia.
      pose proof (Z.div_mod (stop - start + step - 1) step ltac:(lia)) as Hdm.
      pose proof (Z.mod_pos_bound (stop - start + step - 1) step Hstep).
      split; intros; nia. }
  assert (Hlk : ∀ (i : nat) b,
    ((λ i : nat, (start + Z.of_nat i * step)%Z) <$> seq 0 n) !! i = Some b ↔
    i < n ∧ b = (start + Z.of_nat i * step)%Z).
  { intros i b. rewrite list_lookup_fmap. split.
    - destruct (seq 0 n !! i) as [k|] eqn:Hk; [|done].
      apply lookup_seq in Hk as [-> Hlt]. cbn. intros [= <-]. done.
    - intros [Hlt ->]. by rewrite (lookup_seq_lt _ _ _ Hlt). }
  split; [intros i b Hb; by apply Hlk in Hb as [_ ->]|].
  split.
  { intros i j bi bj Hij [_ ->]%Hlk [_ ->]%Hlk. nia. }
  split.
  { intros b (i & Hb)%list_elem_of_lookup.
    apply Hlk in Hb as [Hlt ->]. apply Hn in Hlt. nia. }
  split.
  { intros i Hi Hlt. apply list_elem_of_lookup. exists (Z.to_nat i).
    apply Hlk. rewrite Z2Nat.id by done. split; [|done].
    apply Hn. by rewrite Z2Nat.id. }
  intros Hlt. rewrite head_lookup. apply Hlk. split; [|lia].
  apply Hn. lia.
Qed.

(** The step [int(x / 30)] is positive only for a positive [x]: the
    rounded quotient of an integer that is not positive by a positive
    one is not positive, and neither is its truncation. *)
Lemma int_truediv_nonpos a b f z :
  (a ≤ 0)%Z → (0 < b)%Z →
  int_truediv a b = Ok f → int_of_float f = Ok z → (z ≤ 0)%Z.
Proof.
  intros Ha Hb. unfold int_truediv. rewrite decide_False by lia.
  destruct b as [|q|q]; [lia| |lia].
  destruct a as [|p|p]; [| lia |].
  - cbv beta iota delta [SFdiv exact_of_int xorb].
    intros [= <-]. cbn. by intros [= <-].
  - cbv beta iota delta [SFdiv exact_of_int xorb].
    destruct (SFdiv_core_binary _ _ _ _ _ _) as [[mz ez] lz].
    unfold binary_round_aux.
    destruct (shr_fexp prec emax mz ez lz) as [mrs1 e1].
    destruct (shr_fexp _ _ _ _ _) as [mrs2 e2].
    destruct (shr_m mrs2) as [|m|m].
    + intros [= <-]. cbn. by intros [= <-].
    + destruct (e2 <=? emax - prec)%Z; [|done].
      intros [= <-]. unfold int_of_float, int_of_float_with.
      destruct (0 <=? e2)%Z eqn:He; intros [= <-].
      * apply Z.leb_le in He.
        assert (0 < 2 ^ e2)%Z by (apply Z.pow_pos_nonneg; lia). nia.
      * apply Z.leb_gt in He.
        assert (0 < 2 ^ (- e2))%Z by (apply Z.pow_pos_nonneg; lia).
        change (Z.neg m) with (- Z.pos m)%Z. rewrite Z.quot_opp_l by lia.
        assert (0 ≤ Z.pos m ÷ 2 ^ (- e2))%Z by (apply Z.quot_pos; lia).
        lia.
    + intros [= <-]. discriminate.
Qed.

Lemma map_result_Forall2 {A B} (f : A → outcome B) l ys :
  map_result f l = Ok ys → Forall2 (λ x y, f x = Ok y) l ys.
Proof.
  revert ys. induction l as [|x l IH]; intros ys; cbn.
  - intros [= <-]. constructor.
  - destruct (f x) as [y|] eqn:Hx; [|done].
    destruct (map_result f l) as [ys'|]; [|done].
    intros [= <-]. constructor; [done|]. by apply IH.
Qed.

Lemma map_result_ext {A B} (f f' : A → outcome B) l :
  (∀ x, f x = f' x) → map_result f l = map_result f' l.
Proof.
  intros Hext. induction l as [|x l IH]; [done|].
  cbn. by rewrite Hext, IH.
Qed.

Lemma lookup_map {A B} (f : A → B) (l : list A) (i : nat) :
  map f l !! i = f <$> l !! i.
Proof.
  revert i. induction l as [|x l IH]; intros [|i]; cbn; done.
Qed.

(** The values of [range] are [start + i * step], whatever the sign of
    the step. *)
Lemma range3_lookup start stop step budgets (i : nat) b :
  range3 start stop step = Ok budgets → budgets !! i = Some b →
  b = (start + Z.of_nat i * step)%Z.
Proof.
  unfold range3. destruct (decide _); [done|]. intros [= <-].
  rewrite list_lookup_fmap.
  destruct (seq 0 _ !! i) as [k|] eqn:Hk; [|done].
  apply lookup_seq in Hk as [-> _]. by intros [= <-].
Qed.

(** The step of the grid. *)
Lemma budget_grid_step sh time_per_epoch mn fl st :
  budget_grid sh time_per_epoch = Ok (mn, fl, st) →
  int_truediv (fl - mn) 30 ≫= int_of_float = Ok st.
Proof.
  unfold budget_grid.
  intros (e & _ & (mn' & _ & (fl' & _ & (st' & Hst & [= <- <- <-])
     %bind_ok)%bind_ok)%bind_ok)%bind_ok.
  exact Hst.
Qed.

Lemma step_of_small_difference d :
  (-30 < d < 30)%Z → int_truediv d 30 ≫= int_of_float = Ok 0%Z.
Proof.
  intros Hd.
  assert (Hall : forallb (λ d, match int_truediv d 30 ≫= int_of_float with
                               | Ok 0%Z => true
                               | _ => false
                               end) (range2 (-29) 30) = true)
    by (vm_compute; reflexivity).
  rewrite forallb_forall in Hall.
  specialize (Hall d). rewrite <- list_elem_of_In, elem_of_range2 in Hall.
  specialize (Hall ltac:(lia)).
  destruct (int_truediv d 30 ≫= int_of_float) as [[| |]|]; done.
Qed.

Lemma int_truediv_nonneg a b f z :
  (0 ≤ a)%Z → (0 < b)%Z →
  int_truediv a b = Ok f → int_of_float f = Ok z → (0 ≤ z)%Z.
Proof.
  intros Ha Hb. unfold int_truediv. rewrite decide_False by lia.
  destruct b as [|q|q]; [lia| |lia].
  destruct a as [|p|p]; [| |lia].
  - cbv beta iota delta [SFdiv exact_of_int xorb].
    intros [= <-]. cbn. by intros [= <-].
  - cbv beta iota delta [SFdiv exact_of_int xorb].
    destruct (SFdiv_core_binary _ _ _ _ _ _) as [[mz ez] lz].
    unfold binary_round_aux.
    destruct (shr_fexp prec emax mz ez lz) as [mrs1 e1].
    destruct (shr_fexp _ _ _ _ _) as [mrs2 e2].
    destruct (shr_m mrs2) as [|m|m].
    + intros [= <-]. cbn. by intros [= <-].
    + destruct (e2 <=? emax - prec)%Z; [|done].
      intros [= <-]. unfold int_of_float, int_of_float_with.
      destruct (0 <=? e2)%Z eqn:He; intros [= <-].
      * apply Z.leb_le in He.
        assert (0 < 2 ^ e2)%Z by (apply Z.pow_pos_nonneg; lia). nia.
      * apply Z.leb_gt in He.
        assert (0 < 2 ^ (- e2))%Z by (apply Z.pow_pos_nonneg; lia).
        apply Z.quot_pos; lia.
    + intros [= <-]. discriminate.
Qed.

(** [range] with a negative step: the values [start + i * step] above
    [stop], in decreasing order. *)
Lemma range3_negative start stop step :
  (step < 0)%Z →
  ∃ budgets,
    range3 start stop step = Ok budgets ∧
    (∀ (i j : nat) bi bj,
       (i < j)%nat → budgets !! i = Some bi → budgets !! j = Some bj →
       (bj < bi)%Z) ∧
    (∀ b, b ∈ budgets → (stop < b ≤ start)%Z) ∧
    (∀ i : Z, (0 ≤ i)%Z → (stop < start + i * step)%Z →
              (start + i * step)%Z ∈ budgets) ∧
    ((stop < start)%Z → head budgets = Some start).
Proof.
  intros Hstep. unfold range3.
  rewrite decide_False by lia.
  assert ((0 <? step)%Z = false) as -> by (apply Z.ltb_ge; lia).
  set (n := Z.to_nat ((start - stop - step - 1) / - step)).
  eexists. split; [done|].
  assert (Hn : ∀ i : nat,
            (i < n)%nat ↔ (stop < start + Z.of_nat i * step)%Z).
  { intros i. subst n.
    assert (Hs : (0 < - step)%Z) by lia.
    destruct (Z.le_gt_cases ((start - stop - step - 1) / - step) 0)
      as [Hq|Hq].
    - rewrite Z2Nat.nonpos by done.
      assert (start - stop - step - 1 < - step)%Z.
      { apply Z.nle_gt. intros Hge.
        pose proof (Z.div_le_mono _ _ (- step) Hs Hge) as Hd.
        rewrite Z.div_same in Hd by lia. lia. }
      split; [lia|]. nia.
    - rewrite Nat2Z.inj_lt, Z2Nat.id by lia.
      pose proof (Z.div_mod (start - stop - step - 1) (- step) ltac:(lia))
        as Hdm.
      pose proof (Z.mod_pos_bound (start - stop - step - 1) (- step) Hs).
      split; intros; nia. }
  assert (Hlk : ∀ (i : nat) b,
    ((λ i : nat, (start + Z.of_nat i * step)%Z) <$> seq 0 n) !! i = Some b ↔
    (i < n)%nat ∧ b = (start + Z.of_nat i * step)%Z).
  { intros i b. rewrite list_lookup_fmap. split.
    - destruct (seq 0 n !! i) as [k|] eqn:Hk; [|done].
      apply lookup_seq in Hk as [-> Hlt]. cbn. intros [= <-]. done.
    - intros [Hlt ->]. by rewrite (lookup_seq_lt _ _ _ Hlt). }
  split.
  { intros i j bi bj Hij [_ ->]%Hlk [_ ->]%Hlk. nia. }
  split.
  { intros b (i & Hb)%list_elem_of_lookup.
    apply Hlk in Hb as [Hlt ->]. apply Hn in Hlt. nia. }
  split.
  { intros i Hi Hlt. apply list_elem_of_lookup. exists (Z.to_nat i).
    apply Hlk. rewrite Z2Nat.id by done. split; [|done].
    apply Hn. by rewrite Z2Nat.id. }
  intros Hlt. rewrite head_lookup. apply Hlk. split; [|lia].
  apply Hn. lia.
Qed.

End BudgetFacts.

Section BenchmarkClaims.

Import FilteringLatency BudgetAware.


Lemma sample_pools_drawn :
  sample_all_models Samples.draws0
    = Some (Ok Samples.pools0, Samples.draws0_left).
Proof.
  assert (Hok : match sample_all_models Samples.draws0 with
                | Some (Ok _, _) => true
                | _ => false
                end = true) by (vm_compute; reflexivity).
  unfold Samples.pools0, Samples.draws0_left, Samples.pools_of,
    Samples.draws_left.
  destruct (sample_all_models Samples.draws0) as [[[p|e] g1]|];
    [reflexivity|discriminate Hok|discriminate Hok].
Qed.


(** The sweep is not increasing when the step is not positive: with a
    smallest budget above the budget of full training the same [range]
    runs downwards, and a zero step is refused. *)
Example sweep_with_other_steps :
  range3 100 10 (-30) = Ok [100; 70; 40]%Z ∧
  range3 10 20 0 = Raise ValueError.
Proof. split; reflexivity. Qed.

(** C3 on a run that draws ["a"], ["b"] and ["a"] again. *)
Lemma scoring_loop_scores_once_witness :
  ∃ o st,
    Samples.scoring_sample 5 10 [("a", tt); ("b", tt); ("a", tt)] ∅
      = Some (o, st) ∧
    NoDup (scored st).*1 ∧
    (∀ id sc, (id, sc) ∈ scored st →
              (∅ : gmap string Z) !! id = None ∧ result st !! id = Some sc).
Proof.
  destruct (Samples.scoring_sample 5 10 [("a", tt); ("b", tt); ("a", tt)] ∅)
    as [[o st]|] eqn:Hrun; [|vm_compute in Hrun; discriminate Hrun].
  exists o, st. split; [reflexivity|].
  destruct (scoring_loop_scores_once Samples.list_sampler (λ _, "8")
              Samples.counting_evaluator 5 _ _ _ _ _ _ Hrun)
    as (Hnd & Hsc & _).
  split; [exact Hnd|exact Hsc].
Defined.

(** C4 at the failing input: with [models_explore = 1] and a sampler
    that offers three new candidates, two of them are evaluated. *)
Theorem scoring_loop_exceeds_models_explore :
  (λ '(o, st), (o, scored st, _evaluator st, explored_n st))
    <$> Samples.scoring_sample 1 10 [("a", tt); ("b", tt); ("c", tt)] ∅
  = Some (Ok tt, [("a", 1%Z); ("b", 1%Z)], 2, 2%Z).
Proof. vm_compute. reflexivity. Qed.

(** With [models_explore = 0] one candidate is still evaluated. *)
Example scoring_loop_with_zero_budget :
  (λ '(o, st), (o, scored st, _evaluator st, explored_n st))
    <$> Samples.scoring_sample 0 10 [("a", tt); ("b", tt)] ∅
  = Some (Ok tt, [("a", 1%Z)], 1, 1%Z).
Proof. vm_compute. reflexivity. Qed.

End BenchmarkClaims.

(** ** The MLP search space, further methods *)

Section EncodingFacts.

Import MlpSpace MlpSpaceMore.

Lemma split_app_any sep a b :
  split sep (a +:+ String sep b) = split sep a ++ split sep b.
Proof.
  induction a as [|c a IH]; simpl.
  - by rewrite Ascii.eqb_refl.
  - destruct (Ascii.eqb c sep); [by rewrite IH|].
    rewrite IH.
    destruct (split sep a) as [|p ps] eqn:E; [by apply split_nonempty in E|].
    done.
Qed.

Lemma split_join_pieces sep l :
  l ≠ [] →
  split sep (join (String sep "") l) = mjoin (split sep <$> l).
Proof.
  intros Hne. induction l as [|p l IH]; [done|].
  destruct l as [|q l].
  - cbn. by rewrite app_nil_r.
  - unfold join in *. cbn [String.concat].
    change (String sep "" +:+ ?t) with (String sep t).
    rewrite split_app_any, (fmap_cons (split sep) p).
    change (mjoin (?a :: ?b)) with (a ++ mjoin b).
    f_equal. by apply IH.
Qed.

Lemma int_of_str_raises s e : int_of_str s = Raise e → e = ValueError.
Proof.
  unfold int_of_str. repeat case_match; congruence.
Qed.

Lemma map_result_int_of_str_raises ps e :
  map_result int_of_str ps = Raise e → e = ValueError.
Proof.
  induction ps as [|p ps IH]; [done|]. cbn.
  destruct (int_of_str p) as [z|e0] eqn:Hp.
  - destruct (map_result int_of_str ps); [done|].
    intros [= <-]. by apply IH.
  - intros [= <-]. by eapply int_of_str_raises.
Qed.

Lemma map_result_empty_piece ps :
  "" ∈ ps → map_result int_of_str ps = Raise ValueError.
Proof.
  induction ps as [|p ps IH]; intros Hin; [by apply elem_of_nil in Hin|].
  apply elem_of_cons in Hin as [<-|Hin]; [done|].
  cbn. destruct (int_of_str p) as [z|e] eqn:Hp.
  - by rewrite IH.
  - by rewrite (int_of_str_raises _ _ Hp).
Qed.

Lemma str_of_int_negative z :
  (z < 0)%Z → ∃ t, str_of_int z = String "-" t.
Proof.
  destruct z as [|p|p]; [lia..|]. intros _.
  unfold str_of_int. cbn. by eexists.
Qed.

Lemma encode_negative_has_empty_piece l :
  Exists (λ z, z < 0)%Z l → "" ∈ split "-" (encode_layers l).
Proof.
  intros Hex. unfold encode_layers.
  rewrite (split_join_pieces "-"%char) by (by destruct Hex).
  apply list_elem_of_join. apply Exists_exists in Hex as (z & Hz & Hneg).
  destruct (str_of_int_negative z Hneg) as [t Ht].
  exists (split "-" (str_of_int z)). split.
  - rewrite Ht. cbn. by left.
  - rewrite <- list_fmap_compose. apply list_elem_of_fmap. by exists z.
Qed.

(** Decoding the encoding of a list with a negative size raises
    [ValueError]. *)
Lemma decode_encode_negative l :
  Exists (λ z, z < 0)%Z l →
  decode_layers (encode_layers l) = Raise ValueError.
Proof.
  intros Hneg. unfold decode_layers.
  by apply map_result_empty_piece, encode_negative_has_empty_piece.
Qed.

(** X1.  A configuration with a negative size has an encoding, but the
    encoding cannot be read back: the minus sign is taken for a
    separator, a piece of the text is empty, and
    [deserialize_model_encoding] fails with [ValueError]. *)
Theorem negative_size_not_decodable (h : store) (m : MlpMicroCfg)
    (l : list Z) :
  h !! hidden_layer_list m = Some l →
  Exists (λ z, z < 0)%Z l →
  ∃ s, serialize_model_encoding h m = Some s ∧
       "" ∈ split "-" s ∧
       ∀ h', deserialize_model_encoding s h' = Raise ValueError.
Proof.
  intros Hl Hneg. exists (encode_layers l). split; [|split].
  - unfold serialize_model_encoding, cfg_str. by rewrite Hl.
  - by apply encode_negative_has_empty_piece.
  - intros h'. unfold deserialize_model_encoding, builder.
    by rewrite decode_encode_negative.
Qed.

Lemma negative_size_not_decodable_witness :
  ∃ s, serialize_model_encoding [[8; -16]%Z] {| hidden_layer_list := 0 |}
         = Some s ∧
       "" ∈ split "-" s ∧
       ∀ h', deserialize_model_encoding s h' = Raise ValueError.
Proof.
  apply (negative_size_not_decodable [[8; -16]%Z]
           {| hidden_layer_list := 0 |} [8; -16]%Z eq_refl).
  apply Exists_cons_tl, Exists_cons_hd. lia.
Defined.

Lemma str_of_int_inj z1 z2 :
  (0 ≤ z1)%Z → (0 ≤ z2)%Z → str_of_int z1 = str_of_int z2 → z1 = z2.
Proof.
  intros H1 H2 Heq.
  destruct (str_of_int_nonneg z1 H1) as [E1 _].
  destruct (str_of_int_nonneg z2 H2) as [E2 _].
  rewrite E1, E2 in Heq.
  apply (f_equal NilEmpty.uint_of_string) in Heq.
  rewrite !NilEmpty.usu in Heq. injection Heq as Heq.
  apply DecimalN.Unsigned.to_uint_inj in Heq. lia.
Qed.

Lemma str_of_int_nonempty z : (0 ≤ z)%Z → str_of_int z ≠ "".
Proof.
  intros Hz. destruct (str_of_int_nonneg z Hz) as [-> Hnil].
  by destruct (N.to_uint (Z.to_N z)).
Qed.

Lemma split_encode_layers l :
  l ≠ [] → Forall (λ z, 0 ≤ z)%Z l →
  split "-" (encode_layers l) = str_of_int <$> l.
Proof.
  intros Hne Hpos. unfold encode_layers. apply (split_join "-"%char).
  - by destruct l.
  - apply Forall_fmap. eapply Forall_impl; [exact Hpos|].
    intros z Hz. by apply str_of_int_split.
Qed.

Lemma encode_layers_inj (l1 l2 : list Z) :
  Forall (λ z, 0 ≤ z)%Z l1 → Forall (λ z, 0 ≤ z)%Z l2 →
  encode_layers l1 = encode_layers l2 → l1 = l2.
Proof.
  intros Hp1 Hp2 Heq.
  apply (f_equal (split "-")) in Heq.
  destruct l1 as [|z1 l1], l2 as [|z2 l2]; [done| | |].
  - rewrite (split_encode_layers (z2 :: l2)) in Heq by done.
    injection Heq as Hz _. symmetry in Hz.
    apply Forall_cons_1 in Hp2 as [Hz2 _].
    by apply str_of_int_nonempty in Hz.
  - rewrite (split_encode_layers (z1 :: l1)) in Heq by done.
    injection Heq as Hz _.
    apply Forall_cons_1 in Hp1 as [Hz1 _].
    by apply str_of_int_nonempty in Hz.
  - rewrite !split_encode_layers in Heq by done.
    revert Heq Hp1 Hp2. generalize (z1 :: l1) (z2 :: l2).
    clear. intros l1. induction l1 as [|x l1 IH]; intros [|y l2]; try done.
    rewrite !fmap_cons. intros [= Hxy Hrest].
    intros [Hx Hl1]%Forall_cons_1 [Hy Hl2]%Forall_cons_1.
    f_equal; [by apply str_of_int_inj|by apply IH].
Qed.

(** X2.  Identifiers are unique: two stored configurations without
    negative sizes that have the same encoding have the same list of
    sizes. *)
Theorem encoding_injective (h : store) (m1 m2 : MlpMicroCfg)
    (l1 l2 : list Z) (s : string) :
  h !! hidden_layer_list m1 = Some l1 →
  h !! hidden_layer_list m2 = Some l2 →
  Forall (λ z, 0 ≤ z)%Z l1 → Forall (λ z, 0 ≤ z)%Z l2 →
  serialize_model_encoding h m1 = Some s →
  serialize_model_encoding h m2 = Some s →
  l1 = l2.
Proof.
  intros H1 H2 Hp1 Hp2 Hs1 Hs2.
  unfold serialize_model_encoding, cfg_str in *.
  rewrite H1 in Hs1. rewrite H2 in Hs2. cbn in Hs1, Hs2.
  apply encode_layers_inj; [done..|].
  unfold encode_layers. congruence.
Qed.

Lemma encoding_injective_witness :
  [8; 16]%Z = [8; 16]%Z.
Proof.
  exact (encoding_injective [[8; 16]; [8; 16]]%Z
           {| hidden_layer_list := 0 |} {| hidden_layer_list := 1 |}
           [8; 16]%Z [8; 16]%Z "8-16" eq_refl eq_refl
           ltac:(repeat constructor; lia) ltac:(repeat constructor; lia)
           eq_refl eq_refl).
Defined.

End EncodingFacts.

Section MutationFacts.

Import MlpSpace MlpSpaceMore.

Implicit Types (h : store) (g : rng) (cfg : MlpMacroCfg).

Lemma random_choice_draw {A} (l : list A) r g x :
  l !! (r mod length l) = Some x →
  random_choice l (r :: g) = Some (Ok x, g).
Proof.
  intros Hx. unfold random_choice.
  destruct l as [|x0 l]; [done|].
  by rewrite (nth_lookup_Some _ _ _ _ Hx).
Qed.

(** A draw that gives the current size again costs one pass and
    changes nothing. *)
Lemma choose_layer_size_again fuel cfg child idx h g l cur r :
  h !! child = Some l → l !! idx = Some cur →
  layer_choices cfg !! (r mod length (layer_choices cfg)) = Some cur →
  choose_layer_size (S fuel) cfg child idx h (r :: g)
  = choose_layer_size fuel cfg child idx h g.
Proof.
  intros Hl Hcur Hr. cbn [choose_layer_size]. rewrite Hl, Hcur.
  rewrite (random_choice_draw _ _ _ _ Hr). by rewrite decide_False by auto.
Qed.

Lemma choose_layer_size_redraws fuel cfg child idx h g l cur rs :
  h !! child = Some l → l !! idx = Some cur →
  Forall (λ r, layer_choices cfg !! (r mod length (layer_choices cfg))
               = Some cur) rs →
  choose_layer_size (length rs + fuel) cfg child idx h (rs ++ g)
  = choose_layer_size fuel cfg child idx h g.
Proof.
  intros Hl Hcur Hall. induction Hall as [|r rs Hr _ IH]; [done|].
  cbn [length Nat.add app].
  by rewrite (choose_layer_size_again _ _ _ _ _ _ _ _ _ Hl Hcur Hr).
Qed.

Lemma choose_layer_size_differs fuel cfg child idx h g l cur r m :
  h !! child = Some l → l !! idx = Some cur →
  layer_choices cfg !! (r mod length (layer_choices cfg)) = Some m →
  m ≠ cur →
  choose_layer_size (S fuel) cfg child idx h (r :: g)
  = Some (Ok tt, store_set child idx m h, g).
Proof.
  intros Hl Hcur Hr Hne. cbn [choose_layer_size]. rewrite Hl, Hcur.
  rewrite (random_choice_draw _ _ _ _ Hr). by rewrite decide_True.
Qed.

(** When every choice is the current size the loop has no way out. *)
Lemma choose_layer_size_stuck fuel cfg child idx h g l cur :
  h !! child = Some l → l !! idx = Some cur →
  layer_choices cfg ≠ [] →
  (∀ c, c ∈ layer_choices cfg → c = cur) →
  choose_layer_size fuel cfg child idx h g = None.
Proof.
  intros Hl Hcur Hne Hall. revert g.
  induction fuel as [|fuel IH]; intros g; [done|].
  cbn [choose_layer_size]. rewrite Hl, Hcur.
  destruct (random_choice (layer_choices cfg) g) as [[[m|e] g1]|] eqn:Hr;
    [| |done].
  - rewrite decide_False; [apply IH|].
    intros Hm. apply Hm, Hall. by eapply random_choice_elem.
  - unfold random_choice in Hr.
    destruct (layer_choices cfg); [done|]. by destruct g.
Qed.

Lemma store_set_alloc (h : store) l idx x :
  store_set (length h) idx x (h ++ [l]) = h ++ [<[idx := x]> l].
Proof.
  unfold store_set. apply list_eq. intros i.
  destruct (decide (i = length h)) as [->|Hne].
  - rewrite list_lookup_alter_eq, !list_lookup_middle by done. done.
  - rewrite list_lookup_alter_ne by done.
    destruct (decide (i < length h)).
    + by rewrite !lookup_app_l by done.
    + rewrite !lookup_ge_None_2; [done|rewrite length_app; cbn; lia..].
Qed.

(** X3.  [mutate_architecture] returns as soon as a draw gives a size
    that differs from the one at the chosen position: after the draw
    [r] for the position and the draws [again] that give the current
    size back, the draw [r'] of another size ends the loop.  The child
    is the parent with that one size replaced, stored in a new list;
    the draws after [r'] are untouched. *)
Theorem mutate_architecture_returns fuel cfg parent h g parent_list
    r again r' cur mutated :
  h !! hidden_layer_list parent = Some parent_list →
  parent_list !! (r mod length parent_list) = Some cur →
  Forall (λ d, layer_choices cfg !! (d mod length (layer_choices cfg))
               = Some cur) again →
  layer_choices cfg !! (r' mod length (layer_choices cfg)) = Some mutated →
  mutated ≠ cur →
  let child_list := <[r mod length parent_list := mutated]> parent_list in
  mutate_architecture (length again + S fuel) cfg parent h
    (r :: again ++ r' :: g)
  = Some (Ok (encode_layers child_list, {| hidden_layer_list := length h |}),
          h ++ [child_list], g).
Proof.
  intros Hp Hcur Hagain Hr' Hne child_list.
  unfold mutate_architecture, alloc. rewrite Hp.
  assert (Hidx : range (length parent_list)
                 !! (r mod length (range (length parent_list)))
                 = Some (r mod length parent_list)).
  { unfold range. rewrite length_seq. apply lookup_seq.
    split; [done|]. apply Nat.mod_upper_bound.
    intros Hz. by rewrite Hz, Nat.mod_0_r, lookup_ge_None_2 in Hcur
      by (rewrite Hz; lia). }
  rewrite (random_choice_draw _ _ _ _ Hidx).
  assert (Hchild : (h ++ [parent_list]) !! length h = Some parent_list)
    by by apply list_lookup_middle.
  rewrite (choose_layer_size_redraws _ _ _ _ _ _ _ _ _ Hchild Hcur Hagain).
  rewrite (choose_layer_size_differs _ _ _ _ _ _ _ _ _ _ Hchild Hcur Hr' Hne).
  rewrite store_set_alloc. unfold cfg_str. cbn [hidden_layer_list].
  by rewrite list_lookup_middle.
Qed.

Lemma mutate_architecture_returns_witness :
  mutate_architecture 3 Samples.cfg3 Samples.arch0 Samples.store0
    [1; 1; 4; 0; 7]
  = Some (Ok ("8-8-32", {| hidden_layer_list := 1 |}),
          [[8; 16; 32]; [8; 8; 32]]%Z, [7]).
Proof.
  exact (mutate_architecture_returns 1 Samples.cfg3 Samples.arch0
           Samples.store0 [7] [8; 16; 32]%Z 1 [1; 4] 0 16%Z 8%Z
           eq_refl eq_refl
           ltac:(repeat constructor) eq_refl ltac:(discriminate)).
Defined.

(** X4.  [mutate_architecture] never returns when the layer choices
    offer no size other than the parent's: for a parent whose sizes all
    equal every choice, no amount of fuel and no supply of draws gives
    an outcome. *)
Theorem mutate_architecture_no_other_size fuel cfg parent h g parent_list :
  h !! hidden_layer_list parent = Some parent_list →
  parent_list ≠ [] →
  layer_choices cfg ≠ [] →
  (∀ c x, c ∈ layer_choices cfg → x ∈ parent_list → c = x) →
  mutate_architecture fuel cfg parent h g = None.
Proof.
  intros Hp Hne Hch Hall. unfold mutate_architecture, alloc. rewrite Hp.
  destruct (random_choice (range (length parent_list)) g)
    as [[[idx|e] g1]|] eqn:Hr; [| |done].
  - apply random_choice_elem in Hr. apply elem_of_seq in Hr.
    destruct (lookup_lt_is_Some_2 parent_list idx ltac:(lia)) as [cur Hcur].
    rewrite (choose_layer_size_stuck fuel cfg (length h) idx
               (h ++ [parent_list]) g1 parent_list cur); [done| |done..|].
    + by apply list_lookup_middle.
    + intros c Hc. apply Hall; [done|]. by eapply list_elem_of_lookup_2.
  - unfold random_choice, range in Hr.
    destruct parent_list; [done|]. cbn in Hr. by destruct g.
Qed.

Lemma mutate_architecture_no_other_size_witness :
  mutate_architecture 100 {| layer_choices := [8]%Z; num_layers := 2 |}
    Samples.arch0 [[8; 8]%Z] [0; 1; 2; 3] = None.
Proof.
  apply (mutate_architecture_no_other_size 100
           {| layer_choices := [8]%Z; num_layers := 2 |} Samples.arch0
           [[8; 8]%Z] [0; 1; 2; 3] [8; 8]%Z eq_refl); [done..|].
  intros c x Hc Hx. cbn in Hc.
  apply list_elem_of_singleton in Hc as ->.
  repeat (apply elem_of_cons in Hx as [->|Hx]; [done|]).
  by apply elem_of_nil in Hx.
Defined.

(** X5.  The two calls of [random.choice] in [mutate_architecture] fail
    on an empty sequence: a parent without hidden layers, or an empty
    list of layer choices, ends the call with [IndexError].  The copy
    of the parent's list is made before. *)
Theorem mutate_architecture_index_error fuel cfg parent h g parent_list :
  h !! hidden_layer_list parent = Some parent_list →
  (parent_list = [] →
   mutate_architecture fuel cfg parent h g
   = Some (Raise IndexError, h ++ [[]], g)) ∧
  (parent_list ≠ [] → layer_choices cfg = [] →
   ∀ r g', g = r :: g' →
   mutate_architecture (S fuel) cfg parent h g
   = Some (Raise IndexError, h ++ [parent_list], g')).
Proof.
  intros Hp. split.
  - intros ->. unfold mutate_architecture, alloc. by rewrite Hp.
  - intros Hne Hch r g' ->. unfold mutate_architecture, alloc. rewrite Hp.
    destruct (lookup_lt_is_Some_2 parent_list (r mod length parent_list))
      as [cur Hcur].
    { apply Nat.mod_upper_bound. by destruct parent_list. }
    assert (Hidx : range (length parent_list)
                   !! (r mod length (range (length parent_list)))
                   = Some (r mod length parent_list)).
    { unfold range. rewrite length_seq. apply lookup_seq.
      split; [done|]. apply Nat.mod_upper_bound. by destruct parent_list. }
    rewrite (random_choice_draw _ _ _ _ Hidx).
    cbn [choose_layer_size].
    rewrite list_lookup_middle by done. rewrite Hcur, Hch. done.
Qed.

Lemma mutate_architecture_index_error_witness :
  mutate_architecture 1 Samples.cfg3 Samples.arch0 [[]] [0]
    = Some (Raise IndexError, [[]; []], [0]) ∧
  mutate_architecture 1 {| layer_choices := []; num_layers := 3 |}
    Samples.arch0 Samples.store0 [0; 1]
    = Some (Raise IndexError, [[8; 16; 32]; [8; 16; 32]]%Z, [1]).
Proof.
  split.
  - exact (proj1 (mutate_architecture_index_error 1 Samples.cfg3
                    Samples.arch0 [[]] [0] [] eq_refl) eq_refl).
  - exact (proj2 (mutate_architecture_index_error 0
                    {| layer_choices := []; num_layers := 3 |}
                    Samples.arch0 Samples.store0 [0; 1] [8; 16; 32]%Z
                    eq_refl) ltac:(discriminate) eq_refl 0 [1] eq_refl).
Defined.

End MutationFacts.

Section MoveProposalFacts.

Import MlpSpace MlpSpaceMore.

Implicit Types (h : store) (g : rng) (cfg : MlpMacroCfg).

Lemma move_proposal_loop_spec (fuel : nat) cfg (h0 : store) (n i : nat)
    (acc : list (string * MlpMicroCfg)) (cur : list Z) g
    (pairs : list (string * MlpMicroCfg)) h' g' :
  (i + n ≤ length cur)%nat →
  move_proposal_loop fuel cfg (length h0) (seq i n) acc (h0 ++ [cur]) g
    = Some (Ok pairs, h', g') →
  ∃ final new_pairs,
    h' = h0 ++ [final] ∧ pairs = acc ++ new_pairs ∧
    length final = length cur ∧ length new_pairs = n ∧
    (∀ j : nat, (j < i ∨ i + n ≤ j)%nat → final !! j = cur !! j) ∧
    (∀ (j : nat) c, (i ≤ j < i + n)%nat → cur !! j = Some c →
            ∃ m, final !! j = Some m ∧ m ≠ c ∧ m ∈ layer_choices cfg) ∧
    (∀ (k : nat) p, new_pairs !! k = Some p →
            p = (encode_layers (proposal_at (i + k) final cur),
                 {| hidden_layer_list := length h0 |})).
Proof.
  revert i acc cur g.
  induction n as [|n IH]; intros i acc cur g Hlen; cbn [seq move_proposal_loop].
  - intros [= <- <- <-]. exists cur, [].
    rewrite app_nil_r.
    split; [done|]. split; [done|]. split; [done|]. split; [done|].
    split; [done|]. split.
    + intros j c Hj. lia.
    + intros k p Hk. by rewrite lookup_nil in Hk.
  - assert (Hchild : (h0 ++ [cur]) !! length h0 = Some cur)
      by by apply list_lookup_middle.
    destruct (choose_layer_size fuel cfg (length h0) i (h0 ++ [cur]) g)
      as [[[[[]|e] h1] g1]|] eqn:Hc; [|done..].
    pose proof (choose_layer_size_spec _ _ _ _ _ _ _ _ _ _ Hchild Hc)
      as (m & c & Hcur & Hin & Hne & ->).
    rewrite store_set_alloc. unfold cfg_str. cbn [hidden_layer_list].
    rewrite list_lookup_middle by done. cbn [mbind option_bind].
    intros Hrun.
    destruct (IH (S i) _ (<[i := m]> cur) g1
                ltac:(rewrite length_insert; lia) Hrun)
      as (final & rest & -> & -> & Hfl & Hrl & Hsame & Hdiff & Hids).
    rewrite length_insert in Hfl.
    exists final, ((encode_layers (<[i := m]> cur),
                    {| hidden_layer_list := length h0 |}) :: rest).
    split; [done|]. split; [by rewrite <- app_assoc|].
    split; [done|]. split; [cbn; by rewrite Hrl|].
    assert (Hfi : final !! i = Some m).
    { rewrite Hsame by lia. apply list_lookup_insert_eq.
      by eapply lookup_lt_Some. }
    split; [|split].
    + intros j Hj. rewrite Hsame by lia.
      apply list_lookup_insert_ne. lia.
    + intros j c' Hj Hcj. destruct (decide (j = i)) as [->|Hji].
      * exists m. rewrite Hcur in Hcj. injection Hcj as <-. done.
      * apply (Hdiff j c'); [lia|].
        by rewrite list_lookup_insert_ne by done.
    + intros [|k] p Hk.
      * injection Hk as <-. f_equal. f_equal.
        unfold proposal_at. rewrite Nat.add_0_r.
        rewrite <- (take_drop (S i) (<[i := m]> cur)) at 1.
        f_equal.
        -- apply list_eq. intros j.
           destruct (decide (j < S i)).
           ++ rewrite !lookup_take_lt by done. symmetry. apply Hsame. lia.
           ++ by rewrite !lookup_take_ge by lia.
        -- by rewrite drop_insert_lt by lia.
      * cbn in Hk. rewrite (Hids _ _ Hk). f_equal. f_equal.
        unfold proposal_at.
        replace (i + S k) with (S i + k) by lia.
        by rewrite drop_insert_lt by lia.
Qed.

Lemma proposal_at_lookup_le (k j : nat) (final parent_list : list Z) :
  (j ≤ k)%nat → (j < length final)%nat →
  proposal_at k final parent_list !! j = final !! j.
Proof.
  intros Hjk Hj. unfold proposal_at.
  rewrite lookup_app_l by (rewrite length_take; lia).
  apply lookup_take_lt. lia.
Qed.

Lemma proposal_at_lookup_gt (k j : nat) (final parent_list : list Z) :
  (k < j)%nat → length final = length parent_list →
  proposal_at k final parent_list !! j = parent_list !! j.
Proof.
  intros Hkj Hlen. unfold proposal_at.
  destruct (decide (j < length parent_list)%nat) as [Hj|Hj].
  - rewrite lookup_app_r by (rewrite length_take; lia).
    rewrite length_take, lookup_drop. f_equal. lia.
  - rewrite (lookup_ge_None_2 parent_list) by lia.
    apply lookup_ge_None_2.
    rewrite length_app, length_take, length_drop. lia.
Qed.

Lemma proposal_at_last (k : nat) (final parent_list : list Z) :
  length final = length parent_list → (length parent_list ≤ S k)%nat →
  proposal_at k final parent_list = final.
Proof.
  intros Hlen Hk. unfold proposal_at.
  rewrite take_ge, drop_ge by lia. apply app_nil_r.
Qed.

(** The outcome of the move proposal, with the pairs in the order they
    were added. *)
Lemma move_proposal_run (fuel : nat) cfg (parent : MlpMicroCfg) h g
    (pairs : list (string * MlpMicroCfg)) h' g' (parent_list : list Z) :
  h !! hidden_layer_list parent = Some parent_list →
  mutate_architecture_move_proposal fuel cfg parent h g
    = Some (Ok pairs, h', g') →
  ∃ final,
    h' = h ++ [final] ∧
    length final = length parent_list ∧
    (∀ (j : nat) c, parent_list !! j = Some c →
            ∃ m, final !! j = Some m ∧ m ≠ c ∧ m ∈ layer_choices cfg) ∧
    pairs = (λ k, (encode_layers (proposal_at k final parent_list),
                   {| hidden_layer_list := length h |}))
              <$> seq 0 (length parent_list).
Proof.
  intros Hp. unfold mutate_architecture_move_proposal, alloc, range.
  rewrite Hp. intros Hrun.
  destruct (move_proposal_loop_spec fuel cfg h (length parent_list) 0 []
              parent_list g pairs h' g' (le_n _) Hrun)
    as (final & new_pairs & -> & -> & Hfl & Hnl & _ & Hdiff & Hids).
  exists final. split; [done|]. split; [done|]. split.
  - intros j c Hj. apply (Hdiff j c); [|done].
    apply lookup_lt_Some in Hj. lia.
  - cbn [app]. apply list_eq. intros k.
    rewrite list_lookup_fmap.
    destruct (new_pairs !! k) as [p|] eqn:Hk.
    + rewrite (Hids _ _ Hk). apply lookup_lt_Some in Hk.
      rewrite lookup_seq_lt by lia. done.
    + apply lookup_ge_None_1 in Hk.
      rewrite lookup_seq_ge by lia. done.
Qed.

(** X6.  [mutate_architecture_move_proposal] changes the copied list at
    every position in turn, so the list it ends with differs from the
    parent at every position, by a size from the layer choices.  It
    returns one pair per position.  Every pair holds the same list
    object, the copy; the identifiers are the encodings the copy had
    after each change, with the later positions still as in the
    parent. *)
Theorem move_proposal_pairs (fuel : nat) cfg (parent : MlpMicroCfg) h g
    (pairs : list (string * MlpMicroCfg)) h' g' (parent_list : list Z) :
  h !! hidden_layer_list parent = Some parent_list →
  mutate_architecture_move_proposal fuel cfg parent h g
    = Some (Ok pairs, h', g') →
  ∃ final,
    h' = h ++ [final] ∧
    length final = length parent_list ∧
    (∀ (j : nat) c, parent_list !! j = Some c →
            ∃ m, final !! j = Some m ∧ m ≠ c ∧ m ∈ layer_choices cfg) ∧
    length pairs = length parent_list ∧
    Forall (λ p, hidden_layer_list p.2 = length h) pairs ∧
    pairs.*1 ≡ₚ (λ k, encode_layers (proposal_at k final parent_list))
                  <$> seq 0 (length parent_list).
Proof.
  intros Hp Hrun.
  destruct (move_proposal_run _ _ _ _ _ _ _ _ _ Hp Hrun)
    as (final & -> & Hfl & Hdiff & ->).
  exists final. split; [done|]. split; [done|]. split; [done|].
  split; [by rewrite length_fmap, length_seq|]. split.
  - apply Forall_fmap. by apply Forall_forall.
  - rewrite <- list_fmap_compose.
    by apply eq_reflexive_Permutation || reflexivity.
Qed.

Lemma move_proposal_pairs_witness :
  ∃ final,
    [[8; 16; 32]; [16; 8; 16]]%Z = Samples.store0 ++ [final] ∧
    length final = 3 ∧
    (∀ (j : nat) c, [8; 16; 32]%Z !! j = Some c →
            ∃ m, final !! j = Some m ∧ m ≠ c ∧ m ∈ [8; 16; 32]%Z).
Proof.
  destruct (move_proposal_pairs 5 Samples.cfg3 Samples.arch0 Samples.store0
              [1; 0; 2; 1; 0] _ _ _ [8; 16; 32]%Z eq_refl eq_refl)
    as (final & H1 & H2 & H3 & _).
  exists final. split; [exact H1|]. split; [exact H2|exact H3].
Defined.

(** X7.  The pairs that [mutate_architecture_move_proposal] returns
    have pairwise different identifiers, and the identifier of a pair is
    the encoding of the configuration it comes with only if it is the
    encoding of the final list: the list has been changed again after
    every pair but the one made last.  (Sizes are taken not to be
    negative.) *)
Theorem move_proposal_stale_identifiers
    (fuel : nat) cfg (parent : MlpMicroCfg) h g
    (pairs : list (string * MlpMicroCfg)) h' g' (parent_list : list Z) :
  h !! hidden_layer_list parent = Some parent_list →
  Forall (λ z, 0 ≤ z)%Z parent_list →
  Forall (λ z, 0 ≤ z)%Z (layer_choices cfg) →
  mutate_architecture_move_proposal fuel cfg parent h g
    = Some (Ok pairs, h', g') →
  NoDup pairs.*1 ∧
  ∃ final,
    h' !! length h = Some final ∧
    ∀ s m, (s, m) ∈ pairs →
      (serialize_model_encoding h' m = Some s ↔ s = encode_layers final).
Proof.
  intros Hp Hpos Hch Hrun.
  destruct (move_proposal_run _ _ _ _ _ _ _ _ _ Hp Hrun)
    as (final & -> & Hfl & Hdiff & ->).
  assert (Hfin : Forall (λ z, 0 ≤ z)%Z final).
  { apply Forall_lookup. intros j x Hx.
    destruct (lookup_lt_is_Some_2 parent_list j) as [cj Hcj].
    { apply lookup_lt_Some in Hx. lia. }
    destruct (Hdiff j cj Hcj) as (mj & Hmj & _ & Hin).
    rewrite Hmj in Hx. injection Hx as <-.
    by eapply (proj1 (Forall_forall _ _) Hch). }
  assert (Hprop : ∀ k, Forall (λ z, 0 ≤ z)%Z
                         (proposal_at k final parent_list)).
  { intros k. unfold proposal_at. apply Forall_app. split.
    - by apply Forall_take.
    - by apply Forall_drop. }
  assert (Hne : ∀ k k' : nat, (k < k')%nat → (k' < length parent_list)%nat →
            proposal_at k final parent_list
            ≠ proposal_at k' final parent_list).
  { intros k k' Hlt Hk' Heq.
    destruct (lookup_lt_is_Some_2 parent_list k' Hk') as [c Hc].
    destruct (Hdiff k' c Hc) as (m' & Hm' & Hm'c & _).
    assert (proposal_at k final parent_list !! k' = Some c) as H1
      by by rewrite proposal_at_lookup_gt.
    assert (proposal_at k' final parent_list !! k' = Some m') as H2
      by (rewrite proposal_at_lookup_le by lia; done).
    rewrite Heq in H1. congruence. }
  split.
  - rewrite <- list_fmap_compose. apply NoDup_fmap_2_strong; [|apply NoDup_seq].
    intros k k' Hk Hk' Heq. cbn in Heq.
    apply elem_of_seq in Hk, Hk'.
    apply encode_layers_inj in Heq; [|done..].
    destruct (Nat.lt_trichotomy k k') as [Hlt|[->|Hlt]]; [|done|].
    + exfalso. apply (Hne k k'); [lia..|done].
    + exfalso. apply (Hne k' k); [lia..|done].
  - exists final. split; [by apply list_lookup_middle|].
    intros s m Hin. apply list_elem_of_fmap in Hin as (k & [= -> ->] & Hk).
    unfold serialize_model_encoding, cfg_str. cbn [hidden_layer_list].
    rewrite list_lookup_middle by done. cbn [mbind option_bind].
    fold (encode_layers final). split; congruence.
Qed.

Lemma move_proposal_stale_identifiers_witness :
  NoDup ["16-16"; "16-8"].
Proof.
  exact (proj1 (move_proposal_stale_identifiers 5
                  {| layer_choices := [8; 16]%Z; num_layers := 2 |}
                  Samples.arch0 [[8; 16]%Z] [1; 0] _ _ _ [8; 16]%Z
                  eq_refl ltac:(repeat constructor; lia)
                  ltac:(repeat constructor; lia) eq_refl)).
Defined.

End MoveProposalFacts.

Section EnumerationFacts.

Import MlpSpace MlpSpaceMore.

Implicit Types (h : store) (g : rng) (cfg : MlpMacroCfg).

Lemma length_bind_const {A B} (f : A → list B) (l : list A) (n : nat) :
  (∀ x, length (f x) = n) → length (l ≫= f) = (length l * n)%nat.
Proof.
  intros Hf. induction l as [|x l IH]; [done|].
  rewrite bind_cons, length_app, Hf, IH. cbn. lia.
Qed.

Lemma length_product {A} (pools : list (list A)) :
  length (product pools) = foldr (λ pool n, length pool * n)%nat 1%nat pools.
Proof.
  induction pools as [|pool pools IH]; [done|]. cbn [product foldr].
  rewrite (length_bind_const _ _ (length (product pools))).
  - by rewrite IH.
  - intros x. by rewrite length_fmap.
Qed.

Lemma elem_of_product {A} (pools : list (list A)) (l : list A) :
  l ∈ product pools ↔ Forall2 (λ x pool, x ∈ pool) l pools.
Proof.
  revert l. induction pools as [|pool pools IH]; intros l; cbn [product].
  - rewrite list_elem_of_singleton. split.
    + intros ->. constructor.
    + by intros ->%Forall2_nil_inv_r.
  - rewrite list_elem_of_bind. split.
    + intros (x & Hl & Hx). apply list_elem_of_fmap in Hl as (t & -> & Ht).
      constructor; [done|]. by apply IH.
    + intros (x & t & Hx & Ht & ->)%Forall2_cons_inv_r.
      exists x. split; [|done]. apply list_elem_of_fmap.
      exists t. split; [done|]. by apply IH.
Qed.

Lemma NoDup_product {A} (pools : list (list A)) :
  Forall NoDup pools → NoDup (product pools).
Proof.
  induction 1 as [|pool pools Hpool _ IH]; cbn [product].
  - apply NoDup_singleton.
  - apply NoDup_bind; [|intros x _|done].
    + intros x1 x2 y _ _ H1 H2.
      apply list_elem_of_fmap in H1 as (t1 & -> & _).
      apply list_elem_of_fmap in H2 as (t2 & [= -> _] & _). done.
    + apply NoDup_fmap_2; [|done]. by intros t1 t2 [= ->].
Qed.

Lemma elem_of_all_models_start cfg (l : list Z) :
  l ∈ all_models_start cfg
  ↔ length l = num_layers cfg ∧ Forall (λ x, x ∈ layer_choices cfg) l.
Proof.
  unfold all_models_start. rewrite elem_of_product. split.
  - intros H. split.
    + apply Forall2_length in H. by rewrite length_replicate in H.
    + apply Forall_forall. intros x Hx.
      apply list_elem_of_lookup in Hx as [i Hi].
      destruct (Forall2_lookup_l _ _ _ _ _ H Hi) as (pool & Hpool & Hin).
      by apply lookup_replicate in Hpool as [-> _].
  - intros [Hlen Hall]. by apply Forall2_replicate_r.
Qed.

Lemma length_all_models_start cfg :
  length (all_models_start cfg) = space_len cfg.
Proof.
  unfold all_models_start, space_len. rewrite length_product.
  induction (num_layers cfg) as [|n IH]; [done|].
  cbn [replicate foldr]. rewrite IH. by rewrite Nat.pow_succ_r'.
Qed.

(** X8.  [sample_all_models] enumerates the search space: the lists it
    goes through are exactly those with [num_layers] entries, all from
    [layer_choices]; there are [len(space)] of them; and when the layer
    choices are pairwise different no list comes twice. *)
Theorem sample_all_models_enumerates cfg :
  NoDup (layer_choices cfg) →
  length (all_models_start cfg) = space_len cfg ∧
  NoDup (all_models_start cfg) ∧
  ∀ l : list Z,
    l ∈ all_models_start cfg
    ↔ length l = num_layers cfg ∧ Forall (λ x, x ∈ layer_choices cfg) l.
Proof.
  intros Hnd. split; [apply length_all_models_start|]. split.
  - apply NoDup_product. by apply Forall_replicate.
  - apply elem_of_all_models_start.
Qed.

Lemma sample_all_models_enumerates_witness :
  length (all_models_start Samples.cfg3) = 27%nat ∧
  NoDup (all_models_start Samples.cfg3).
Proof.
  destruct (sample_all_models_enumerates Samples.cfg3) as (H1 & H2 & _).
  - apply (bool_decide_unpack _). reflexivity.
  - split; [exact H1|exact H2].
Defined.

Lemma all_models_take_spec (n : nat) (combinations : list (list Z)) h :
  all_models_take n combinations h =
    if decide (n ≤ length combinations)%nat then
      Ok (zip (encode_layers <$> take n combinations)
              (MlpMicroCfg_of <$> seq (length h) n),
          drop n combinations, h ++ take n combinations)
    else Raise (Other "RuntimeError: generator raised StopIteration").
Proof.
  revert combinations h.
  induction n as [|n IH]; intros combinations h; cbn [all_models_take].
  - rewrite decide_True by lia. cbn. by rewrite app_nil_r, drop_0.
  - destruct combinations as [|ele rest]; cbn [all_models_next].
    + rewrite decide_False by (cbn; lia). done.
    + unfold alloc. cbn [mbind outcome_bind]. rewrite IH.
      rewrite length_app. cbn [length].
      destruct (decide (n ≤ length rest)%nat).
      * rewrite decide_True by lia. cbn.
        rewrite <- app_assoc. repeat f_equal. lia.
      * rewrite decide_False by lia. done.
Qed.

(** X9.  Iterating [sample_all_models]: the first [len(space)] calls of
    [next] give the architectures of the enumeration in order, each
    with its encoding and a list object of its own; the call after the
    last one does not end the iteration but fails with [RuntimeError],
    because [combinations.__next__()] raises [StopIteration] inside the
    generator. *)
Theorem sample_all_models_run cfg h (n : nat) :
  (n ≤ space_len cfg)%nat →
  all_models_take n (all_models_start cfg) h
    = Ok (zip (encode_layers <$> take n (all_models_start cfg))
              (MlpMicroCfg_of <$> seq (length h) n),
          drop n (all_models_start cfg),
          h ++ take n (all_models_start cfg)) ∧
  all_models_take (S (space_len cfg)) (all_models_start cfg) h
    = Raise (Other "RuntimeError: generator raised StopIteration").
Proof.
  intros Hn. rewrite !all_models_take_spec, length_all_models_start.
  rewrite decide_True by done. by rewrite decide_False by lia.
Qed.

Lemma sample_all_models_run_witness :
  all_models_take 2 (all_models_start Samples.cfg3) []
    = Ok ([("8-8-8", MlpMicroCfg_of 0); ("8-8-16", MlpMicroCfg_of 1)],
          drop 2 (all_models_start Samples.cfg3),
          [[8; 8; 8]; [8; 8; 16]]%Z) ∧
  all_models_take 28 (all_models_start Samples.cfg3) []
    = Raise (Other "RuntimeError: generator raised StopIteration").
Proof.
  exact (sample_all_models_run Samples.cfg3 [] 2 ltac:(vm_compute; lia)).
Defined.

Lemma draw_layers_ok (n : nat) (choices : list Z) g :
  choices ≠ [] → (n ≤ length g)%nat →
  ∃ l, draw_layers n choices g = Some (Ok l, drop n g) ∧
       length l = n ∧ Forall (λ x, x ∈ choices) l.
Proof.
  intros Hne. revert g.
  induction n as [|n IH]; intros g Hn; cbn [draw_layers].
  - exists []. by rewrite drop_0.
  - destruct g as [|r g]; [cbn in Hn; lia|].
    destruct (random_choice choices (r :: g)) as [[[x|e] g1]|] eqn:Hc.
    + pose proof (random_choice_elem _ _ _ _ Hc) as Hx.
      assert (g1 = g) as ->.
      { unfold random_choice in Hc. destruct choices; [done|]. congruence. }
      destruct (IH g ltac:(cbn in Hn; lia)) as (l & -> & Hl & Hall).
      exists (x :: l). cbn. split; [done|]. split; [by rewrite Hl|].
      by constructor.
    + unfold random_choice in Hc. by destruct choices.
    + unfold random_choice in Hc. by destruct choices.
Qed.

(** X10.  [random_architecture_id] with a non-empty list of layer
    choices takes [num_layers] draws and returns an architecture of
    the search space, one that [sample_all_models] enumerates, as a new
    list object together with its encoding. *)
Theorem random_architecture_id_in_space cfg h g :
  layer_choices cfg ≠ [] →
  (num_layers cfg ≤ length g)%nat →
  ∃ l : list Z,
    random_architecture_id cfg h g
      = Some (Ok (encode_layers l, MlpMicroCfg_of (length h)),
              h ++ [l], drop (num_layers cfg) g) ∧
    l ∈ all_models_start cfg.
Proof.
  intros Hne Hg. unfold random_architecture_id.
  destruct (draw_layers_ok _ _ _ Hne Hg) as (l & -> & Hlen & Hall).
  exists l. unfold alloc, cfg_str. cbn [hidden_layer_list].
  rewrite list_lookup_middle by done. split; [done|].
  by apply elem_of_all_models_start.
Qed.

Lemma random_architecture_id_in_space_witness :
  ∃ l : list Z,
    random_architecture_id Samples.cfg3 [] [4; 2; 0; 7]
      = Some (Ok (encode_layers l, MlpMicroCfg_of 0), [l], [7]) ∧
    l ∈ all_models_start Samples.cfg3.
Proof.
  exact (random_architecture_id_in_space Samples.cfg3 [] [4; 2; 0; 7]
           ltac:(done) ltac:(cbn; lia)).
Defined.

Lemma draw_layers_reaches (choices l : list Z) :
  Forall (λ x, x ∈ choices) l →
  ∃ g, length g = length l ∧
       draw_layers (length l) choices g = Some (Ok l, []).
Proof.
  induction 1 as [|x l Hx _ (g & Hg & IH)].
  - by exists [].
  - apply list_elem_of_lookup in Hx as [i Hi].
    exists (i :: g). split; [cbn; by rewrite Hg|].
    cbn [length draw_layers]. unfold random_choice.
    destruct choices as [|x0 choices]; [done|].
    pose proof (lookup_lt_Some _ _ _ Hi) as Hlt.
    rewrite Nat.mod_small by done.
    rewrite (nth_lookup_Some _ _ _ _ Hi). by rewrite IH.
Qed.

(** X11.  Every architecture of the search space can come out of
    [random_architecture_id]: for each list that [sample_all_models]
    enumerates there are draws on which it is the result. *)
Theorem random_architecture_id_reaches cfg h (l : list Z) :
  l ∈ all_models_start cfg →
  ∃ g, random_architecture_id cfg h g
         = Some (Ok (encode_layers l, MlpMicroCfg_of (length h)),
                 h ++ [l], []).
Proof.
  intros [Hlen Hall]%elem_of_all_models_start.
  destruct (draw_layers_reaches _ _ Hall) as (g & _ & Hg).
  exists g. unfold random_architecture_id. rewrite <- Hlen, Hg.
  unfold alloc, cfg_str. cbn [hidden_layer_list].
  by rewrite list_lookup_middle.
Qed.

Lemma random_architecture_id_reaches_witness :
  ∃ g, random_architecture_id Samples.cfg3 [] g
         = Some (Ok ("32-8-16", MlpMicroCfg_of 0), [[32; 8; 16]%Z], []).
Proof.
  apply (random_architecture_id_reaches Samples.cfg3 [] [32; 8; 16]%Z).
  apply elem_of_all_models_start. split; [reflexivity|].
  repeat constructor; set_solver.
Defined.

End EnumerationFacts.

Section MaskFacts.

Import MlpSpace MlpSpaceMore.

Implicit Types (g : rng) (st : subnet_state).

(** The masks taken for the hidden [Linear] layers, when every hidden
    layer contributes [stride] modules. *)
Lemma hidden_layers_masks (start : nat) (ninput : Z) (hidden : list Z)
    (p : float) (use_bn : bool) :
  omap masked_layer
    (enumerate_from start (hidden_layers ninput hidden p use_bn))
  = zip hidden
      ((λ k, mask_index (start + (if use_bn then 4 else 3) * k))
         <$> seq 0 (length hidden)).
Proof.
  revert start ninput.
  induction hidden as [|size rest IH]; intros start ninput; [done|].
  cbn [hidden_layers length seq fmap list_fmap zip zip_with].
  rewrite Nat.mul_0_r, Nat.add_0_r.
  rewrite <- fmap_S_seq, <- list_fmap_compose.
  destruct use_bn; cbn [app enumerate_from omap list_omap masked_layer];
    rewrite IH; do 2 f_equal; apply list_fmap_ext; intros _ k _;
    unfold compose; cbv beta; f_equal; lia.
Qed.

Lemma forward_w_mask_masks_mlp (ninput : Z) (hidden : list Z) (p : float)
    (noutput : Z) (use_bn : bool) :
  forward_w_mask_masks (mlp_layers ninput hidden p noutput use_bn)
  = zip hidden
      ((λ k, mask_index ((if use_bn then 4 else 3) * k))
         <$> seq 0 (length hidden)).
Proof.
  unfold forward_w_mask_masks, mlp_layers.
  rewrite removelast_last. apply hidden_layers_masks.
Qed.

(** X12.  In a network built with batch normalisation every hidden
    layer is four modules, and [forward_w_mask] gives the [Linear]
    layer of hidden layer [k], whose weight has [hidden_layer_list[k]]
    rows, the mask number [k]; the output layer is not masked. *)
Theorem forward_w_mask_masks_with_bn (ninput : Z) (hidden : list Z)
    (p : float) (noutput : Z) :
  forward_w_mask_masks (mlp_layers ninput hidden p noutput true)
  = zip hidden (seq 0 (length hidden)).
Proof.
  rewrite forward_w_mask_masks_mlp. f_equal.
  rewrite <- (list_fmap_id (seq 0 (length hidden))) at 2.
  apply list_fmap_ext. intros _ k _. unfold mask_index. cbn [id].
  rewrite Nat.mul_comm. by apply Nat.div_mul.
Qed.

Lemma forward_w_mask_loop_products training batch masks items features
    products y :
  forward_w_mask_loop training batch masks items features
    = Ok (products, y) →
  products = omap masked_layer items.
Proof.
  revert features products y.
  induction items as [|[idx l] items IH]; intros features products y.
  - by intros [= <- <-].
  - destruct l as [i o| | |]; cbn [forward_w_mask_loop omap list_omap masked_layer].
    + intros (mask & _ & (rows & _ & (f & _ & ([ps y'] & Hrest & [= <- <-])
        %bind_ok)%bind_ok)%bind_ok)%bind_ok.
      f_equal. by eapply IH.
    + intros (f & _ & Hrest)%bind_ok. by eapply IH.
    + intros (f & _ & Hrest)%bind_ok. by eapply IH.
    + intros (f & _ & Hrest)%bind_ok. by eapply IH.
Qed.

Lemma forward_w_mask_loop_linear training batch masks idx i o rest features :
  forward_w_mask_loop training batch masks ((idx, Linear i o) :: rest)
    features
  = (mask ← match masks !! mask_index idx with
            | Some mask => Ok mask
            | None => Raise IndexError
            end;
     rows ← masked_rows o mask;
     features' ← linear features i rows;
     '(products, y) ←
       forward_w_mask_loop training batch masks rest features';
     Ok ((o, mask_index idx) :: products, y)).
Proof. reflexivity. Qed.

Lemma forward_w_mask_loop_relu training batch masks idx rest features :
  forward_w_mask_loop training batch masks ((idx, ReLU) :: rest) features
  = forward_w_mask_loop training batch masks rest features.
Proof. reflexivity. Qed.

Lemma forward_w_mask_loop_dropout training batch masks idx p rest features :
  forward_w_mask_loop training batch masks ((idx, Dropout p) :: rest)
    features
  = forward_w_mask_loop training batch masks rest features.
Proof. reflexivity. Qed.

Lemma mask_of_earlier_layer (masks : list (list bool)) (hidden : list Z)
    (k : nat) (size : Z) :
  length <$> masks = Z.to_nat <$> hidden →
  hidden !! k = Some size →
  ∃ width mask,
    hidden !! ((3 * k) `div` 4)%nat = Some width ∧
    masks !! mask_index (3 * k) = Some mask ∧
    length mask = Z.to_nat width.
Proof.
  intros Hmasks Hk.
  assert (Hlt : ((3 * k) `div` 4 < length hidden)%nat).
  { apply lookup_lt_Some in Hk.
    assert ((3 * k) `div` 4 ≤ k)%nat; [|lia].
    apply Nat.Div0.div_le_upper_bound. lia. }
  destruct (lookup_lt_is_Some_2 hidden _ Hlt) as [width Hw].
  exists width.
  assert (Hm : (length <$> masks) !! ((3 * k) `div` 4)%nat
               = Some (Z.to_nat width)).
  { by rewrite Hmasks, list_lookup_fmap, Hw. }
  rewrite list_lookup_fmap in Hm. unfold mask_index.
  destruct (masks !! ((3 * k) `div` 4)%nat) as [mask|]; [|done].
  exists mask. injection Hm as Hm. done.
Qed.

Lemma forward_w_mask_loop_without_bn training batch masks hidden p :
  Forall (λ size, 2 ≤ size)%Z hidden →
  length <$> masks = Z.to_nat <$> hidden →
  ∀ suf pre ninput, hidden = pre ++ suf →
    ((∀ (k : nat) size, (length pre ≤ k)%nat → hidden !! k = Some size →
        hidden !! ((3 * k) `div` 4)%nat = Some size) →
     forward_w_mask_loop training batch masks
       (enumerate_from (3 * length pre) (hidden_layers ninput suf p false))
       ninput
     = Ok (omap masked_layer
             (enumerate_from (3 * length pre)
                (hidden_layers ninput suf p false)),
           default ninput (last suf))) ∧
    (∀ (k : nat) size width, (length pre ≤ k)%nat →
        hidden !! k = Some size →
        hidden !! ((3 * k) `div` 4)%nat = Some width → size ≠ width →
     forward_w_mask_loop training batch masks
       (enumerate_from (3 * length pre) (hidden_layers ninput suf p false))
       ninput
     = Raise size_mismatch).
Proof.
  intros Hsizes Hmasks suf.
  induction suf as [|size rest IH]; intros pre ninput Hhidden.
  - split; [done|].
    intros k sz w Hk Hsz. apply lookup_lt_Some in Hsz.
    rewrite Hhidden, length_app in Hsz. cbn in Hsz. lia.
  - assert (Hsize : hidden !! length pre = Some size).
    { rewrite Hhidden. by apply list_lookup_middle. }
    destruct (mask_of_earlier_layer masks hidden _ _ Hmasks Hsize)
      as (width & mask & Hwidth & Hmask & Hlen).
    assert (H2 : (2 ≤ size)%Z).
    { rewrite Forall_forall in Hsizes. apply Hsizes.
      by eapply list_elem_of_lookup_2. }
    assert (H2' : (2 ≤ width)%Z).
    { rewrite Forall_forall in Hsizes. apply Hsizes.
      by eapply list_elem_of_lookup_2. }
    assert (Hnext : hidden = (pre ++ [size]) ++ rest)
      by (by rewrite <- app_assoc).
    specialize (IH (pre ++ [size]) size Hnext).
    rewrite length_app in IH. cbn [length] in IH.
    replace (3 * (length pre + 1))%nat with (S (S (S (3 * length pre))))
      in IH by lia.
    cbn [hidden_layers app enumerate_from].
    rewrite forward_w_mask_loop_linear, Hmask. cbn [mbind outcome_bind]. unfold masked_rows.
    rewrite Hlen, Z2Nat.id by lia.
    destruct (decide (size = width)) as [<-|Hne].
    + cbn [mbind outcome_bind]. unfold linear.
      rewrite decide_True by done. cbn [mbind outcome_bind].
      rewrite forward_w_mask_loop_relu, forward_w_mask_loop_dropout.
      destruct IH as [IHok IHfail]. split.
      * intros Hall. rewrite IHok.
        2:{ intros k sz Hk. apply Hall. lia. }
        cbn [mbind outcome_bind omap list_omap masked_layer].
        do 2 f_equal. rewrite last_cons. by destruct (last rest).
      * intros k sz w Hk Hsz Hw Hne.
        destruct (decide (k = length pre)) as [->|Hk'].
        { congruence. }
        rewrite (IHfail k sz w) by (done || lia). done.
    + rewrite decide_False by lia. rewrite decide_False by lia.
      cbn [mbind outcome_bind]. split; [|done].
      intros Hall. specialize (Hall _ _ (le_n _) Hsize). congruence.
Qed.

Lemma forward_w_mask_loop_batchnorm training batch masks idx nf rest
    features :
  forward_w_mask_loop training batch masks ((idx, BatchNorm1d nf) :: rest)
    features
  = (features' ← call_layer training batch features (BatchNorm1d nf);
     forward_w_mask_loop training batch masks rest features').
Proof. reflexivity. Qed.

(** A pass that returns has made the products of the table. *)
Lemma forward_w_mask_products training batch masks ninput layers products
    shape :
  forward_w_mask training batch masks ninput layers = Ok (products, shape) →
  products = forward_w_mask_masks layers.
Proof.
  unfold forward_w_mask.
  intros ([ps f] & Hloop & (l & _ & (y & _ & [= <- <-])%bind_ok)%bind_ok)
    %bind_ok.
  by eapply forward_w_mask_loop_products.
Qed.

Lemma last_mlp_layers ninput hidden p noutput use_bn :
  last (mlp_layers ninput hidden p noutput use_bn)
  = Some (Linear (default ninput (last hidden)) noutput).
Proof.
  unfold mlp_layers. rewrite last_snoc. by destruct (last hidden).
Qed.

(** With batch normalisation and masks of the layers' widths the pass
    goes through, unless it is a training pass on a batch of one row. *)
Lemma forward_w_mask_loop_with_bn training batch masks hidden p :
  Forall (λ size, 0 ≤ size)%Z hidden →
  length <$> masks = Z.to_nat <$> hidden →
  training && Nat.eqb batch 1 = false →
  ∀ suf pre ninput, hidden = pre ++ suf →
    forward_w_mask_loop training batch masks
      (enumerate_from (4 * length pre) (hidden_layers ninput suf p true))
      ninput
    = Ok (omap masked_layer
            (enumerate_from (4 * length pre)
               (hidden_layers ninput suf p true)),
          default ninput (last suf)).
Proof.
  intros Hsizes Hmasks Hmode suf.
  induction suf as [|size rest IH]; intros pre ninput Hhidden; [done|].
  assert (Hsize : hidden !! length pre = Some size).
  { rewrite Hhidden. by apply list_lookup_middle. }
  assert (H0 : (0 ≤ size)%Z).
  { rewrite Forall_forall in Hsizes. apply Hsizes.
    by eapply list_elem_of_lookup_2. }
  assert (Hm : (length <$> masks) !! length pre = Some (Z.to_nat size)).
  { by rewrite Hmasks, list_lookup_fmap, Hsize. }
  rewrite list_lookup_fmap in Hm.
  destruct (masks !! length pre) as [mask|] eqn:Hmask; [|done].
  injection Hm as Hlen.
  assert (Hnext : hidden = (pre ++ [size]) ++ rest)
    by (by rewrite <- app_assoc).
  specialize (IH (pre ++ [size]) size Hnext).
  rewrite length_app in IH. cbn [length] in IH.
  replace (4 * (length pre + 1))%nat with (S (S (S (S (4 * length pre)))))
    in IH by lia.
  cbn [hidden_layers app enumerate_from].
  rewrite forward_w_mask_loop_linear.
  assert (mask_index (4 * length pre) = length pre) as Hidx.
  { unfold mask_index. rewrite Nat.mul_comm. by apply Nat.div_mul. }
  rewrite Hidx at 1. rewrite Hmask. cbn [mbind outcome_bind]. unfold masked_rows.
  rewrite Hlen, Z2Nat.id by lia.
  rewrite decide_True by done. cbn [mbind outcome_bind]. unfold linear.
  rewrite decide_True by done. cbn [mbind outcome_bind].
  rewrite forward_w_mask_loop_batchnorm. cbn [call_layer].
  rewrite Hmode, decide_True by done. cbn [mbind outcome_bind].
  rewrite forward_w_mask_loop_relu, forward_w_mask_loop_dropout, IH.
  cbn [mbind outcome_bind omap list_omap masked_layer].
  do 2 f_equal. rewrite last_cons. by destruct (last rest).
Qed.

Lemma forward_w_mask_with_bn_returns training batch masks ninput hidden p
    noutput :
  Forall (λ size, 0 ≤ size)%Z hidden →
  length <$> masks = Z.to_nat <$> hidden →
  training && Nat.eqb batch 1 = false →
  forward_w_mask training batch masks ninput
    (mlp_layers ninput hidden p noutput true)
  = Ok (forward_w_mask_masks (mlp_layers ninput hidden p noutput true),
        if decide (noutput = 1%Z) then [Z.of_nat batch]
        else [Z.of_nat batch; noutput]).
Proof.
  intros Hsizes Hmasks Hmode.
  unfold forward_w_mask, forward_w_mask_masks.
  rewrite last_mlp_layers. unfold mlp_layers. rewrite removelast_last.
  pose proof (forward_w_mask_loop_with_bn training batch masks hidden p
                Hsizes Hmasks Hmode hidden [] ninput eq_refl) as Hloop.
  change (4 * length (@nil Z))%nat with 0%nat in Hloop. rewrite Hloop.
  cbn [mbind outcome_bind call_layer]. unfold linear.
  by rewrite decide_True by done.
Qed.

(** X13.  In a network built without batch normalisation every hidden
    layer is three modules, but [forward_w_mask] still divides the
    position by four: the weight of the [Linear] layer of hidden layer
    [k] is multiplied by the mask number [3k // 4], which is the mask
    of an earlier layer for every layer after the first.  With masks of
    the layers' widths, as [__init__] and [sample_subnet] leave them,
    and layers of two neurons or more, the pass returns only when every
    layer is as wide as the layer whose mask it is given, and then it
    has used these masks; when a layer is not, the product of its
    weight and the mask fails and the pass raises [RuntimeError]. *)
Theorem forward_w_mask_masks_without_bn (training : bool) (batch : nat)
    (subnet_mask : list (list bool)) (ninput : Z) (hidden : list Z)
    (p : float) (noutput : Z) :
  Forall (λ size, 2 ≤ size)%Z hidden →
  length <$> subnet_mask = Z.to_nat <$> hidden →
  let layers := mlp_layers ninput hidden p noutput false in
  let pass := forward_w_mask training batch subnet_mask ninput layers in
  (∀ (k : nat) size, hidden !! k = Some size →
     forward_w_mask_masks layers !! k
       = Some (size, ((3 * k) `div` 4)%nat) ∧
     ((0 < k)%nat → ((3 * k) `div` 4 < k)%nat)) ∧
  ((∀ (k : nat) size, hidden !! k = Some size →
      hidden !! ((3 * k) `div` 4)%nat = Some size) →
   pass = Ok (forward_w_mask_masks layers,
              if decide (noutput = 1%Z) then [Z.of_nat batch]
              else [Z.of_nat batch; noutput])) ∧
  (∀ (k : nat) size width, hidden !! k = Some size →
      hidden !! ((3 * k) `div` 4)%nat = Some width → size ≠ width →
   pass = Raise size_mismatch).
Proof.
  intros Hsizes Hmasks layers pass.
  destruct (forward_w_mask_loop_without_bn training batch subnet_mask
              hidden p Hsizes Hmasks hidden [] ninput eq_refl)
    as [Hok Hfail].
  change (3 * length (@nil Z))%nat with 0%nat in Hok, Hfail.
  split; [|split].
  - intros k size Hsize. split.
    + subst layers. rewrite forward_w_mask_masks_mlp.
      apply lookup_zip_with_Some. exists size, ((3 * k) `div` 4)%nat.
      split; [done|]. split; [done|].
      rewrite list_lookup_fmap, lookup_seq_lt
        by (by eapply lookup_lt_Some). reflexivity.
    + intros Hk. apply Nat.Div0.div_lt_upper_bound. lia.
  - intros Hall. subst pass layers.
    unfold forward_w_mask, forward_w_mask_masks.
    rewrite last_mlp_layers. unfold mlp_layers. rewrite removelast_last.
    rewrite Hok by (intros k size _; apply Hall).
    cbn [mbind outcome_bind call_layer]. unfold linear.
    by rewrite decide_True by done.
  - intros k size width Hsize Hwidth Hne. subst pass layers.
    unfold forward_w_mask, mlp_layers.
    rewrite removelast_last.
    by rewrite (Hfail k size width (Nat.le_0_l _) Hsize Hwidth Hne).
Qed.

Lemma forward_w_mask_masks_without_bn_witness :
  forward_w_mask false 1
    [replicate 8 true; replicate 16 true; replicate 32 true] 10
    (mlp_layers 10 [8; 16; 32]%Z Samples.one_second 2 false)
  = Raise size_mismatch ∧
  forward_w_mask false 1
    [replicate 8 true; replicate 8 true; replicate 8 true] 10
    (mlp_layers 10 [8; 8; 8]%Z Samples.one_second 2 false)
  = Ok ([(8%Z, 0%nat); (8%Z, 0%nat); (8%Z, 1%nat)], [1; 2]%Z).
Proof.
  split.
  - refine (proj2 (proj2 (forward_w_mask_masks_without_bn false 1
              [replicate 8 true; replicate 16 true; replicate 32 true]
              10 [8; 16; 32]%Z Samples.one_second 2 _ _))
              1%nat 16%Z 8%Z eq_refl eq_refl _).
    + repeat constructor; lia.
    + reflexivity.
    + lia.
  - refine (proj1 (proj2 (forward_w_mask_masks_without_bn false 1
              [replicate 8 true; replicate 8 true; replicate 8 true]
              10 [8; 8; 8]%Z Samples.one_second 2 _ _)) _).
    + repeat constructor; lia.
    + reflexivity.
    + intros [|[|[|k]]] size Hk; try exact Hk. destruct k; discriminate Hk.
Defined.

Lemma sample_from_returns {A} (k : nat) (pool : list A) g :
  (k ≤ length pool)%nat → (k ≤ length g)%nat →
  ∃ xs, sample_from k pool g = Some (xs, drop k g).
Proof.
  revert pool g. induction k as [|k IH]; intros pool g Hp Hg; cbn.
  - exists []. by rewrite drop_0.
  - destruct g as [|r g]; [cbn in Hg; lia|].
    destruct (lookup_lt_is_Some_2 pool (r mod length pool)) as [x ->].
    { apply Nat.mod_upper_bound. lia. }
    destruct (IH (delete (r mod length pool) pool) g) as [xs ->].
    + rewrite length_delete
        by (apply lookup_lt_is_Some_2, Nat.mod_upper_bound; lia). lia.
    + cbn in Hg. lia.
    + by exists (x :: xs).
Qed.

Lemma randperm_spec (n : nat) g perm g' :
  randperm n g = Some (perm, g') → perm ≡ₚ seq 0 n ∧ g' = drop n g.
Proof.
  intros H. apply sample_from_spec in H as (Hlen & Hnd & Hin & ->);
    [|apply NoDup_seq].
  split; [|done]. apply submseteq_length_Permutation.
  - by apply NoDup_submseteq.
  - by rewrite length_seq, Hlen.
Qed.

Lemma index_select_perm (mask : list bool) (perm : list nat) :
  perm ≡ₚ seq 0 (length mask) → index_select mask perm ≡ₚ mask.
Proof.
  intros Hperm. unfold index_select. rewrite Hperm.
  apply eq_reflexive_Permutation || apply reflexive_eq || idtac.
  assert ((λ j, default false (mask !! j)) <$> seq 0 (length mask) = mask)
    as ->; [|done].
  apply list_eq. intros i. rewrite list_lookup_fmap.
  destruct (mask !! i) as [b|] eqn:Hi.
  - rewrite lookup_seq_lt by (by eapply lookup_lt_Some). cbn.
    by rewrite Hi.
  - rewrite lookup_seq_ge by (by apply lookup_ge_None_1). done.
Qed.

Lemma sample_subnet_loop_spec (idx : nat) (sizes : list Z) st g st' g' :
  sample_subnet_loop idx sizes st g = Some (Ok tt, st', g') →
  model_hidden_layer_list st' = model_hidden_layer_list st ∧
  is_masked_subnet st' = is_masked_subnet st ∧
  length (subnet_mask st') = length (subnet_mask st) ∧
  (∀ j : nat, (j < idx ∨ idx + length sizes ≤ j)%nat →
     subnet_mask st' !! j = subnet_mask st !! j) ∧
  (∀ (k : nat) size, sizes !! k = Some size →
     ∃ width mask,
       model_hidden_layer_list st !! (idx + k)%nat = Some width ∧
       (0 ≤ size ≤ width)%Z ∧
       subnet_mask st' !! (idx + k)%nat = Some mask ∧
       mask_of size width mask).
Proof.
  revert idx st g.
  induction sizes as [|size rest IH]; intros idx st g;
    cbn [sample_subnet_loop].
  - intros [= <- <-]. repeat split; try done.
  - unfold torch_full. destruct (decide (size < 0)%Z) as [|Hs]; [done|].
    destruct (model_hidden_layer_list st !! idx) as [width|] eqn:Hw;
      [|done].
    destruct (decide (width - size < 0)%Z) as [|Hws]; [done|].
    destruct (randperm _ g) as [[perm g1]|] eqn:Hperm; [|done].
    destruct (decide (idx < length (subnet_mask st))) as [Hidx|]; [|done].
    intros Hrun.
    destruct (IH _ _ _ Hrun) as (Hh & Hm & Hlen & Hsame & Hmasks).
    cbn [with_mask model_hidden_layer_list is_masked_subnet subnet_mask]
      in Hh, Hm, Hlen, Hsame, Hmasks.
    rewrite length_insert in Hlen.
    split; [done|]. split; [done|]. split; [done|]. split.
    + intros j Hj. rewrite Hsame by (cbn in Hj; lia).
      apply list_lookup_insert_ne. cbn in Hj. lia.
    + intros [|k] size' Hk.
      * injection Hk as <-. rewrite Nat.add_0_r.
        exists width. eexists. split; [done|]. split; [lia|]. split.
        -- rewrite Hsame by lia. by apply list_lookup_insert_eq.
        -- apply randperm_spec in Hperm as [Hp _].
           unfold mask_of. by apply index_select_perm.
      * cbn in Hk. destruct (Hmasks k size' Hk)
          as (width' & mask & H1 & H2 & H3 & H4).
        replace (idx + S k)%nat with (S idx + k)%nat by lia.
        by exists width', mask.
Qed.

(** X14.  A call of [sample_subnet] that returns has switched the model
    to its masked mode and, for every size in the identifier, has
    replaced the mask of that layer: the size is not larger than the
    width of the layer, and the new mask has the width of the layer
    and exactly [size] ones.  The masks of deeper layers and the list
    of widths are as before. *)
Theorem sample_subnet_masks (arch_id : string) st g st' g' :
  sample_subnet arch_id st g = Some (Ok tt, st', g') →
  ∃ sizes : list Z,
    decode_layers arch_id = Ok sizes ∧
    is_masked_subnet st' = true ∧
    model_hidden_layer_list st' = model_hidden_layer_list st ∧
    (∀ (k : nat) size, sizes !! k = Some size →
       ∃ width mask,
         model_hidden_layer_list st !! k = Some width ∧
         (0 ≤ size ≤ width)%Z ∧
         subnet_mask st' !! k = Some mask ∧
         length mask = Z.to_nat width ∧
         length (filter (λ b, b = true) mask) = Z.to_nat size) ∧
    (∀ j : nat, (length sizes ≤ j)%nat →
       subnet_mask st' !! j = subnet_mask st !! j).
Proof.
  unfold sample_subnet.
  destruct (decode_layers arch_id) as [sizes|e]; [|done].
  intros Hrun. apply sample_subnet_loop_spec in Hrun
    as (Hh & Hm & _ & Hsame & Hmasks).
  exists sizes. split; [done|]. split; [done|]. split; [done|]. split.
  - intros k size Hk.
    destruct (Hmasks k size Hk) as (width & mask & H1 & H2 & H3 & H4).
    exists width, mask. split; [done|]. split; [done|]. split; [done|].
    unfold mask_of in H4. rewrite H4. split.
    + rewrite length_app, !length_replicate. lia.
    + rewrite filter_app, length_app.
      assert (∀ n, filter (λ b, b = true) (replicate n true)
                   = replicate n true) as ->.
      { induction n as [|n IHn]; [done|]. cbn [replicate].
        rewrite filter_cons_True by done. by rewrite IHn. }
      assert (∀ n, filter (λ b, b = true) (replicate n false) = []) as ->.
      { induction n as [|n IHn]; [done|]. cbn [replicate].
        by rewrite filter_cons_False by done. }
      rewrite length_replicate. cbn. lia.
  - intros j Hj. apply Hsame. cbn. lia.
Qed.

Lemma sample_subnet_masks_witness :
  ∃ sizes : list Z,
    decode_layers "2-1" = Ok sizes ∧
    ∀ (k : nat) size, sizes !! k = Some size →
      ∃ width mask,
        [3; 2; 4]%Z !! k = Some width ∧ (0 ≤ size ≤ width)%Z ∧
        [[false; true; true]; [true; false]; [true; true; true; true]]
          !! k = Some mask ∧
        length mask = Z.to_nat width ∧
        length (filter (λ b, b = true) mask) = Z.to_nat size.
Proof.
  destruct (sample_subnet_masks "2-1"
              {| model_hidden_layer_list := [3; 2; 4]%Z;
                 is_masked_subnet := false;
                 subnet_mask := [[true; true; true]; [true; true];
                                 [true; true; true; true]] |}
              [2; 0; 0; 0; 1]
              {| model_hidden_layer_list := [3; 2; 4]%Z;
                 is_masked_subnet := true;
                 subnet_mask := [[false; true; true]; [true; false];
                                 [true; true; true; true]] |}
              [] eq_refl)
    as (sizes & H1 & _ & _ & H2 & _).
  exists sizes. split; [exact H1|exact H2].
Defined.

Lemma sample_subnet_loop_returns (idx : nat) (sizes : list Z) st g :
  (∀ (k : nat) size, sizes !! k = Some size →
     ∃ width, model_hidden_layer_list st !! (idx + k)%nat = Some width ∧
              (0 ≤ size ≤ width)%Z) →
  (idx + length sizes ≤ length (subnet_mask st))%nat →
  (sum_list (Z.to_nat <$> take (length sizes)
                            (drop idx (model_hidden_layer_list st)))
   ≤ length g)%nat →
  ∃ st',
    sample_subnet_loop idx sizes st g
    = Some (Ok tt, st',
            drop (sum_list (Z.to_nat <$> take (length sizes)
                              (drop idx (model_hidden_layer_list st)))) g).
Proof.
  revert idx st g.
  induction sizes as [|size rest IH]; intros idx st g Hfit Hlen Hg;
    cbn [sample_subnet_loop].
  - exists st. cbn. by rewrite drop_0.
  - destruct (Hfit 0%nat size eq_refl) as (width & Hw & Hsize).
    rewrite Nat.add_0_r in Hw. rewrite Hw.
    rewrite (drop_S _ _ _ Hw) in Hg |- *.
    change (sum_list (Z.to_nat <$> take (length (size :: rest))
              (width :: drop (S idx) (model_hidden_layer_list st))))
      with (Z.to_nat width
            + sum_list (Z.to_nat <$> take (length rest)
                          (drop (S idx) (model_hidden_layer_list st))))%nat
      in Hg |- *.
    unfold torch_full. rewrite !decide_False by lia.
    rewrite length_app, !length_replicate.
    replace (Z.to_nat size + Z.to_nat (width - size))%nat
      with (Z.to_nat width) by lia.
    destruct (sample_from_returns (Z.to_nat width) (seq 0 (Z.to_nat width)) g)
      as [perm Hperm]; [by rewrite length_seq|lia|].
    unfold randperm. rewrite Hperm.
    cbn [length] in Hlen. rewrite decide_True by lia.
    destruct (IH (S idx) (with_mask st idx
                  (index_select (replicate (Z.to_nat size) true
                     ++ replicate (Z.to_nat (width - size)) false) perm))
                (drop (Z.to_nat width) g)) as [st' Hst'].
    + intros k size' Hk. cbn [with_mask model_hidden_layer_list].
      replace (S idx + k)%nat with (idx + S k)%nat by lia.
      by apply Hfit.
    + cbn [with_mask subnet_mask]. rewrite length_insert. lia.
    + cbn [with_mask model_hidden_layer_list]. rewrite length_drop. lia.
    + exists st'. rewrite Hst'. cbn [with_mask model_hidden_layer_list].
      by rewrite drop_drop.
Qed.

(** X15.  [sample_subnet] returns whenever the identifier parses to
    sizes that fit the network, at most as many sizes as there are
    layers and masks and none larger than the width of its layer; it
    takes one draw per neuron of the layers it masks. *)
Theorem sample_subnet_returns (arch_id : string) (sizes : list Z) st g :
  decode_layers arch_id = Ok sizes →
  Forall2 (λ size width, (0 ≤ size ≤ width)%Z) sizes
    (take (length sizes) (model_hidden_layer_list st)) →
  (length sizes ≤ length (subnet_mask st))%nat →
  (sum_list (Z.to_nat <$> take (length sizes) (model_hidden_layer_list st))
   ≤ length g)%nat →
  ∃ st',
    sample_subnet arch_id st g
    = Some (Ok tt, st',
            drop (sum_list (Z.to_nat <$> take (length sizes)
                              (model_hidden_layer_list st))) g).
Proof.
  intros Hdec Hfit Hlen Hg. unfold sample_subnet. rewrite Hdec.
  apply (sample_subnet_loop_returns 0 sizes
           {| model_hidden_layer_list := model_hidden_layer_list st;
              is_masked_subnet := true;
              subnet_mask := subnet_mask st |}); [|done|done].
  intros k size Hk. cbn.
  destruct (Forall2_lookup_l _ _ _ _ _ Hfit Hk) as (width & Hw & Hsw).
  exists width. split; [|done].
  by apply lookup_take_Some in Hw as [Hw _].
Qed.

Lemma sample_subnet_returns_witness :
  ∃ st',
    sample_subnet "2-1"
      {| model_hidden_layer_list := [3; 2; 4]%Z;
         is_masked_subnet := false;
         subnet_mask := [[true; true; true]; [true; true];
                         [true; true; true; true]] |}
      [2; 0; 0; 0; 1; 9]
    = Some (Ok tt, st', [9]).
Proof.
  apply (sample_subnet_returns "2-1" [2; 1]%Z
           {| model_hidden_layer_list := [3; 2; 4]%Z;
              is_masked_subnet := false;
              subnet_mask := [[true; true; true]; [true; true];
                              [true; true; true; true]] |}
           [2; 0; 0; 0; 1; 9] eq_refl).
  - repeat constructor; lia.
  - cbn. lia.
  - cbn. lia.
Defined.

Lemma sample_subnet_loop_failure (idx : nat) (sizes : list Z) st g e st' g' :
  sample_subnet_loop idx sizes st g = Some (Raise e, st', g') →
  is_masked_subnet st' = is_masked_subnet st ∧
  model_hidden_layer_list st' = model_hidden_layer_list st ∧
  (e = IndexError ∨ e = Other "RuntimeError: negative dimension").
Proof.
  revert idx st g.
  induction sizes as [|size rest IH]; intros idx st g;
    cbn [sample_subnet_loop]; [done|].
  unfold torch_full. destruct (decide (size < 0)%Z).
  { intros [= <- <- <-]. auto. }
  destruct (model_hidden_layer_list st !! idx) as [width|].
  2: { intros [= <- <- <-]. auto. }
  destruct (decide (width - size < 0)%Z).
  { intros [= <- <- <-]. auto. }
  destruct (randperm _ g) as [[perm g1]|]; [|done].
  destruct (decide (idx < length (subnet_mask st))).
  2: { intros [= <- <- <-]. auto. }
  intros Hrun. by apply IH in Hrun.
Qed.

(** X16.  When [sample_subnet] fails, it fails with the [ValueError] of
    an identifier that does not parse, and then the model is as
    before; or, the identifier parsed, with an [IndexError] or the
    [RuntimeError] of a negative length, and then the model has
    already been switched to its masked mode. *)
Theorem sample_subnet_failure (arch_id : string) st g e st' g' :
  sample_subnet arch_id st g = Some (Raise e, st', g') →
  model_hidden_layer_list st' = model_hidden_layer_list st ∧
  ((e = ValueError ∧ st' = st ∧ decode_layers arch_id = Raise ValueError)
   ∨ ((e = IndexError ∨ e = Other "RuntimeError: negative dimension") ∧
      is_masked_subnet st' = true ∧
      ∃ sizes, decode_layers arch_id = Ok sizes)).
Proof.
  unfold sample_subnet.
  destruct (decode_layers arch_id) as [sizes|e0] eqn:Hdec.
  - intros (Hm & Hh & He)%sample_subnet_loop_failure.
    split; [done|]. right. split; [done|]. split; [done|]. by exists sizes.
  - intros [= <- <- <-]. split; [done|]. left.
    assert (e0 = ValueError) as ->; [|done].
    unfold decode_layers in Hdec.
    by eapply map_result_int_of_str_raises.
Qed.

Lemma sample_subnet_failure_witness :
  ∃ sizes, decode_layers "2-1" = Ok sizes.
Proof.
  destruct (sample_subnet_failure "2-1"
              {| model_hidden_layer_list := [3]%Z;
                 is_masked_subnet := false;
                 subnet_mask := [[true; true; true]] |}
              [2; 0; 0] IndexError
              {| model_hidden_layer_list := [3]%Z;
                 is_masked_subnet := true;
                 subnet_mask := [[false; true; true]] |}
              [] eq_refl)
    as [_ [(H & _)|(_ & _ & H)]]; [discriminate H|exact H].
Defined.

End MaskFacts.

Section BoundaryMore.

Import PgInterface PgInterfaceMore.

Context (W : World).

Implicit Types (env : environ) (args : Namespace) (func : endpoint).

Lemma outcome_bind_ok {A B} (c : outcome A) (k : A → outcome B) r :
  c ≫= k = Ok r → ∃ a, c = Ok a ∧ k a = Ok r.
Proof. destruct c as [a|e]; [by exists a|done]. Qed.

Lemma assign_fields_dom parser fields args0 args :
  assign_fields W parser fields args0 = Ok args →
  ∀ name, is_Some (args !! name)
          ↔ is_Some (args0 !! name) ∨ name ∈ fields.*1.*1.
Proof.
  revert args0. induction fields as [|[[n sec] k] fields IH];
    intros args0 Hrun name.
  - injection Hrun as <-. rewrite elem_of_nil. tauto.
  - cbn [assign_fields] in Hrun.
    apply outcome_bind_ok in Hrun as (v & _ & Hrun).
    rewrite (IH _ Hrun name), !fmap_cons, elem_of_cons. cbn [fst].
    destruct (decide (name = n)) as [->|Hne].
    + rewrite lookup_insert_eq. split; [by auto|]. intros _. left. by eexists.
    + rewrite lookup_insert_ne by done. tauto.
Qed.

Lemma assign_fields_kept parser fields args0 args name v :
  assign_fields W parser fields args0 = Ok args →
  name ∉ fields.*1.*1 → args0 !! name = Some v → args !! name = Some v.
Proof.
  revert args0. induction fields as [|[[n sec] k] fields IH];
    intros args0 Hrun Hfresh Hv.
  - by injection Hrun as <-.
  - cbn [assign_fields] in Hrun.
    apply outcome_bind_ok in Hrun as (v' & _ & Hrun).
    rewrite !fmap_cons in Hfresh. cbn [fst] in Hfresh.
    apply not_elem_of_cons in Hfresh as [Hne Hfresh].
    apply (IH _ Hrun Hfresh). by rewrite lookup_insert_ne.
Qed.

Lemma parser_value_kind parser section name k v :
  parser_value W parser section name k = Ok v →
  ∃ raw, parser_get parser section name = Ok raw ∧ option_value W k raw v.
Proof.
  unfold parser_value. intros (raw & Hraw & Hv)%outcome_bind_ok.
  exists raw. split; [done|]. destruct k; cbn.
  - by injection Hv as <-.
  - destruct (int_of_str raw) as [z|]; [|done]. injection Hv as <-. eauto.
  - destruct (float_of_str W raw) as [f|]; [|done].
    injection Hv as <-. eauto.
  - destruct (boolean_state raw) as [b|]; [|done]. injection Hv as <-. eauto.
Qed.

Lemma assign_fields_value parser fields args0 args name section k :
  assign_fields W parser fields args0 = Ok args →
  NoDup (fields.*1.*1) →
  (name, section, k) ∈ fields →
  ∃ raw v, parser_get parser section name = Ok raw ∧
           args !! name = Some v ∧ option_value W k raw v.
Proof.
  revert args0. induction fields as [|[[n sec] k'] fields IH];
    intros args0 Hrun Hnd Hin; [by apply elem_of_nil in Hin|].
  cbn [assign_fields] in Hrun.
  apply outcome_bind_ok in Hrun as (v & Hv & Hrun).
  rewrite !fmap_cons in Hnd. cbn [fst] in Hnd.
  apply NoDup_cons in Hnd as [Hfresh Hnd].
  apply elem_of_cons in Hin as [[= <- <- <-]|Hin]; [|by eapply IH].
  apply parser_value_kind in Hv as (raw & Hraw & Hkind).
  exists raw, v. split; [done|]. split; [|done].
  apply (assign_fields_kept _ _ _ _ _ _ Hrun Hfresh).
  by rewrite lookup_insert_eq.
Qed.

Lemma NoDup_config_names : NoDup config_names.
Proof. apply (bool_decide_unpack _). vm_compute. reflexivity. Qed.

Lemma config_file_not_assigned : "config_file" ∉ config_names.
Proof.
  apply (bool_decide_unpack ("config_file" ∉ config_names)).
  vm_compute. reflexivity.
Qed.

Lemma parse_config_arguments_spec config_path args :
  parse_config_arguments W config_path = Ok args →
  (∀ name, is_Some (args !! name) ↔ name ∈ config_names) ∧
  ∃ parser,
    parser_read W config_path = Ok parser ∧
    ∀ name section k,
      (name, section, k) ∈ config_fields →
      ∃ raw v, parser_get parser section name = Ok raw ∧
               args !! name = Some v ∧ option_value W k raw v.
Proof.
  unfold parse_config_arguments.
  intros (parser & Hread & Hrun)%outcome_bind_ok. split.
  - intros name. rewrite (assign_fields_dom _ _ _ _ Hrun name).
    rewrite lookup_empty. split; [|by auto].
    intros [[? [=]]|H]; exact H.
  - exists parser. split; [done|]. intros name section k Hin.
    eapply assign_fields_value; [done|apply NoDup_config_names|done].
Qed.

Lemma parse_request_args s params args :
  parse_request W s = Ok (params, args) →
  json_loads W s = Ok params ∧
  ∃ config_file, dict_get params "config_file" = Ok config_file ∧
                 parse_config_arguments W config_file = Ok args.
Proof.
  unfold parse_request.
  intros (p & Hp & (cf & Hcf & (a & Ha & [= <- <-])%outcome_bind_ok)
            %outcome_bind_ok)%outcome_bind_ok.
  split; [done|]. by exists cf.
Qed.

Lemma parsed_args_no_config_file s params args :
  parse_request W s = Ok (params, args) → args !! "config_file" = None.
Proof.
  intros (_ & cf & _ & Hargs)%parse_request_args.
  apply parse_config_arguments_spec in Hargs as [Hdom _].
  apply eq_None_not_Some. rewrite Hdom. apply config_file_not_assigned.
Qed.

Lemma wrapper_try_ok func s ts env r env' :
  wrapper_try W func s ts env = (Ok r, env') →
  ∃ params args,
    parse_request W s = Ok (params, args) ∧
    set_environment args ts env = (Ok tt, env') ∧
    func params args env' = Ok r.
Proof.
  unfold wrapper_try.
  destruct (parse_request W s) as [[params args]|]; [|done].
  destruct (set_environment args ts env) as [[[]|] env1] eqn:Hset; [|done].
  intros [= Hr <-]. by exists params, args.
Qed.

Lemma wrapper_try_run func s ts env params args :
  parse_request W s = Ok (params, args) →
  ∃ env', set_environment args ts env = (Ok tt, env') ∧
          wrapper_try W func s ts env = (func params args env', env').
Proof.
  intros Hreq.
  destruct (set_environment_after_parse W _ _ _ ts env Hreq) as [env' Hset].
  exists env'. split; [done|]. unfold wrapper_try. by rewrite Hreq, Hset.
Qed.

Lemma exception_catcher_run func s ts env params args :
  parse_request W s = Ok (params, args) →
  ∃ env', set_environment args ts env = (Ok tt, env') ∧
          exception_catcher W func s ts env =
            (match func params args env' with
             | Ok r => r
             | Raise e => error_record W e
             end, env').
Proof.
  intros Hreq.
  destruct (wrapper_try_run func s ts env _ _ Hreq) as (env' & Hset & Htry).
  exists env'. split; [done|]. unfold exception_catcher. rewrite Htry.
  by destruct (func params args env').
Qed.

Lemma exception_catcher_raise func s ts env :
  (∀ params args env' r,
     args !! "config_file" = None → func params args env' ≠ Ok r) →
  ∃ e env', wrapper_try W func s ts env = (Raise e, env') ∧
            exception_catcher W func s ts env = (error_record W e, env').
Proof.
  intros Hbody.
  destruct (exception_catcher_cases W func s ts env)
    as [(r & env' & Htry & _)|(e & env' & Htry & Hres)]; [|by eauto].
  apply wrapper_try_ok in Htry as (params & args & Hreq & _ & Hr).
  exfalso. eapply Hbody; [|exact Hr]. by eapply parsed_args_no_config_file.
Qed.

Lemma orjson_dumps_keys d r :
  orjson_dumps (JDict d) = Ok r → keys r = d.*1.
Proof.
  unfold orjson_dumps. destruct (encodable _); [|done].
  intros [= <-]. cbn. induction d as [|[k v] d IH]; [done|].
  cbn. by rewrite <- IH.
Qed.

Lemma exception_catcher_keys func ks s ts env :
  (∀ params args env' r, func params args env' = Ok r → keys r = ks) →
  keys (exception_catcher W func s ts env).1 = ["Errored"]
  ∨ keys (exception_catcher W func s ts env).1 = ks.
Proof.
  intros Hbody.
  destruct (exception_catcher_cases W func s ts env)
    as [(r & env' & Htry & ->)|(e & env' & _ & ->)]; [|by left].
  right. apply wrapper_try_ok in Htry as (params & args & _ & _ & Hr).
  cbn [fst]. by eapply Hbody.
Qed.

Ltac body_steps H :=
  repeat (apply outcome_bind_ok in H as (? & ? & H);
          repeat match type of H with
                 | (let '(_, _) := ?x in _) = _ => destruct x
                 end).

Ltac body_keys :=
  intros params args env r; cbv beta delta
    [model_selection_body profiling_filtering_phase_body
     profiling_refinement_phase_body coordinator_body filtering_phase_body
     refinement_phase_body model_selection_workloads_body];
  intros H; body_steps H;
  by apply orjson_dumps_keys in H.

(** X17.  A configuration that [parse_config_arguments] accepts gives a
    namespace with exactly the attributes the function assigns: each
    one holds the value its getter makes of the text the parser has
    for the option of the same name, and there is no other attribute,
    in particular no [config_file]. *)
Theorem parse_config_arguments_namespace (config_path : json) args :
  parse_config_arguments W config_path = Ok args →
  (∀ name, is_Some (args !! name) ↔ name ∈ config_names) ∧
  args !! "config_file" = None ∧
  ∃ parser,
    parser_read W config_path = Ok parser ∧
    ∀ name section k,
      (name, section, k) ∈ config_fields →
      ∃ raw v, parser_get parser section name = Ok raw ∧
               args !! name = Some v ∧ option_value W k raw v.
Proof.
  intros Hargs.
  destruct (parse_config_arguments_spec _ _ Hargs) as [Hdom Hvalues].
  split; [done|]. split; [|done].
  apply eq_None_not_Some. rewrite Hdom. apply config_file_not_assigned.
Qed.

(** X18.  [model_selection_trails] and
    [model_selection_trails_workloads] read [args.config_file] before
    they ask for the refinement, an attribute that
    [parse_config_arguments] never sets: whatever the request and
    whatever the services answer, the [try] block ends in an exception
    and the response is the error record. *)
Theorem trails_endpoints_never_succeed (svc : Services W) (s : string)
    (ts : Z) env :
  (∃ e env',
     wrapper_try W (model_selection_trails_body W svc) s ts env
       = (Raise e, env') ∧
     model_selection_trails W svc s ts env = (error_record W e, env')) ∧
  (∃ e env',
     wrapper_try W (model_selection_trails_workloads_body W svc) s ts env
       = (Raise e, env') ∧
     model_selection_trails_workloads W svc s ts env
       = (error_record W e, env')).
Proof.
  assert (Href : ∀ k_models args r,
            args !! "config_file" = None →
            remote_refinement W svc k_models args ≠ Ok r).
  { intros k_models args r Hnone. unfold remote_refinement, getattr.
    by rewrite Hnone. }
  split; apply exception_catcher_raise; intros params args env' r Hnone H.
  - unfold model_selection_trails_body in H. body_steps H.
    by eapply Href.
  - unfold model_selection_trails_workloads_body in H. body_steps H.
    by eapply Href.
Qed.



(** X21.  The fields of the responses: an endpoint answers either with
    the error record, whose only key is [Errored], or with a record
    that has exactly the keys of its [orjson.dumps] call, in that
    order. *)
Theorem endpoint_response_keys :
  Forall (λ '(f, ks), ∀ (s : string) (ts : Z) env,
            keys (f s ts env).1 = ["Errored"] ∨ keys (f s ts env).1 = ks)
         (response_keys W).
Proof.
  unfold response_keys. repeat apply Forall_cons_2; [..|apply Forall_nil_2];
    intros s ts env0; apply exception_catcher_keys; body_keys.
Qed.

(** X22.  A request whose configuration has no [log_name] in its
    default section, as when the file it names does not exist and
    [parser.read] has skipped it, fails at the first assignment of
    [parse_config_arguments]: every endpoint answers with the error
    record of [NoOptionError], without running its body and without
    setting an environment variable. *)
Theorem configuration_without_log_name func (s : string) (ts : Z) env
    params config_file parser :
  json_loads W s = Ok params →
  dict_get params "config_file" = Ok config_file →
  parser_read W config_file = Ok parser →
  parser !! DEFAULT ≫= (.!! "log_name") = None →
  parse_config_arguments W config_file = Raise NoOptionError ∧
  exception_catcher W func s ts env = (error_record W NoOptionError, env).
Proof.
  intros Hloads Hcf Hread Hnone.
  assert (Hparse : parse_config_arguments W config_file
                   = Raise NoOptionError).
  { unfold parse_config_arguments. rewrite Hread.
    cbn [mbind outcome_bind]. unfold config_fields.
    cbn [assign_fields].
    assert (parser_get parser "DEFAULT" "log_name" = Raise NoOptionError)
      as Hget.
    { unfold parser_get, unify_values.
      change (String.eqb "DEFAULT" DEFAULT) with true.
      change (lower "log_name") with "log_name".
      change DEFAULT with "DEFAULT" in Hnone |- *.
      destruct (parser !! "DEFAULT") as [d|] eqn:Hd; [|done].
      cbn in Hnone. cbn [mbind outcome_bind option_bind]. cbv beta.
      rewrite Hnone. cbn. by rewrite ?Hnone. }
    unfold parser_value. by rewrite Hget. }
  split; [done|].
  unfold exception_catcher, wrapper_try, parse_request.
  rewrite Hloads. cbn. rewrite Hcf. cbn. by rewrite Hparse.
Qed.

End BoundaryMore.

Section BoundaryMoreWitnesses.

Import PgInterface PgInterfaceMore.

Lemma flag_request_parses :
  parse_request SamplesMore.world1 SamplesMore.flag_request
    = Ok (SamplesMore.flag_params, SamplesMore.args_1).
Proof.
  assert (Hok : match parse_config_arguments SamplesMore.world1 (JStr "a.ini")
                with Ok _ => true | Raise _ => false end = true)
    by (vm_compute; reflexivity).
  unfold parse_request, SamplesMore.args_1.
  change (json_loads SamplesMore.world1 SamplesMore.flag_request)
    with (Ok SamplesMore.flag_params).
  change (Ok SamplesMore.flag_params ≫= ?k)
    with (k SamplesMore.flag_params).
  cbv beta.
  change (dict_get SamplesMore.flag_params "config_file")
    with (Ok (JStr "a.ini")).
  change (Ok (JStr "a.ini") ≫= ?k) with (k (JStr "a.ini")).
  cbv beta.
  destruct (parse_config_arguments SamplesMore.world1 (JStr "a.ini"));
    [reflexivity|discriminate Hok].
Qed.

Lemma sample_configuration_parses :
  parse_config_arguments Samples.world0 (JStr "a.ini") = Ok Samples.args_a.
Proof.
  assert (Hok : match parse_config_arguments Samples.world0 (JStr "a.ini")
                with Ok _ => true | Raise _ => false end = true)
    by (vm_compute; reflexivity).
  unfold Samples.args_a.
  destruct (parse_config_arguments Samples.world0 (JStr "a.ini"));
    [reflexivity|discriminate Hok].
Qed.

Lemma parse_config_arguments_namespace_witness :
  (∀ name, is_Some (Samples.args_a !! name) ↔ name ∈ config_names) ∧
  Samples.args_a !! "config_file" = None.
Proof.
  destruct (parse_config_arguments_namespace Samples.world0 (JStr "a.ini")
              Samples.args_a sample_configuration_parses) as (H1 & H2 & _).
  split; [exact H1|exact H2].
Defined.



Lemma configuration_without_log_name_witness :
  exception_catcher Samples.world0 refinement_phase_body
    (Samples.refine_request "missing.ini") 7 ∅
  = (JDict [("Errored", JStr "NoOptionError")], ∅).
Proof.
  refine (proj2 (configuration_without_log_name Samples.world0
                   refinement_phase_body (Samples.refine_request "missing.ini")
                   7 ∅ SamplesMore.missing_params (JStr "missing.ini") ∅
                   _ _ _ _)).
  - vm_compute; reflexivity.
  - vm_compute; reflexivity.
  - vm_compute; reflexivity.
  - reflexivity.
Defined.

End BoundaryMoreWitnesses.

Section LatencyFacts.

Import FilteringLatencyMore.

Context (float_sum : list float → float).

Lemma py_sum_zero_or_float l : zero_or_float (py_sum float_sum l).
Proof. destruct l; [by left|right; by eexists]. Qed.

Lemma num_add_zero_or_float a b :
  zero_or_float a → zero_or_float b →
  ∃ c, num_add a b = Ok c ∧ zero_or_float c.
Proof.
  intros [->|[f ->]] [->|[g ->]]; cbn.
  - exists (NInt 0). split; [done|by left].
  - eexists. split; [done|]. right. by eexists.
  - eexists. split; [done|]. right. by eexists.
  - eexists. split; [done|]. right. by eexists.
Qed.

Lemma track_Some (tu : time_usage) key l :
  tu !! key = Some (Track l) → track tu key = Ok l.
Proof. unfold track. by intros ->. Qed.

Lemma track_insert_ne (k key : string) u (tu : time_usage) :
  k ≠ key → track (<[k := u]> tu) key = track tu key.
Proof. intros Hne. unfold track. by rewrite lookup_insert_ne. Qed.

Lemma total_insert_ne (k key : string) u (tu : time_usage) :
  k ≠ key → total (<[k := u]> tu) key = total tu key.
Proof. intros Hne. unfold total. by rewrite lookup_insert_ne. Qed.

Lemma total_insert_eq (k : string) v (tu : time_usage) :
  total (<[k := Total v]> tu) k = Ok v.
Proof. unfold total. by rewrite lookup_insert_eq. Qed.

Lemma num_truediv_zero v :
  zero_or_float v → num_truediv v 0 = Raise ZeroDivisionError.
Proof. by intros [->|[f ->]]. Qed.

(** X23.  The script divides the compute time by the number of tracked
    computations after the first two.  When the evaluator has tracked
    at most two, as in a run that scored fewer than three models, the
    division fails with [ZeroDivisionError], and the script ends
    before [write_json] is called: neither the scores nor the times
    are written. *)
Theorem latency_summary_needs_three_computations {Score : Type}
    (if_cuda_avaiable : bool) (cuda_synchronize : outcome unit)
    (write_json : string → document Score → files →
                  outcome unit * files)
    (output_file time_output_file : string) (result : gmap string Score)
    (tu : time_usage) (fs : files) (l1 l2 l3 l4 l5 l6 measured : list float) :
  tu !! "track_io_model_load" = Some (Track l1) →
  tu !! "track_io_model_release_each_50" = Some (Track l2) →
  tu !! "track_io_model_init" = Some (Track l3) →
  tu !! "track_io_res_load" = Some (Track l4) →
  tu !! "track_io_data_retrievel" = Some (Track l5) →
  tu !! "track_io_data_preprocess" = Some (Track l6) →
  tu !! "track_compute" = Some (Track measured) →
  (length measured ≤ 2)%nat →
  (if if_cuda_avaiable then cuda_synchronize else Ok tt) = Ok tt →
  latency_summary float_sum tu = Raise ZeroDivisionError ∧
  write_results float_sum if_cuda_avaiable cuda_synchronize write_json
    output_file time_output_file result tu fs
  = (Raise ZeroDivisionError, fs).
Proof.
  intros H1 H2 H3 H4 H5 H6 H7 Hlen Hcuda.
  assert (Hsum : latency_summary float_sum tu = Raise ZeroDivisionError).
  { unfold latency_summary.
    rewrite (track_Some _ _ _ H1), (track_Some _ _ _ H2).
    cbn [fmap outcome_fmap mbind outcome_bind compose].
    destruct (num_add_zero_or_float _ _
                (py_sum_zero_or_float (drop 2 l1))
                (py_sum_zero_or_float l2)) as (a1 & -> & Ha1).
    cbn [mbind outcome_bind]. rewrite (track_Some _ _ _ H3).
    cbn [fmap outcome_fmap mbind outcome_bind compose].
    destruct (num_add_zero_or_float _ _ Ha1
                (py_sum_zero_or_float (drop 2 l3))) as (a2 & -> & Ha2).
    cbn [mbind outcome_bind]. rewrite (track_Some _ _ _ H4).
    cbn [fmap outcome_fmap mbind outcome_bind compose].
    destruct (num_add_zero_or_float _ _ Ha2
                (py_sum_zero_or_float (drop 2 l4))) as (a3 & -> & Ha3).
    cbn [mbind outcome_bind]. rewrite (track_Some _ _ _ H5).
    cbn [fmap outcome_fmap mbind outcome_bind compose].
    destruct (num_add_zero_or_float _ _ Ha3
                (py_sum_zero_or_float (drop 2 l5))) as (a4 & -> & Ha4).
    cbn [mbind outcome_bind]. rewrite (track_Some _ _ _ H6).
    cbn [fmap outcome_fmap mbind outcome_bind compose].
    destruct (num_add_zero_or_float _ _ Ha4
                (py_sum_zero_or_float (drop 2 l6))) as (io & -> & Hio).
    cbn [mbind outcome_bind].
    rewrite (track_insert_ne "io_latency" "track_compute") by done.
    rewrite (track_Some _ _ _ H7).
    cbn [fmap outcome_fmap mbind outcome_bind compose].
    assert (Hdrop : drop 2 measured = []) by (apply drop_ge; lia).
    rewrite Hdrop. cbn [py_sum].
    rewrite (total_insert_ne "compute_latency" "io_latency") by done.
    rewrite (total_insert_eq "io_latency").
    cbn [mbind outcome_bind].
    rewrite (total_insert_eq "compute_latency").
    cbn [mbind outcome_bind].
    destruct (num_add_zero_or_float io (NInt 0) Hio (or_introl eq_refl))
      as (lat & -> & _).
    cbn [mbind outcome_bind].
    rewrite (total_insert_ne "latency" "compute_latency") by done.
    rewrite (total_insert_eq "compute_latency").
    cbn [mbind outcome_bind].
    rewrite (track_insert_ne "latency" "track_compute") by done.
    rewrite (track_insert_ne "compute_latency" "track_compute") by done.
    rewrite (track_insert_ne "io_latency" "track_compute") by done.
    rewrite (track_Some _ _ _ H7).
    cbn [mbind outcome_bind]. rewrite Hdrop. reflexivity. }
  split; [done|]. unfold write_results. by rewrite Hcuda, Hsum.
Qed.

End LatencyFacts.

Section LatencyWitness.

Import FilteringLatencyMore.

Lemma latency_summary_needs_three_computations_witness :
  latency_summary (λ _, Samples.one_second)
    (list_to_map
       [("track_io_model_load", Track []);
        ("track_io_model_release_each_50", Track []);
        ("track_io_model_init", Track []);
        ("track_io_res_load", Track []);
        ("track_io_data_retrievel", Track []);
        ("track_io_data_preprocess", Track []);
        ("track_compute",
         Track [Samples.one_second; Samples.one_second])])
  = Raise ZeroDivisionError.
Proof.
  refine (proj1 (latency_summary_needs_three_computations
                   (λ _, Samples.one_second) (Score := Z)
                   false (Ok tt) (λ _ _ fs, (Ok tt, fs))
                   "score.json" "time.json" ∅ _ []
                   [] [] [] [] [] [] [Samples.one_second; Samples.one_second]
                   _ _ _ _ _ _ _ _ _));
    [reflexivity..|cbn; lia|reflexivity].
Defined.

End LatencyWitness.

Section BudgetMore.

Import BudgetAware.

Context (search_space dataset : string).
Context (get_ground_truth : Z → string → outcome float).
Context (all_models : list (list Z)).

(** X24.  The step of the budget grid is [int((fully - min) / 30)].
    When the budget of full training and the smallest budget are less
    than 30 apart the step is 0, [range] refuses it, and
    [run_one_fixed_budget_alg] fails with [ValueError] before any
    budget is tried. *)
Theorem zero_step_fails (sh : controller) (time_per_epoch : float)
    (min_time_for_fixed_k fully_train_each_model step : Z) :
  budget_grid sh time_per_epoch
    = Ok (min_time_for_fixed_k, fully_train_each_model, step) →
  (-30 < fully_train_each_model - min_time_for_fixed_k < 30)%Z →
  step = 0%Z ∧
  run_one_fixed_budget_alg search_space dataset get_ground_truth all_models
    sh time_per_epoch = Raise ValueError.
Proof.
  intros Hgrid Hd.
  pose proof (budget_grid_step _ _ _ _ _ Hgrid) as Hstep.
  rewrite (step_of_small_difference _ Hd) in Hstep.
  injection Hstep as <-. split; [done|].
  unfold run_one_fixed_budget_alg. rewrite Hgrid.
  cbn [mbind outcome_bind]. unfold total_run, range.
  cbn [seq map_result one_run]. unfold range3.
  by rewrite decide_True.
Qed.

(** X25.  What [run_one_fixed_budget_alg] returns: [acc_reached] and
    [time_used] have one row per run, [total_run] rows, and every row
    has one entry per budget of the grid, whatever the controller
    answers. *)
Theorem result_rows_per_budget (sh : controller) (time_per_epoch : float)
    (acc_reached time_used : list (list float)) :
  run_one_fixed_budget_alg search_space dataset get_ground_truth all_models
    sh time_per_epoch = Ok (acc_reached, time_used) →
  ∃ min_time_for_fixed_k fully_train_each_model step budgets,
    budget_grid sh time_per_epoch
      = Ok (min_time_for_fixed_k, fully_train_each_model, step) ∧
    range3 min_time_for_fixed_k fully_train_each_model step = Ok budgets ∧
    length acc_reached = total_run ∧ length time_used = total_run ∧
    Forall (λ row, length row = length budgets) acc_reached ∧
    Forall (λ row, length row = length budgets) time_used.
Proof.
  unfold run_one_fixed_budget_alg.
  intros ([[mn fl] st] & Hgrid & (runs & Hruns & [= <- <-])%outcome_bind_ok)
    %outcome_bind_ok.
  apply map_result_Forall2 in Hruns.
  pose proof (Forall2_length _ _ _ Hruns) as Hlen.
  unfold range in Hlen. rewrite length_seq in Hlen.
  destruct (range3 mn fl st) as [budgets|e] eqn:Hrange.
  - exists mn, fl, st, budgets. split; [done|]. split; [done|].
    rewrite !length_map. split; [done|]. split; [done|].
    assert (Hrows : Forall (λ run : list (float * float),
                              length run = length budgets) runs).
    { apply Forall_forall. intros run Hin.
      apply list_elem_of_lookup in Hin as [i Hi].
      destruct (Forall2_lookup_r _ _ _ _ _ Hruns Hi) as (run_id & _ & Hrun).
      unfold one_run in Hrun. rewrite Hrange in Hrun.
      cbn [mbind outcome_bind] in Hrun.
      apply map_result_Forall2, Forall2_length in Hrun. done. }
    split; apply Forall_map; (eapply Forall_impl; [exact Hrows|]);
      intros run Hrun; cbn; by rewrite length_map.
  - exfalso. destruct runs as [|run runs]; [cbn in Hlen; unfold total_run in Hlen; lia|].
    apply Forall2_cons_inv_r in Hruns as (x & xs & Hx & _ & _).
    unfold one_run in Hx. by rewrite Hrange in Hx.
Qed.

(** X26.  A negative step of the budget grid arises only when the
    smallest budget is at least 30 above the budget of full training.
    Every run then sweeps downwards: the budgets start at the smallest
    budget, decrease strictly by the step, and are all the grid points
    above the budget of full training. *)
Theorem sweep_with_negative_step (sh : controller) (time_per_epoch : float)
    (min_time_for_fixed_k fully_train_each_model step : Z) :
  budget_grid sh time_per_epoch
    = Ok (min_time_for_fixed_k, fully_train_each_model, step) →
  (step < 0)%Z →
  (fully_train_each_model + 30 ≤ min_time_for_fixed_k)%Z ∧
  ∃ budgets,
    range3 min_time_for_fixed_k fully_train_each_model step = Ok budgets ∧
    (∀ run_id,
       one_run search_space dataset get_ground_truth all_models sh
         (min_time_for_fixed_k, fully_train_each_model, step) run_id
       = map_result
           (one_budget search_space dataset get_ground_truth all_models
              sh run_id) budgets) ∧
    head budgets = Some min_time_for_fixed_k ∧
    (∀ (i j : nat) bi bj,
       (i < j)%nat → budgets !! i = Some bi → budgets !! j = Some bj →
       (bj < bi)%Z) ∧
    (∀ b, b ∈ budgets →
          (fully_train_each_model < b ≤ min_time_for_fixed_k)%Z) ∧
    (∀ i : Z, (0 ≤ i)%Z →
       (fully_train_each_model < min_time_for_fixed_k + i * step)%Z →
       (min_time_for_fixed_k + i * step)%Z ∈ budgets).
Proof.
  intros Hgrid Hstep.
  assert (Hfar : (fully_train_each_model + 30 ≤ min_time_for_fixed_k)%Z).
  { pose proof (budget_grid_step _ _ _ _ _ Hgrid) as Hst.
    destruct (Z.le_gt_cases
                (fully_train_each_model + 30) min_time_for_fixed_k)
      as [|Hnear]; [done|exfalso].
    destruct (Z.le_gt_cases 0
                (fully_train_each_model - min_time_for_fixed_k))
      as [Hpos|Hneg].
    - apply outcome_bind_ok in Hst as (q & Hq & Hst).
      pose proof (int_truediv_nonneg _ 30 _ _ Hpos eq_refl Hq Hst). lia.
    - rewrite step_of_small_difference in Hst by lia.
      injection Hst as <-. lia. }
  split; [done|].
  destruct (range3_negative min_time_for_fixed_k fully_train_each_model
              step Hstep) as (budgets & Hr & Hdec & Hbound & Hgridpts & Hhead).
  exists budgets. split; [done|]. split.
  { intros run_id. unfold one_run. by rewrite Hr. }
  split; [apply Hhead; lia|]. done.
Qed.

End BudgetMore.

Section BudgetMoreWitnesses.

Import BudgetAware.

Lemma zero_step_fails_witness :
  run_one_fixed_budget_alg "mlp_sp" "frappe" SamplesMore.ground_truth0
    SamplesMore.small_pools SamplesMore.controller1 Samples.one_second
  = Raise ValueError.
Proof.
  refine (proj2 (zero_step_fails "mlp_sp" "frappe" SamplesMore.ground_truth0
                   SamplesMore.small_pools SamplesMore.controller1
                   Samples.one_second 100000 100000 0 _ _)).
  - vm_compute; reflexivity.
  - lia.
Defined.

Lemma sample_run_returns :
  run_one_fixed_budget_alg "mlp_sp" "frappe" SamplesMore.ground_truth0
    SamplesMore.small_pools Samples.controller0 Samples.one_second
  = Ok (SamplesMore.rows0.1, SamplesMore.rows0.2).
Proof.
  assert (Hok : match run_one_fixed_budget_alg "mlp_sp" "frappe"
                        SamplesMore.ground_truth0 SamplesMore.small_pools
                        Samples.controller0 Samples.one_second
                with Ok _ => true | Raise _ => false end = true)
    by (vm_compute; reflexivity).
  unfold SamplesMore.rows0, SamplesMore.rows_of.
  destruct (run_one_fixed_budget_alg _ _ _ _ _ _) as [[acc time]|];
    [reflexivity|discriminate Hok].
Qed.

Lemma result_rows_per_budget_witness :
  length SamplesMore.rows0.1 = 3 ∧ length SamplesMore.rows0.2 = 3.
Proof.
  destruct (result_rows_per_budget "mlp_sp" "frappe"
              SamplesMore.ground_truth0 SamplesMore.small_pools
              Samples.controller0 Samples.one_second
              SamplesMore.rows0.1 SamplesMore.rows0.2 sample_run_returns)
    as (mn & fl & st & budgets & _ & _ & H1 & H2 & _).
  split; [exact H1|exact H2].
Defined.

Lemma sweep_with_negative_step_witness :
  ∃ budgets,
    range3 100300 100000 (-10) = Ok budgets ∧
    head budgets = Some 100300%Z ∧
    (∀ b, b ∈ budgets → (100000 < b ≤ 100300)%Z).
Proof.
  destruct (sweep_with_negative_step "mlp_sp" "frappe"
              SamplesMore.ground_truth0 SamplesMore.small_pools
              SamplesMore.controller2 Samples.one_second
              100300 100000 (-10))
    as [_ (budgets & Hr & _ & Hhead & _ & Hbound & _)].
  - vm_compute; reflexivity.
  - lia.
  - exists budgets. split; [exact Hr|]. split; [exact Hhead|exact Hbound].
Defined.

End BudgetMoreWitnesses.
